(** * worktree-tools-mcp: a shallow embedding of the worktree orchestration
    engine and the verification of its specification.

    The TypeScript sources embedded here are
      - [src/utils/username.ts]  (identity resolution, name normalisation),
      - [src/utils/git.ts]       (worktree enumeration, trunk probing,
                                  creation, divergence status),
      - [src/utils/github.ts]    (pull-request content and submission),
      - the five tool entry points (create, list, status, cleanup,
        createPR).

    An operation is a program: a tree whose nodes are the calls to the
    external collaborators (git, the file system, child processes, the
    hosted API), each continued on the call's answer or on its failure.  A
    world is a handler that answers the calls and moves its state on;
    running a program against a world yields the result, the final state and
    the trace of calls with their answers.  The theorems quantify over all
    worlds; the concrete worlds of the second half of the definitions serve
    as inputs on which the statements are evaluated.

    Strings are JavaScript strings whose code units are below 256 (the
    Latin-1 range), represented by [string]; on that range [toLowerCase],
    the regular-expression class [\s], [trim] and [.] are the functions
    written out in [Module Js].  Numbers are exact integers.  The promises
    of [Promise.all] are taken in list order, and the messages written to
    [console.error] are left out. *)

From Stdlib Require Import Ascii String NArith ZArith List Lia Bool.
From Stdlib Require Import DecimalString DecimalPos DecimalN.
From stdpp Require Import base option list strings gmap sets.

Local Open Scope N_scope.

(** ** JavaScript string primitives *)

Module Js.

Definition code (c : ascii) : N := N_of_ascii c.

(** [\s] and the characters removed by [trim]: TAB, LF, VT, FF, CR, space
    and NBSP. *)
Definition isWhiteSpace (c : ascii) : bool :=
  let n := code c in
  ((9 <=? n) && (n <=? 13)) || (n =? 32) || (n =? 160).

(** The characters [.] does not match: LF and CR. *)
Definition isLineTerminator (c : ascii) : bool :=
  let n := code c in (n =? 10) || (n =? 13).

(** The class [[a-z0-9-]]. *)
Definition isSlugChar (c : ascii) : bool :=
  let n := code c in
  ((97 <=? n) && (n <=? 122)) || ((48 <=? n) && (n <=? 57)) || (n =? 45).

Definition isDigit (c : ascii) : bool :=
  let n := code c in (48 <=? n) && (n <=? 57).

(** [toLowerCase] on one code unit: A-Z, and the Latin-1 capitals
    U+00C0..U+00DE except the multiplication sign U+00D7. *)
Definition lowerChar (c : ascii) : ascii :=
  let n := code c in
  if ((65 <=? n) && (n <=? 90))
     || ((192 <=? n) && (n <=? 222) && negb (n =? 215))
  then ascii_of_N (n + 32) else c.

Fixpoint toLowerCase (s : string) : string :=
  match s with
  | EmptyString => EmptyString
  | String c s' => String (lowerChar c) (toLowerCase s')
  end.

(** [s.replace(/\s+/g, '-')]: every maximal run of white space becomes one
    hyphen.  [inRun] tells that the previous character was white space. *)
Fixpoint replaceWsRuns (inRun : bool) (s : string) : string :=
  match s with
  | EmptyString => EmptyString
  | String c s' =>
      if isWhiteSpace c
      then (if inRun then replaceWsRuns true s'
            else String "-" (replaceWsRuns true s'))
      else String c (replaceWsRuns false s')
  end.

(** [s.replace(/[^a-z0-9-]/g, '')]. *)
Fixpoint stripNonSlug (s : string) : string :=
  match s with
  | EmptyString => EmptyString
  | String c s' =>
      if isSlugChar c then String c (stripNonSlug s') else stripNonSlug s'
  end.

Fixpoint trimStart (s : string) : string :=
  match s with
  | EmptyString => EmptyString
  | String c s' => if isWhiteSpace c then trimStart s' else s
  end.

(** [trimEnd] keeps a character when it is not white space or when
    something survives after it. *)
Fixpoint trimEnd (s : string) : string :=
  match s with
  | EmptyString => EmptyString
  | String c s' =>
      match trimEnd s' with
      | EmptyString => if isWhiteSpace c then EmptyString else String c EmptyString
      | t => String c t
      end
  end.

Definition trim (s : string) : string := trimEnd (trimStart s).

(** Truthiness of a string: non-empty. *)
Definition truthy (s : string) : bool :=
  match s with EmptyString => false | _ => true end.

Definition startsWith (p s : string) : bool := String.prefix p s.

(** [s.substring(n)]. *)
Fixpoint substringFrom (n : nat) (s : string) : string :=
  match n, s with
  | O, _ => s
  | S n', String _ s' => substringFrom n' s'
  | S _, EmptyString => EmptyString
  end.

(** [s.includes(p)]. *)
Fixpoint includes (p s : string) : bool :=
  String.prefix p s
  || match s with
     | EmptyString => false
     | String _ s' => includes p s'
     end.

(** [s.split(sep)] for a one-character separator: never the empty list. *)
Fixpoint split (sep : ascii) (s : string) : list string :=
  match s with
  | EmptyString => [EmptyString]
  | String c s' =>
      if Ascii.eqb c sep then EmptyString :: split sep s'
      else match split sep s' with
           | h :: t => String c h :: t
           | [] => [String c EmptyString]
           end
  end.

(** [l.join(sep)]. *)
Fixpoint join (sep : string) (l : list string) : string :=
  match l with
  | [] => EmptyString
  | [x] => x
  | x :: rest => x +:+ sep +:+ join sep rest
  end.

(** The value of a run of leading decimal digits, and whether there was
    one. *)
Fixpoint digitsValue (acc : N) (seen : bool) (s : string) : option N :=
  match s with
  | String c s' =>
      if isDigit c then digitsValue (10 * acc + (code c - 48)) true s'
      else if seen then Some acc else None
  | EmptyString => if seen then Some acc else None
  end.

(** [parseInt(s, 10)]: leading white space, an optional sign, the longest
    run of digits; [None] is NaN.  Exact below 2^53. *)
Definition parseInt10 (s : string) : option Z :=
  match trimStart s with
  | String "-" t => option_map (fun n => (- Z.of_N n)%Z) (digitsValue 0 false t)
  | String "+" t => option_map Z.of_N (digitsValue 0 false t)
  | t => option_map Z.of_N (digitsValue 0 false t)
  end.

(** [x || 0] on a number. *)
Definition numOrZero (x : option Z) : Z :=
  match x with Some z => z | None => 0%Z end.

End Js.

(** ** Node's [path] module, POSIX flavour *)

Module NodePath.

Definition slash : ascii := "/"%char.

Definition isSlash (c : ascii) : bool := Ascii.eqb c slash.

Definition firstIsSlash (s : string) : bool :=
  match s with String c _ => isSlash c | EmptyString => false end.

Fixpoint lastIsSlash (s : string) : bool :=
  match s with
  | EmptyString => false
  | String c EmptyString => isSlash c
  | String _ s' => lastIsSlash s'
  end.

(** One segment of [normalizeString], on the stack of kept segments (top
    first): empty and [.] segments are dropped, [..] removes the segment
    before it, or is kept when there is none and the path is relative. *)
Definition normStep (allowAboveRoot : bool) (stack : list string) (seg : string)
  : list string :=
  if String.eqb seg "" || String.eqb seg "." then stack
  else if String.eqb seg ".." then
    match stack with
    | top :: rest =>
        if String.eqb top ".."
        then (if allowAboveRoot then seg :: stack else stack)
        else rest
    | [] => if allowAboveRoot then [seg] else []
    end
  else seg :: stack.

Definition normalizeSegments (allowAboveRoot : bool) (segs : list string)
  : list string :=
  rev (fold_left (normStep allowAboveRoot) segs []).

(** [path.normalize]. *)
Definition normalize (p : string) : string :=
  match p with
  | EmptyString => "."
  | _ =>
      let isAbsolute := firstIsSlash p in
      let trailing := lastIsSlash p in
      let body := Js.join "/" (normalizeSegments (negb isAbsolute) (Js.split slash p)) in
      match body with
      | EmptyString => if isAbsolute then "/" else if trailing then "./" else "."
      | _ =>
          (if isAbsolute then "/" else "") +:+ body +:+ (if trailing then "/" else "")
      end
  end.

(** [path.join(...parts)]: the non-empty parts joined by [/], normalised. *)
Definition join (parts : list string) : string :=
  match filter (fun s => Js.truthy s = true) parts with
  | [] => "."
  | kept => normalize (Js.join "/" kept)
  end.

Definition ofChars (l : list ascii) : string := string_of_list_ascii l.
Definition chars (s : string) : list ascii := list_ascii_of_string s.

Fixpoint dropWhileB {A} (f : A -> bool) (l : list A) : list A :=
  match l with
  | x :: l' => if f x then dropWhileB f l' else l
  | [] => []
  end.

(** [path.dirname]: scanning backwards from the last character down to
    index 1, skip the trailing slashes, skip the last segment, and cut at
    the slash before it. *)
Definition dirname (p : string) : string :=
  match p with
  | EmptyString => "."
  | String c0 rest =>
      let back := rev (chars rest) in
      match dropWhileB (fun c => negb (isSlash c)) (dropWhileB isSlash back) with
      | [] => if isSlash c0 then "/" else "."
      | _ :: before =>
          match before with
          | [] => if isSlash c0 then "//" else String c0 EmptyString
          | _ => String c0 (ofChars (rev before))
          end
      end
  end.

(** [path.basename]: the last non-empty segment, or the empty string. *)
Definition basename (p : string) : string :=
  match filter (fun s => Js.truthy s = true) (rev (Js.split slash p)) with
  | s :: _ => s
  | [] => ""
  end.

End NodePath.

(** ** External collaborators

    Every operation the engine delegates: the version-control command runner
    (simple-git), the file system, child processes, and the hosted
    code-review API.  A collaborator call either answers or throws. *)

Inductive call : Type :=
| GitWorktreeList (cwd : option string)
    (* git.raw(['worktree','list','--porcelain']) *)
| GitGetRemotes (cwd : string)
| GitShowRef (cwd ref : string)
    (* git.raw(['show-ref','--verify','--quiet',ref]) *)
| GitFetch (cwd remote : string)
| GitWorktreeAdd (cwd path branch base : string)
    (* git.raw(['worktree','add',path,'-b',branch,base]) *)
| GitWorktreeRemove (cwd path : string)
    (* git.raw(['worktree','remove',path,'--force']) *)
| GitStatus (cwd : string)
| GitRevparseAbbrevRef (cwd rev : string)
    (* git.revparse(['--abbrev-ref',rev]) *)
| GitRevListCount (cwd range : string)
    (* git.raw(['rev-list','--left-right','--count',range]) *)
| GitDeleteLocalBranch (cwd branch : string)
| GitGetConfig (key : string)
| GitBranch (cwd : string)
| GitLog (cwd from to : string)
| FsReadFile (path : string)
| FsAccess (path : string)
| FsReaddir (path : string)
| FsRmdir (path : string)
| FsMkdirRecursive (path : string)
| FsCopyFile (src dst : string)
| GlobEnvFiles (cwd : string)
    (* glob('.env*', {cwd, dot: true, maxDepth: 3, nodir: true}) *)
| Exec (cmd : string) (cwd : option string) (timeoutMs : N)
| OctokitPullsCreate (token owner repo title body head base : string) (draft : bool).

(** The response of the hosted API to a created pull request. *)
Record PullRequestResult := {
  pr_url : string;
  pr_number : N;
  pr_title : string
}.

(** What a call answers when it does not throw. *)
Definition reply (c : call) : Type :=
  match c with
  | GitWorktreeList _ => string
  | GitGetRemotes _ => list (string * string)   (* name, refs.fetch *)
  | GitShowRef _ _ => unit
  | GitFetch _ _ => unit
  | GitWorktreeAdd _ _ _ _ => unit
  | GitWorktreeRemove _ _ => unit
  | GitStatus _ => list string                  (* status.files *)
  | GitRevparseAbbrevRef _ _ => string
  | GitRevListCount _ _ => string
  | GitDeleteLocalBranch _ _ => unit
  | GitGetConfig _ => option string             (* .value, or null *)
  | GitBranch _ => list string                  (* .all *)
  | GitLog _ _ _ => list string                 (* commit messages *)
  | FsReadFile _ => string
  | FsAccess _ => unit
  | FsReaddir _ => list string
  | FsRmdir _ => unit
  | FsMkdirRecursive _ => unit
  | FsCopyFile _ _ => unit
  | GlobEnvFiles _ => list string
  | Exec _ _ _ => string                        (* stdout *)
  | OctokitPullsCreate _ _ _ _ _ _ _ _ => PullRequestResult
  end.

(** The errors an operation can end with: the ones the engine throws itself,
    and a collaborator's failure that nothing caught. *)
Inductive error : Type :=
| InvalidArgument (msg : string)
| IdentityUnresolved
| NotARepository
| NoTrunkFound
| NoOriginRemote
| NotAGitHubRemote
| AuthenticationRequired
| CannotCreateFromTrunk
| NoCommits
| InstallFailed (packageManager : string)
| CollaboratorFailed (c : call)
| FuelExhausted.

(** ** Programs over the collaborators *)

Inductive Prog (A : Type) : Type :=
| Ret (a : A)
| Throw (e : error)
| Do (c : call) (k : option (reply c) -> Prog A).

Arguments Ret {A} a.
Arguments Throw {A} e.
Arguments Do {A} c k.

Fixpoint bind {A B} (p : Prog A) (f : A -> Prog B) : Prog B :=
  match p with
  | Ret a => f a
  | Throw e => Throw e
  | Do c k => Do c (fun r => bind (k r) f)
  end.

#[export] Instance Prog_ret : MRet Prog := @Ret.
#[export] Instance Prog_bind : MBind Prog := fun A B f p => bind p f.

(** [await c]: the answer, or the collaborator's exception. *)
Definition await (c : call) : Prog (reply c) :=
  Do c (fun r => match r with
                 | Some x => Ret x
                 | None => Throw (CollaboratorFailed c)
                 end).

(** [try { p } catch { h }]. *)
Fixpoint tryCatch {A} (p : Prog A) (h : error -> Prog A) : Prog A :=
  match p with
  | Ret a => Ret a
  | Throw e => h e
  | Do c k => Do c (fun r => tryCatch (k r) h)
  end.

(** Running a program against a world: a handler answers each call and
    moves the world on.  The run yields the result, the final world, and the
    calls made with their answers, in order. *)
Definition handler (W : Type) : Type := forall c : call, W -> option (reply c) * W.

Inductive event : Type := Event (c : call) (r : option (reply c)).

Definition eventCall (e : event) : call := match e with Event c _ => c end.

Record Run (W A : Type) := MkRun {
  result : error + A;
  final : W;
  trace : list event
}.
Arguments MkRun {W A}.
Arguments result {W A}.
Arguments final {W A}.
Arguments trace {W A}.

Fixpoint run {W A} (h : handler W) (p : Prog A) (w : W) : Run W A :=
  match p with
  | Ret a => MkRun (inr a) w []
  | Throw e => MkRun (inl e) w []
  | Do c k =>
      let rest := run h (k (fst (h c w))) (snd (h c w)) in
      MkRun (result rest) (final rest) (Event c (fst (h c w)) :: trace rest)
  end.

(** The run of [p] followed by the run of its continuation. *)
Definition andThen {W A B} (r1 : Run W A) (k : A -> W -> Run W B) : Run W B :=
  match result r1 with
  | inl e => MkRun (inl e) (final r1) (trace r1)
  | inr a =>
      let r2 := k a (final r1) in
      MkRun (result r2) (final r2) (trace r1 ++ trace r2)
  end.

(** The run of [p] followed, when it threw, by the run of the handler. *)
Definition orCatch {W A} (r1 : Run W A) (k : error -> W -> Run W A) : Run W A :=
  match result r1 with
  | inl e =>
      let r2 := k e (final r1) in
      MkRun (result r2) (final r2) (trace r1 ++ trace r2)
  | inr a => MkRun (inr a) (final r1) (trace r1)
  end.

(** A weakest-precondition reading of programs: when every answer obeys
    [Q], the calls [p] makes (with their answers) and its result satisfy
    [Post]. *)
Fixpoint wp {A} (Q : forall c, option (reply c) -> Prop)
    (Post : list event -> error + A -> Prop) (p : Prog A) : Prop :=
  match p with
  | Ret a => Post [] (inr a)
  | Throw e => Post [] (inl e)
  | Do c k => forall r, Q c r -> wp Q (fun tr res => Post (Event c r :: tr) res) (k r)
  end.

(** Answers that are not constrained. *)
Definition anyAnswer : forall c, option (reply c) -> Prop := fun _ _ => True.

(** Whatever the answers, every call [p] makes satisfies [P] and every error
    it ends with satisfies [G]. *)
Definition confined {A} (P : call -> Prop) (G : error -> Prop) (p : Prog A) : Prop :=
  wp anyAnswer
     (fun tr res =>
        Forall (fun e => P (eventCall e)) tr
        /\ match res with inl e => G e | inr _ => True end) p.

(** A world obeys [Q] when all its answers do, in every state. *)
Definition obeys {W} (h : handler W) (Q : forall c, option (reply c) -> Prop) : Prop :=
  forall c w, Q c (fst (h c w)).

Definition isNetworkCall (c : call) : bool :=
  match c with OctokitPullsCreate _ _ _ _ _ _ _ _ => true | _ => false end.

Definition LF : string := String "010" EmptyString.
Definition TAB : string := String "009" EmptyString.

(** ** src/utils/username.ts *)

Inductive UsernameSource := manual_config | github_cli | git_config.

Record UsernameResult := {
  username : string;
  source : UsernameSource
}.

(** The longest prefix without a line terminator: what [(.+)] captures. *)
Fixpoint untilLineTerminator (s : string) : string :=
  match s with
  | EmptyString => EmptyString
  | String c s' =>
      if Js.isLineTerminator c then EmptyString
      else String c (untilLineTerminator s')
  end.

(** [/USERNAME=(.+)/] tried at the start of [config]. *)
Definition matchUsernameHere (config : string) : option string :=
  if Js.startsWith "USERNAME=" config
  then match untilLineTerminator (Js.substringFrom 9 config) with
       | EmptyString => None
       | v => Some v
       end
  else None.

(** [config.match(/USERNAME=(.+)/)]: capture group 1 of the leftmost match. *)
Fixpoint matchUsernameAssignment (config : string) : option string :=
  match matchUsernameHere config with
  | Some v => Some v
  | None =>
      match config with
      | EmptyString => None
      | String _ rest => matchUsernameAssignment rest
      end
  end.

(** Convert a display name to username format. *)
Definition normalizeUsername (name : string) : string :=
  Js.stripNonSlug (Js.replaceWsRuns false (Js.toLowerCase name)).

(** The three [try] blocks of [detectUsername]; each one returns from the
    function ([Some]) or falls through to the next ([None]). *)

(* 1. Check for manual override from config file *)
Definition detectUsername_override (configPath : option string)
  : Prog (option UsernameResult) :=
  match configPath with
  | Some p =>
      if Js.truthy p then
        tryCatch
          (config ← await (FsReadFile p);
           match matchUsernameAssignment config with
           | Some m =>
               if Js.truthy m
               then mret (Some {| username := Js.trim m; source := manual_config |})
               else mret None
           | None => mret None
           end)
          (fun _ => mret None)
      else mret None
  | None => mret None
  end.

(* 2. Try GitHub CLI *)
Definition detectUsername_githubCli : Prog (option UsernameResult) :=
  tryCatch
    (stdout ← await (Exec "gh api user --jq .login" None 5000);
     let username := Js.trim stdout in
     if Js.truthy username
     then mret (Some {| username := username; source := github_cli |})
     else mret None)
    (fun _ => mret None).

(* 3. Fallback to git config user.name *)
Definition detectUsername_gitConfig : Prog (option UsernameResult) :=
  tryCatch
    (gitName ← await (GitGetConfig "user.name");
     match gitName with
     | Some value =>
         if Js.truthy value then
           let username :=
             Js.stripNonSlug (Js.replaceWsRuns false (Js.toLowerCase value)) in
           if Js.truthy username
           then mret (Some {| username := username; source := git_config |})
           else mret None
         else mret None
     | None => mret None
     end)
    (fun _ => mret None).

Definition detectUsername (configPath : option string) : Prog UsernameResult :=
  r1 ← detectUsername_override configPath;
  match r1 with
  | Some u => mret u
  | None =>
      r2 ← detectUsername_githubCli;
      match r2 with
      | Some u => mret u
      | None =>
          r3 ← detectUsername_gitConfig;
          match r3 with
          | Some u => mret u
          | None => Throw IdentityUnresolved
          end
      end
  end.

(** The resolver as the specification words it: each source is a function
    of what its collaborator answered ([None]: the collaborator failed), the
    sources are taken strictly in order, the first success wins, and the
    resolution fails with [IdentityUnresolved] when every one produces
    nothing. *)
Definition fromOverrideFile (answer : option string) : option UsernameResult :=
  match answer with
  | Some content =>
      match matchUsernameAssignment content with
      | Some value => Some {| username := Js.trim value; source := manual_config |}
      | None => None
      end
  | None => None
  end.

Definition fromHostedLogin (answer : option string) : option UsernameResult :=
  match answer with
  | Some stdout =>
      if Js.truthy (Js.trim stdout)
      then Some {| username := Js.trim stdout; source := github_cli |}
      else None
  | None => None
  end.

Definition fromLocalConfig (answer : option (option string)) : option UsernameResult :=
  match answer with
  | Some (Some name) =>
      if Js.truthy (normalizeUsername name)
      then Some {| username := normalizeUsername name; source := git_config |}
      else None
  | _ => None
  end.

Definition resolveIdentity_spec (sources : list (option UsernameResult))
  : error + UsernameResult :=
  match List.find (fun o => bool_decide (is_Some o)) sources with
  | Some (Some u) => inr u
  | _ => inl IdentityUnresolved
  end.

(** ** src/utils/git.ts *)

(** [Partial<WorktreeInfo>]: the parser builds its records field by field
    and pushes them uncast, so every field may be absent. *)
Record WorktreeInfo := {
  wt_path : option string;
  wt_branch : option string;
  wt_head : option string;
  wt_isMain : option bool
}.

Record WorktreeStatus := {
  clean : bool;
  ahead : Z;
  behind : Z;
  uncommitted : bool
}.

Definition emptyWorktree : WorktreeInfo :=
  {| wt_path := None; wt_branch := None; wt_head := None; wt_isMain := None |}.

Definition truthyOpt (o : option string) : bool :=
  match o with Some s => Js.truthy s | None => false end.

Definition truthyFlag (o : option bool) : bool :=
  match o with Some b => b | None => false end.

(** Get the main repository root (not a worktree) *)
Definition getMainRepoRoot (cwd : option string) : Prog string :=
  worktrees ← await (GitWorktreeList cwd);
  let lines := Js.split "010" worktrees in
  (* First worktree is always the main repo *)
  match List.find (Js.startsWith "worktree ") lines with
  | Some line => mret (Js.substringFrom 9 line)
  | None => Throw NotARepository
  end.

(** [url.match(/\/([^/]+?)(\.git)?$/)], group 1: the text after the last
    slash, which must not be empty, without a final [.git] when something
    precedes it. *)
Definition stripDotGit (t : string) : string :=
  let n := String.length t in
  if (4 <? N.of_nat n) && String.eqb (Js.substringFrom (n - 4) t) ".git"
  then String.substring 0 (n - 4) t
  else t.

Definition matchRepoNameInUrl (url : string) : option string :=
  match rev (Js.split NodePath.slash url) with
  | t :: _ :: _ => if Js.truthy t then Some (stripDotGit t) else None
  | _ => None
  end.

(** Get repository name from remote URL or directory name *)
Definition getRepoName (repoPath : string) : Prog string :=
  let fallback := mret (Js.toLowerCase (NodePath.basename repoPath)) in
  Do (GitGetRemotes repoPath) (fun r =>
    match r with
    | Some remotes =>
        match List.find (fun rm => String.eqb (fst rm) "origin") remotes with
        | Some originRemote =>
            if Js.truthy (snd originRemote) then
              match matchRepoNameInUrl (snd originRemote) with
              | Some m =>
                  if Js.truthy m then mret (Js.toLowerCase m) else fallback
              | None => fallback
              end
            else fallback
        | None => fallback
        end
    | None => fallback     (* No remote or error fetching *)
    end).

(** One line of the porcelain enumeration.  A record that is pushed is
    replaced by a fresh object in the same step, so no pushed record is
    written to again. *)
Definition listWorktrees_line (st : list WorktreeInfo * WorktreeInfo) (line : string)
  : list WorktreeInfo * WorktreeInfo :=
  let '(result, currentWorktree) := st in
  if Js.startsWith "worktree " line then
    (if truthyOpt (wt_path currentWorktree)
     then result ++ [currentWorktree] else result,
     {| wt_path := Some (Js.substringFrom 9 line);
        wt_branch := None; wt_head := None;
        wt_isMain := Some false |})
  else if Js.startsWith "HEAD " line then
    (result,
     {| wt_path := wt_path currentWorktree;
        wt_branch := wt_branch currentWorktree;
        wt_head := Some (Js.substringFrom 5 line);
        wt_isMain := wt_isMain currentWorktree |})
  else if Js.startsWith "branch " line then
    (result,
     {| wt_path := wt_path currentWorktree;
        wt_branch := Some (Js.substringFrom 18 line);
        wt_head := wt_head currentWorktree;
        wt_isMain := wt_isMain currentWorktree |})
  else if String.eqb line "" then
    (if truthyOpt (wt_path currentWorktree)
     then (result ++ [currentWorktree], emptyWorktree)
     else (result, currentWorktree))
  else (result, currentWorktree).

(* Mark the main repo *)
Definition markMain (result : list WorktreeInfo) : list WorktreeInfo :=
  match result with
  | [] => []
  | first :: rest =>
      {| wt_path := wt_path first; wt_branch := wt_branch first;
         wt_head := wt_head first; wt_isMain := Some true |} :: rest
  end.

Definition parseWorktreeList (worktrees : string) : list WorktreeInfo :=
  let lines := Js.split "010" worktrees in
  markMain (fst (fold_left listWorktrees_line lines ([], emptyWorktree))).

(** List all worktrees *)
Definition listWorktrees (repoPath : string) : Prog (list WorktreeInfo) :=
  worktrees ← await (GitWorktreeList (Some repoPath));
  mret (parseWorktreeList worktrees).

(** Auto-detect the default branch (main or master) *)
Definition getDefaultBranch (repoPath : string) : Prog string :=
  Do (GitShowRef repoPath "refs/remotes/origin/main") (fun r =>
    match r with
    | Some _ => mret "origin/main"
    | None =>
        Do (GitShowRef repoPath "refs/remotes/origin/master") (fun r' =>
          match r' with
          | Some _ => mret "origin/master"
          | None => Throw NoTrunkFound
          end)
    end).

(** Create a new worktree *)
Definition createWorktree (repoPath worktreePath branchName : string)
    (baseBranch : option string) : Prog unit :=
  (* Fetch latest changes *)
  _ ← await (GitFetch repoPath "origin");
  (* Auto-detect default branch if not provided *)
  branch ← (if truthyOpt baseBranch
            then mret (default "" baseBranch)
            else getDefaultBranch repoPath);
  await (GitWorktreeAdd repoPath worktreePath branchName branch).

(** Remove a worktree *)
Definition removeWorktree (repoPath worktreePath : string) : Prog unit :=
  await (GitWorktreeRemove repoPath worktreePath).

(** The two counts of [rev-list --left-right --count]: (behind, ahead). *)
Definition parseAheadBehind (aheadBehind : string) : Z * Z :=
  match Js.split "009" (Js.trim aheadBehind) with
  | [p0; p1] =>
      (Js.numOrZero (Js.parseInt10 p0), Js.numOrZero (Js.parseInt10 p1))
  | _ => (0%Z, 0%Z)
  end.

(** Get worktree status *)
Definition getWorktreeStatus (worktreePath : string) : Prog WorktreeStatus :=
  (* Check if clean *)
  files ← await (GitStatus worktreePath);
  let clean := Nat.eqb (length files) 0 in
  (* Get ahead/behind info *)
  counts ← tryCatch
    (branch ← await (GitRevparseAbbrevRef worktreePath "HEAD");
     tracking ← await (GitRevparseAbbrevRef worktreePath (branch +:+ "@{upstream}"));
     aheadBehind ← await (GitRevListCount worktreePath (tracking +:+ "..." +:+ branch));
     mret (parseAheadBehind aheadBehind))
    (fun _ => mret (0%Z, 0%Z));     (* No tracking branch or error *)
  mret {| clean := clean;
          ahead := snd counts;
          behind := fst counts;
          uncommitted := negb clean |}.

(** Delete a branch *)
Definition deleteBranch (repoPath branchName : string) : Prog unit :=
  await (GitDeleteLocalBranch repoPath branchName).

(** Detect package manager from lock files *)
Definition detectPackageManager (worktreePath : string) : Prog (option string) :=
  Do (FsAccess (NodePath.join [worktreePath; "pnpm-lock.yaml"])) (fun r1 =>
    match r1 with
    | Some _ => mret (Some "pnpm")
    | None =>
      Do (FsAccess (NodePath.join [worktreePath; "package-lock.json"])) (fun r2 =>
        match r2 with
        | Some _ => mret (Some "npm")
        | None =>
          Do (FsAccess (NodePath.join [worktreePath; "yarn.lock"])) (fun r3 =>
            match r3 with
            | Some _ => mret (Some "yarn")
            | None => mret None
            end)
        end)
    end).

(** Install dependencies using detected package manager *)
Definition installDependencies (worktreePath : string)
  : Prog (bool * option string) :=
  packageManager ← detectPackageManager worktreePath;
  match packageManager with
  | None => mret (false, None)
  | Some pm =>
      if Js.truthy pm then
        Do (Exec (pm +:+ " install") (Some worktreePath) 300000) (fun r =>
          match r with
          | Some _ => mret (true, Some pm)
          | None => Throw (InstallFailed pm)
          end)
      else mret (false, None)
  end.

(** The copy loop of [copyEnvFiles]. *)
Fixpoint copyEnvFiles_loop (mainRepoPath worktreePath : string)
    (envFiles : list string) (copiedCount : N) : Prog N :=
  match envFiles with
  | [] => mret copiedCount
  | envFile :: rest =>
      let sourcePath := NodePath.join [mainRepoPath; envFile] in
      let targetPath := NodePath.join [worktreePath; envFile] in
      (* Create target directory if needed *)
      _ ← await (FsMkdirRecursive (NodePath.dirname targetPath));
      (* Copy file *)
      _ ← await (FsCopyFile sourcePath targetPath);
      copyEnvFiles_loop mainRepoPath worktreePath rest (copiedCount + 1)
  end.

(** Find and copy .env files from main repo to worktree *)
Definition copyEnvFiles (mainRepoPath worktreePath : string) : Prog N :=
  envFiles ← await (GlobEnvFiles mainRepoPath);
  copyEnvFiles_loop mainRepoPath worktreePath envFiles 0.

(** ** src/utils/github.ts *)

(** [process.env], as far as the engine reads it. *)
Record ProcessEnv := {
  HOME : option string;
  GITHUB_TOKEN : option string
}.

Fixpoint takeWhileS (f : ascii -> bool) (s : string) : string :=
  match s with
  | EmptyString => EmptyString
  | String c s' => if f c then String c (takeWhileS f s') else EmptyString
  end.

(** After [github.com]: [[:/]([^/]+)\/([^/.]+)(\.git)?$]. *)
Definition matchOwnerRepo (rest : string) : option (string * string) :=
  match rest with
  | String c r =>
      if Ascii.eqb c ":" || Ascii.eqb c "/" then
        let owner := takeWhileS (fun x => negb (NodePath.isSlash x)) r in
        match owner, Js.substringFrom (String.length owner) r with
        | String _ _, String c1 r2 =>
            let repo :=
              takeWhileS (fun x => negb (NodePath.isSlash x || Ascii.eqb x ".")) r2 in
            let tail := Js.substringFrom (String.length repo) r2 in
            if NodePath.isSlash c1 && Js.truthy repo
               && (String.eqb tail "" || String.eqb tail ".git")
            then Some (owner, repo) else None
        | _, _ => None
        end
      else None
  | EmptyString => None
  end.

(** [url.match(/github\.com[:/]([^/]+)\/([^/.]+)(\.git)?$/)], groups 1, 2. *)
Fixpoint matchGitHubUrl (url : string) : option (string * string) :=
  let here :=
    if Js.startsWith "github.com" url
    then matchOwnerRepo (Js.substringFrom 10 url) else None in
  match here with
  | Some m => Some m
  | None =>
      match url with
      | EmptyString => None
      | String _ rest => matchGitHubUrl rest
      end
  end.

(** Extract owner and repo from git remote URL *)
Definition getGitHubRepoInfo (repoPath : string) : Prog (string * string) :=
  remotes ← await (GitGetRemotes repoPath);
  match List.find (fun rm => String.eqb (fst rm) "origin") remotes with
  | Some origin =>
      if Js.truthy (snd origin) then
        match matchGitHubUrl (snd origin) with
        | Some m => mret m
        | None => Throw NotAGitHubRemote
        end
      else Throw NoOriginRemote
  | None => Throw NoOriginRemote
  end.

(** Get GitHub token from environment or gh CLI *)
Definition getGitHubToken (env : ProcessEnv) : Prog string :=
  (* Try environment variable first *)
  if truthyOpt (GITHUB_TOKEN env) then mret (default "" (GITHUB_TOKEN env))
  else
    (* Try gh CLI *)
    Do (Exec "gh auth token" None 5000) (fun r =>
      match r with
      | Some stdout =>
          let token := Js.trim stdout in
          if Js.truthy token then mret token else Throw AuthenticationRequired
      | None => Throw AuthenticationRequired
      end).

(** Create a pull request *)
Definition createPullRequest (env : ProcessEnv) (repoPath title : string)
    (body : option string) (draft : bool) : Prog PullRequestResult :=
  (* Get current branch *)
  branch ← await (GitRevparseAbbrevRef repoPath "HEAD");
  if String.eqb branch "master" || String.eqb branch "main"
  then Throw CannotCreateFromTrunk
  else
    (* Get base branch (usually master or main) *)
    branches ← await (GitBranch repoPath);
    let baseBranch :=
      if existsb (String.eqb "master") branches then "master" else "main" in
    (* Get GitHub token and repo info *)
    token ← getGitHubToken env;
    info ← getGitHubRepoInfo repoPath;
    (* Create PR *)
    await (OctokitPullsCreate token (fst info) (snd info) title
             (if truthyOpt body then default "" body else "")
             branch baseBranch draft).

(** Get commit messages since branching from base *)
Definition getCommitsSinceBase (repoPath baseBranch : string) : Prog (list string) :=
  currentBranch ← await (GitRevparseAbbrevRef repoPath "HEAD");
  await (GitLog repoPath ("origin/" +:+ baseBranch) currentBranch).

Definition firstLine (msg : string) : string :=
  match Js.split "010" msg with
  | l :: _ => l
  | [] => ""
  end.

(** Generate PR title and body from commits *)
Definition generatePRContent (repoPath : string) : Prog (string * string) :=
  commits ← getCommitsSinceBase repoPath "master";
  match commits with
  | [] => Throw NoCommits
  | c0 :: _ =>
      (* Use first commit as title *)
      let title := firstLine c0 in
      (* Generate body with all commit messages *)
      let body :=
        if (1 <? length commits)%nat
        then "## Commits" +:+ LF +:+ LF +:+
             Js.join LF (map (fun msg => "- " +:+ firstLine msg) commits)
        else "" in
      mret (title, body)
  end.

(** ** The tool entry points *)

(** *** create_pr *)

Record CreatePRArgs := {
  pr_worktreePath : string;
  pr_argTitle : option string;
  pr_argBody : option string;
  pr_draft : option bool
}.

Record CreatePRResult := {
  cpr_result : PullRequestResult;
  cpr_worktreePath : string
}.

(** Create a GitHub pull request from the current worktree *)
Definition createPRTool (env : ProcessEnv) (args : CreatePRArgs) : Prog CreatePRResult :=
  let worktreePath := pr_worktreePath args in
  let draft := default false (pr_draft args) in
  let prTitle := pr_argTitle args in
  let prBody := pr_argBody args in
  (* If title/body not provided, generate from commits *)
  content ← (if negb (truthyOpt prTitle) || negb (truthyOpt prBody) then
               generated ← generatePRContent worktreePath;
               mret (if truthyOpt prTitle then default "" prTitle else fst generated,
                     if truthyOpt prBody then default "" prBody else snd generated)
             else mret (default "" prTitle, default "" prBody));
  (* Create the PR *)
  result ← createPullRequest env worktreePath (fst content) (Some (snd content)) draft;
  mret {| cpr_result := result; cpr_worktreePath := worktreePath |}.

(** *** create_worktree *)

Inductive IdeHint := cursor | vscode | auto.

Record CreateWorktreeArgs := {
  ticket : string;
  branchName : string;
  cw_cwd : option string;
  openIde : option IdeHint
}.

Record CreateWorktreeResult := {
  worktreePath : string;
  branchFullName : string;
  cw_username : string;
  usernameSource : UsernameSource;
  repoName : string;
  dependenciesInstalled : bool;
  packageManager : option string;
  envFilesCopied : N
}.

(** Normalize branch name (lowercase, spaces to hyphens) *)
Definition normalizeBranchName (branchName : string) : string :=
  Js.stripNonSlug (Js.replaceWsRuns false (Js.toLowerCase branchName)).

(** Construct full branch name: username/TICKET/branch-name *)
Definition fullBranchNameOf (username ticket normalizedBranchName : string) : string :=
  username +:+ "/" +:+ ticket +:+ "/" +:+ normalizedBranchName.

(** Construct worktree path *)
Definition worktreePathOf
    (mainRepoRoot repoName username ticket normalizedBranchName : string) : string :=
  let worktreesDir := NodePath.join [mainRepoRoot; ".."; repoName +:+ "-worktrees"] in
  NodePath.join [worktreesDir; username; ticket; normalizedBranchName].

(** Create a new git worktree with automatic setup *)
Definition createWorktreeTool (args : CreateWorktreeArgs) : Prog CreateWorktreeResult :=
  (* Validate inputs *)
  if negb (Js.truthy (ticket args)) || negb (Js.truthy (Js.trim (ticket args)))
  then Throw (InvalidArgument "Ticket number is required")
  else if negb (Js.truthy (branchName args))
          || negb (Js.truthy (Js.trim (branchName args)))
  then Throw (InvalidArgument "Branch name is required")
  else
    (* Get main repository root *)
    mainRepoRoot ← getMainRepoRoot (cw_cwd args);
    (* Detect username *)
    usernameResult ←
      detectUsername (Some (NodePath.join [mainRepoRoot; ".worktree-config"]));
    (* Get repository name *)
    repoName ← getRepoName mainRepoRoot;
    let normalizedBranchName := normalizeBranchName (branchName args) in
    let fullBranchName :=
      fullBranchNameOf (username usernameResult) (ticket args) normalizedBranchName in
    let worktreePath :=
      worktreePathOf mainRepoRoot repoName (username usernameResult)
        (ticket args) normalizedBranchName in
    (* Create the worktree *)
    _ ← createWorktree mainRepoRoot worktreePath fullBranchName (Some "origin/master");
    (* Install dependencies *)
    deps ← tryCatch (installDependencies worktreePath)
                    (fun _ => mret (false, None));
    (* Copy .env files *)
    envFilesCopied ← tryCatch (copyEnvFiles mainRepoRoot worktreePath)
                              (fun _ => mret 0);
    mret {| worktreePath := worktreePath;
            branchFullName := fullBranchName;
            cw_username := username usernameResult;
            usernameSource := source usernameResult;
            repoName := repoName;
            dependenciesInstalled := fst deps;
            packageManager := snd deps;
            envFilesCopied := envFilesCopied |}.

(** *** list_worktrees *)

Record WorktreeListItem := {
  item : WorktreeInfo;
  status : option WorktreeStatus
}.

Record ListWorktreesResult := {
  worktrees : list WorktreeListItem;
  mainRepoPath : string
}.

(** [Promise.all(l.map(f))], the promises taken in list order. *)
Fixpoint mapProg {A B} (f : A -> Prog B) (l : list A) : Prog (list B) :=
  match l with
  | [] => mret []
  | x :: rest =>
      y ← f x;
      ys ← mapProg f rest;
      mret (y :: ys)
  end.

(** Get status for each worktree (except main repo).  Every enumerated
    record has a path ([parseWorktreeList_shape]). *)
Definition withStatus (worktree : WorktreeInfo) : Prog WorktreeListItem :=
  if truthyFlag (wt_isMain worktree)
  then mret {| item := worktree; status := None |}
  else
    tryCatch
      (st ← getWorktreeStatus (default "" (wt_path worktree));
       mret {| item := worktree; status := Some st |})
      (* If we can't get status, return without it *)
      (fun _ => mret {| item := worktree; status := None |}).

(** List all git worktrees with their status *)
Definition listWorktreesTool (cwd : option string) : Prog ListWorktreesResult :=
  (* Get main repository root *)
  mainRepoPath ← getMainRepoRoot cwd;
  (* List all worktrees *)
  worktrees ← listWorktrees mainRepoPath;
  worktreesWithStatus ← mapProg withStatus worktrees;
  (* Filter out the main repo from the list *)
  let filteredWorktrees :=
    List.filter (fun w => negb (truthyFlag (wt_isMain (item w)))) worktreesWithStatus in
  mret {| worktrees := filteredWorktrees; mainRepoPath := mainRepoPath |}.

(** *** cleanup_worktree *)

Record CleanupWorktreeArgs := {
  cl_worktreePath : string;
  cl_deleteBranch : option bool;
  cl_cwd : option string
}.

Record CleanupWorktreeResult := {
  removed : bool;
  cl_resultPath : string;
  cl_branchName : option string;
  branchDeleted : bool;
  directoriesRemoved : list string
}.

(** The condition of the pruning loop. *)
Definition pruneGuard (env : ProcessEnv) (currentDir : string) : bool :=
  negb (String.eqb currentDir "/")
  && negb (match HOME env with
           | Some home => String.eqb currentDir home
           | None => false
           end)
  && Js.includes "-worktrees" currentDir.

(** Walk up the directory tree and remove empty directories.  [fuel] bounds
    the number of iterations; the length of [currentDir] is always enough,
    as inside the guard [dirname] shortens the path
    ([guard_dirname_shorter]). *)
Fixpoint pruneLoop (env : ProcessEnv) (fuel : nat) (currentDir : string)
    (directoriesRemoved : list string) : Prog (list string) :=
  if pruneGuard env currentDir then
    match fuel with
    | O => Throw FuelExhausted
    | S fuel' =>
        Do (FsReaddir currentDir) (fun r =>
          match r with
          | Some entries =>
              if Nat.eqb (length entries) 0 then
                Do (FsRmdir currentDir) (fun r' =>
                  match r' with
                  | Some _ =>
                      pruneLoop env fuel' (NodePath.dirname currentDir)
                        (directoriesRemoved ++ [currentDir])
                  | None => mret directoriesRemoved
                  end)
              else mret directoriesRemoved   (* Directory not empty, stop walking up *)
          | None => mret directoriesRemoved  (* Directory doesn't exist, stop *)
          end)
    end
  else mret directoriesRemoved.

(** Remove a worktree and optionally delete its branch *)
Definition cleanupWorktreeTool (env : ProcessEnv) (args : CleanupWorktreeArgs)
  : Prog CleanupWorktreeResult :=
  let worktreePath := cl_worktreePath args in
  let shouldDeleteBranch := default false (cl_deleteBranch args) in
  (* Get main repository root *)
  mainRepoPath ← getMainRepoRoot (cl_cwd args);
  (* Get branch name before removing worktree *)
  branchName ← tryCatch
    (b ← await (GitRevparseAbbrevRef worktreePath "HEAD"); mret (Some b))
    (fun _ => mret None);
  (* Remove the worktree *)
  _ ← removeWorktree mainRepoPath worktreePath;
  (* Delete branch if requested *)
  branchDeleted ←
    (if shouldDeleteBranch && truthyOpt branchName then
       tryCatch
         (_ ← deleteBranch mainRepoPath (default "" branchName); mret true)
         (fun _ => mret false)
     else mret false);
  (* Clean up empty parent directories *)
  let currentDir := NodePath.dirname worktreePath in
  directoriesRemoved ←
    pruneLoop env (String.length currentDir) currentDir [];
  mret {| removed := true;
          cl_resultPath := worktreePath;
          cl_branchName := branchName;
          branchDeleted := branchDeleted;
          directoriesRemoved := directoriesRemoved |}.

(** ** Scripted worlds

    A world without state: each call is answered by a fixed script.  The
    default script lets every collaborator fail. *)

Definition script : Type := forall c : call, option (reply c).

Definition scripted (s : script) : handler unit := fun c w => (s c, w).

(** An identity set-up: the override file's content, the hosted login probe
    and the local display name. *)
Definition identityScript (files : list (string * string))
    (login : option string) (displayName : option (option string)) : script :=
  fun c =>
    match c as c0 return option (reply c0) with
    | FsReadFile p =>
        option_map snd (List.find (fun f => String.eqb (fst f) p) files)
    | Exec cmd _ _ =>
        if String.eqb cmd "gh api user --jq .login" then login else None
    | GitGetConfig key =>
        if String.eqb key "user.name" then displayName else None
    | _ => None
    end.

(** What the override file answers in a run: it is read only when a
    non-empty path is given. *)
Definition overrideAnswer {W} (h : handler W) (configPath : option string) (w : W)
  : option string * W :=
  match configPath with
  | Some p => if Js.truthy p then h (FsReadFile p) w else (None, w)
  | None => (None, w)
  end.

Definition ghLoginProbe : call := Exec "gh api user --jq .login" None 5000.
Definition gitUserName : call := GitGetConfig "user.name".

(** Two identity set-ups used as concrete inputs: an override file next to a
    working hosted login, and an override file whose value is blank. *)
Definition overrideAndLogin : script :=
  identityScript [("/repo/.worktree-config", "USERNAME= alice ")]
    (Some ("bob" +:+ LF)) (Some (Some "Carol C")).

Definition blankOverride : script :=
  identityScript [("/repo/.worktree-config", "USERNAME=   ")]
    None (Some (Some "!!!")).

(** ** Well-formed enumerations

    What [git worktree list --porcelain] prints: for each worktree, the main
    checkout first, its path, its HEAD commit, its branch (or [detached]),
    and an empty line. *)
Record PorcelainEntry := {
  pe_path : string;
  pe_head : string;
  pe_branch : option string
}.

Definition renderEntry (e : PorcelainEntry) : string :=
  "worktree " +:+ pe_path e +:+ LF +:+
  "HEAD " +:+ pe_head e +:+ LF +:+
  match pe_branch e with
  | Some b => "branch refs/heads/" +:+ b
  | None => "detached"
  end +:+ LF +:+ LF.

Fixpoint renderPorcelain (entries : list PorcelainEntry) : string :=
  match entries with
  | [] => ""
  | e :: rest => renderEntry e +:+ renderPorcelain rest
  end.

Fixpoint hasNewline (s : string) : bool :=
  match s with
  | EmptyString => false
  | String c s' => Ascii.eqb c "010" || hasNewline s'
  end.

Definition wellFormedEntry (e : PorcelainEntry) : Prop :=
  Js.truthy (pe_path e) = true
  /\ hasNewline (pe_path e) = false
  /\ hasNewline (pe_head e) = false
  /\ hasNewline (default "" (pe_branch e)) = false.

(** The record of an entry, before the main checkout is marked. *)
Definition recordOf (e : PorcelainEntry) : WorktreeInfo :=
  {| wt_path := Some (pe_path e);
     wt_branch := pe_branch e;
     wt_head := Some (pe_head e);
     wt_isMain := Some false |}.

(** The enumeration of a repository with the main checkout and one
    auxiliary worktree; in the world [twoWorktrees] every other collaborator
    fails, so the status of the worktree cannot be computed. *)
Definition twoWorktreesText : string :=
  renderPorcelain
    [ {| pe_path := "/repos/acme";
         pe_head := "1111111";
         pe_branch := Some "main" |};
      {| pe_path := "/repos/acme-worktrees/alice/CO-100/billing-feature";
         pe_head := "2222222";
         pe_branch := Some "alice/CO-100/billing-feature" |} ].

Definition twoWorktrees : script :=
  fun c =>
    match c as c0 return option (reply c0) with
    | GitWorktreeList _ => Some twoWorktreesText
    | _ => None
    end.

(** The path on the first [worktree] line of an enumeration: what
    [getMainRepoRoot] returns. *)
Definition mainRootOf (worktrees : string) : option string :=
  option_map (Js.substringFrom 9)
    (List.find (Js.startsWith "worktree ") (Js.split "010" worktrees)).

(** ** The version-control tool's count of a symmetric difference

    [git rev-list --left-right --count A...B] prints the number of commits
    reachable from [A] only, a TAB, the number reachable from [B] only, and a
    newline, both in decimal.  A commit set is the set of commits reachable
    from a ref. *)
Definition showN (n : N) : string := NilEmpty.string_of_uint (N.to_uint n).

Definition revListCount (left right : gset string) : string :=
  showN (N.of_nat (size (left ∖ right))) +:+ TAB +:+
  showN (N.of_nat (size (right ∖ left))) +:+ LF.

(** A worktree on branch [feature] tracking [origin/feature]: the upstream
    has one commit of its own, the branch two. *)
Definition divergedUpstream : gset string := {[ "c1"; "c2"; "u1" ]}.
Definition divergedHead : gset string := {[ "c1"; "c2"; "h1"; "h2" ]}.

Definition divergedWorktree : script :=
  fun c =>
    match c as c0 return option (reply c0) with
    | GitStatus _ => Some []
    | GitRevparseAbbrevRef _ rev =>
        if String.eqb rev "HEAD" then Some "feature"
        else if String.eqb rev "feature@{upstream}" then Some "origin/feature"
        else None
    | GitRevListCount _ range =>
        if String.eqb range "origin/feature...feature"
        then Some (revListCount divergedUpstream divergedHead) else None
    | _ => None
    end.

(** ** Observing the pruning walk in a trace *)

(** The directory an [rmdir] call is made on. *)
Definition rmdirCall (e : event) : option string :=
  match eventCall e with FsRmdir d => Some d | _ => None end.

(** The directory an [rmdir] call removed: the call answered. *)
Definition removedDir (e : event) : option string :=
  match e with
  | Event c r =>
      match c as c0 return option (reply c0) -> option string with
      | FsRmdir d => fun r => match r with Some _ => Some d | None => None end
      | _ => fun _ => None
      end r
  end.

(** The directory a [readdir] call found empty. *)
Definition readEmpty (e : event) : option string :=
  match e with
  | Event c r =>
      match c as c0 return option (reply c0) -> option string with
      | FsReaddir d => fun r => match r with Some [] => Some d | _ => None end
      | _ => fun _ => None
      end r
  end.

(** A [readdir] call that found entries. *)
Definition readNonEmpty (e : event) : bool :=
  match e with
  | Event c r =>
      match c as c0 return option (reply c0) -> bool with
      | FsReaddir d => fun r => match r with Some (_ :: _) => true | _ => false end
      | _ => fun _ => false
      end r
  end.

Definition isDirCall (c : call) : bool :=
  match c with FsReaddir _ | FsRmdir _ => true | _ => false end.

(** The walk as the specification words it: starting at [d], a directory is
    removed only inside the guard and only after it was read empty; the walk
    goes on with the parent after a removal and stops otherwise.  The second
    index lists the calls made, the third the directories removed. *)
Inductive pruneWalk (env : ProcessEnv) : string -> list event -> list string -> Prop :=
| walk_outside d :
    pruneGuard env d = false ->
    pruneWalk env d [] []
| walk_unreadable d :
    pruneGuard env d = true ->
    pruneWalk env d [Event (FsReaddir d) None] []
| walk_nonempty d entry entries :
    pruneGuard env d = true ->
    pruneWalk env d [Event (FsReaddir d) (Some (entry :: entries))] []
| walk_not_removed d :
    pruneGuard env d = true ->
    pruneWalk env d [Event (FsReaddir d) (Some []); Event (FsRmdir d) None] []
| walk_removed d tr ds :
    pruneGuard env d = true ->
    pruneWalk env (NodePath.dirname d) tr ds ->
    pruneWalk env d
      (Event (FsReaddir d) (Some []) :: Event (FsRmdir d) (Some tt) :: tr)
      (d :: ds).

(** ** A world with directories

    The directories of a file system, each with its entries; [rmdir]
    succeeds on an empty directory and removes its name from the parent, and
    removing a worktree removes its directory.  Every other call is answered
    by a script. *)
Definition unlink (d : string) (fs : gmap string (list string))
  : gmap string (list string) :=
  alter (List.filter (fun n => negb (String.eqb n (NodePath.basename d))))
        (NodePath.dirname d) (delete d fs).

Definition withDirectories (s : script) : handler (gmap string (list string)) :=
  fun c fs =>
    match c as c0 return option (reply c0) * gmap string (list string) with
    | FsReaddir d => (fs !! d, fs)
    | FsRmdir d =>
        match fs !! d with
        | Some [] => (Some tt, unlink d fs)
        | _ => (None, fs)
        end
    | GitWorktreeRemove _ p => (Some tt, unlink p fs)
    | c0 => (s c0, fs)
    end.

(** The layout of the project's README: one worktree of ticket CO-100 under
    [acme-worktrees/alice], and optionally a second ticket next to it. *)
Definition acmeLayout (otherTicket : bool) : gmap string (list string) :=
  {[ "/repos" := ["acme"; "acme-worktrees"];
     "/repos/acme" := [".git"];
     "/repos/acme-worktrees" := ["alice"];
     "/repos/acme-worktrees/alice" :=
       (if otherTicket then ["CO-100"; "CO-200"] else ["CO-100"]);
     "/repos/acme-worktrees/alice/CO-100" := ["billing-feature"];
     "/repos/acme-worktrees/alice/CO-100/billing-feature" := [] ]}.

Definition acmeRepository : script :=
  fun c =>
    match c as c0 return option (reply c0) with
    | GitWorktreeList _ => Some twoWorktreesText
    | GitRevparseAbbrevRef _ _ => Some "alice/CO-100/billing-feature"
    | GitDeleteLocalBranch _ _ => Some tt
    | _ => None
    end.

Definition cleanupBilling : CleanupWorktreeArgs :=
  {| cl_worktreePath := "/repos/acme-worktrees/alice/CO-100/billing-feature";
     cl_deleteBranch := Some true;
     cl_cwd := None |}.

Definition homeEnv : ProcessEnv :=
  {| HOME := Some "/home/alice"; GITHUB_TOKEN := None |}.

(** A call that touches no directory. *)
Definition nonDirCall (c : call) : Prop := isDirCall c = false.

Definition notFuel (e : error) : Prop := e <> FuelExhausted.

(** What a cleanup guarantees: a failing run made no directory call; a
    successful one made none before the walk, and the walk starts at the
    parent of the worktree and removes the directories reported. *)
Definition cleanupPost (env : ProcessEnv) (args : CleanupWorktreeArgs)
    (tr : list event) (res : error + CleanupWorktreeResult) : Prop :=
  match res with
  | inl e => notFuel e /\ Forall (fun ev => nonDirCall (eventCall ev)) tr
  | inr r =>
      exists pre walk,
        tr = pre ++ walk
        /\ Forall (fun ev => nonDirCall (eventCall ev)) pre
        /\ pruneWalk env (NodePath.dirname (cl_worktreePath args)) walk
             (directoriesRemoved r)
  end.

(** ** Worlds in which HEAD is the trunk branch *)

(** Every query of the current branch of [wt] answers [master] or [main]. *)
Definition headIsTrunk (wt : string) : forall c, option (reply c) -> Prop :=
  fun c =>
    match c as c0 return option (reply c0) -> Prop with
    | GitRevparseAbbrevRef cwd rev =>
        fun r => cwd = wt -> rev = "HEAD" -> r = Some "master" \/ r = Some "main"
    | _ => fun _ => True
    end.

Definition noNetworkCall (tr : list event) : Prop :=
  Forall (fun e => isNetworkCall (eventCall e) = false) tr.

(** The refusal as the specification states it: on the trunk branch,
    [createPR] fails with [CannotCreateFromTrunk] and attempts no network
    call, whether or not a title and a body were supplied. *)
Definition createPR_refusal_as_stated : Prop :=
  forall (W : Type) (h : handler W) (w : W) (env : ProcessEnv) (args : CreatePRArgs),
    obeys h (headIsTrunk (pr_worktreePath args)) ->
    result (run h (createPRTool env args) w) = inl CannotCreateFromTrunk
    /\ noNetworkCall (trace (run h (createPRTool env args) w)).

(** A checkout of [master] that has nothing to describe: no commit lies
    between [origin/master] and HEAD. *)
Definition onMasterNoCommits : script :=
  fun c =>
    match c as c0 return option (reply c0) with
    | GitRevparseAbbrevRef _ rev =>
        if String.eqb rev "HEAD" then Some "master" else None
    | GitLog _ _ _ => Some []
    | GitBranch _ => Some ["master"]
    | _ => None
    end.

Definition prArgs (title body : option string) : CreatePRArgs :=
  {| pr_worktreePath := "/repos/acme";
     pr_argTitle := title;
     pr_argBody := body;
     pr_draft := None |}.

Definition noEnv : ProcessEnv := {| HOME := None; GITHUB_TOKEN := None |}.

(** The commit-log query an event is, with its answer. *)
Definition logQuery (e : event) : option (call * option (list string)) :=
  match e with
  | Event c r =>
      match c as c0 return option (reply c0) -> option (call * option (list string)) with
      | GitLog cwd from to => fun r => Some (GitLog cwd from to, r)
      | _ => fun _ => None
      end r
  end.

(** The error a run on the trunk branch ends with, read off its trace: the
    failure of the content generation when the commit log was queried and
    failed or was empty, the refusal otherwise. *)
Definition refusalOf (tr : list event) : error :=
  match omap logQuery tr with
  | (c, None) :: _ => CollaboratorFailed c
  | (_, Some []) :: _ => NoCommits
  | _ => CannotCreateFromTrunk
  end.

Definition contentSupplied (args : CreatePRArgs) : bool :=
  truthyOpt (pr_argTitle args) && truthyOpt (pr_argBody args).

(** ** Paths made of ordinary segments *)

Fixpoint hasSlash (s : string) : bool :=
  match s with
  | EmptyString => false
  | String c s' => NodePath.isSlash c || hasSlash s'
  end.

(** A segment that names one directory: not empty, not [.] or [..], and
    without a separator. *)
Definition isOrdinarySegment (s : string) : bool :=
  Js.truthy s && negb (String.eqb s ".") && negb (String.eqb s "..")
  && negb (hasSlash s).

(** The absolute path with the given segments. *)
Fixpoint absolutePath (segs : list string) : string :=
  match segs with
  | [] => ""
  | s :: rest => "/" +:+ s +:+ absolutePath rest
  end.

(** The creation plan as the specification states it: for every valid
    ticket and description the branch is [<handle>/<ticket>/<description>]
    and the path is
    [<mainRepoParent>/<repoName>-worktrees/<handle>/<ticket>/<description>],
    the ticket verbatim, the description normalised. *)
Definition createPlan_format_as_stated : Prop :=
  forall root repo handle ticket description : string,
    Js.truthy (Js.trim ticket) = true ->
    Js.truthy (Js.trim description) = true ->
    let nd := normalizeBranchName description in
    fullBranchNameOf handle ticket nd = handle +:+ "/" +:+ ticket +:+ "/" +:+ nd
    /\ worktreePathOf root repo handle ticket nd
       = NodePath.join [root; ".."] +:+ "/" +:+ repo +:+ "-worktrees/"
         +:+ handle +:+ "/" +:+ ticket +:+ "/" +:+ nd.

(** ** Observing the creation in a trace *)

(** The worktree an event adds: repository, path, branch and base. *)
Definition worktreeAdded (e : event) : option (string * string * string * string) :=
  match eventCall e with
  | GitWorktreeAdd cwd path branch base => Some (cwd, path, branch, base)
  | _ => None
  end.

(** A call that neither probes a trunk ref nor adds a worktree. *)
Definition isSetupCall (c : call) : bool :=
  match c with
  | GitWorktreeAdd _ _ _ _ | GitShowRef _ _ => false
  | _ => true
  end.

Definition setupCall (c : call) : Prop := isSetupCall c = true.

(** What the create tool does about the base: every worktree it adds is
    based on [origin/master], and it never probes a remote ref. *)
Definition branchesFromMaster (c : call) : Prop :=
  match c with
  | GitWorktreeAdd _ _ _ base => base = "origin/master"
  | GitShowRef _ _ => False
  | _ => True
  end.

Definition anyError (e : error) : Prop := True.

(** The plan of a successful creation: one worktree is added, at the path
    and on the branch reported, both computed from the main root, the
    repository name, the handle, the ticket and the normalised
    description. *)
Definition planPost (args : CreateWorktreeArgs) (tr : list event)
    (res : error + CreateWorktreeResult) : Prop :=
  match res with
  | inl _ => True
  | inr r =>
      let nd := normalizeBranchName (branchName args) in
      exists root,
        omap worktreeAdded tr
          = [(root, worktreePath r, branchFullName r, "origin/master")]
        /\ branchFullName r = fullBranchNameOf (cw_username r) (ticket args) nd
        /\ worktreePath r
           = worktreePathOf root (repoName r) (cw_username r) (ticket args) nd
  end.

(** The repository [acme-corp/Acme] with one trunk ref on its remote: only
    that ref exists, so only it can be probed or used as a base.  The hosted
    login is [alice]; there is no lock file and no environment file. *)
Definition acmeRemote (trunk : string) : script :=
  fun c =>
    match c as c0 return option (reply c0) with
    | GitWorktreeList _ => Some twoWorktreesText
    | Exec cmd _ _ =>
        if String.eqb cmd "gh api user --jq .login"
        then Some ("alice" +:+ LF) else None
    | GitGetRemotes _ => Some [("origin", "git@github.com:acme-corp/Acme.git")]
    | GitFetch _ _ => Some tt
    | GitShowRef _ ref =>
        if String.eqb ref ("refs/remotes/" +:+ trunk) then Some tt else None
    | GitWorktreeAdd _ _ _ base =>
        if String.eqb base trunk then Some tt else None
    | GlobEnvFiles _ => Some []
    | _ => None
    end.

Definition mainTrunkRepository : script := acmeRemote "origin/main".
Definition masterTrunkRepository : script := acmeRemote "origin/master".

Definition createBilling : CreateWorktreeArgs :=
  {| ticket := "CO-100";
     branchName := "billing feature";
     cw_cwd := None;
     openIde := None |}.

(** ** Predicates of the verification *)

(** A string over [[a-z0-9-]]. *)
Definition allSlug (s : string) : Prop :=
  Forall (fun c => Js.isSlugChar c = true) (list_ascii_of_string s).

(** A value made of white space that [.] matches. *)
Definition blankValue (v : string) : Prop :=
  Forall (fun c => Js.isWhiteSpace c = true /\ Js.isLineTerminator c = false)
         (list_ascii_of_string v).

(** A record as the parsing loop pushes it: not flagged, with a non-empty
    path. *)
Definition auxiliary (x : WorktreeInfo) : Prop :=
  wt_isMain x = Some false /\ truthyOpt (wt_path x) = true.

(** The invariant of the parsing loop, on (result, currentWorktree). *)
Definition parseInv (st : list WorktreeInfo * WorktreeInfo) : Prop :=
  Forall auxiliary st.1
  /\ (truthyOpt (wt_path st.2) = true -> wt_isMain st.2 = Some false).

(** A string of decimal digits. *)
Definition digitString (s : string) : Prop :=
  Forall (fun c => Js.isDigit c = true) (list_ascii_of_string s).

(** The value of a decimal numeral read after the digits worth [acc]. *)
Fixpoint hornerU (acc : N) (d : Decimal.uint) : N :=
  match d with
  | Decimal.Nil => acc
  | Decimal.D0 d => hornerU (10 * acc) d
  | Decimal.D1 d => hornerU (10 * acc + 1) d
  | Decimal.D2 d => hornerU (10 * acc + 2) d
  | Decimal.D3 d => hornerU (10 * acc + 3) d
  | Decimal.D4 d => hornerU (10 * acc + 4) d
  | Decimal.D5 d => hornerU (10 * acc + 5) d
  | Decimal.D6 d => hornerU (10 * acc + 6) d
  | Decimal.D7 d => hornerU (10 * acc + 7) d
  | Decimal.D8 d => hornerU (10 * acc + 8) d
  | Decimal.D9 d => hornerU (10 * acc + 9) d
  end.

(** An entry whose terminating empty line is missing. *)
Definition renderEntryOpen (e : PorcelainEntry) : string :=
  "worktree " +:+ pe_path e +:+ LF +:+
  "HEAD " +:+ pe_head e +:+ LF +:+
  match pe_branch e with
  | Some b => "branch refs/heads/" +:+ b
  | None => "detached"
  end.

(** ** Observers of a run *)

(** The commands a run executed, with working directory and time limit. *)
Definition commandRun (e : event) : option (string * option string * N) :=
  match eventCall e with
  | Exec cmd cwd timeoutMs => Some (cmd, cwd, timeoutMs)
  | _ => None
  end.

(** The files a run copied, source and target: the copies that worked. *)
Definition fileCopied (e : event) : option (string * string) :=
  match e with
  | Event c r =>
      match c as c0 return option (reply c0) -> option (string * string) with
      | FsCopyFile src dst => fun r => if r is Some _ then Some (src, dst) else None
      | _ => fun _ => None
      end r
  end.

(** The directories a run made sure exist. *)
Definition directoryMade (e : event) : option string :=
  match e with
  | Event c r =>
      match c as c0 return option (reply c0) -> option string with
      | FsMkdirRecursive d => fun r => if r is Some _ then Some d else None
      | _ => fun _ => None
      end r
  end.

(** Where [copyEnvFiles] copies a file of the main checkout from and to. *)
Definition envCopy (mainRepoPath worktreePath envFile : string) : string * string :=
  (NodePath.join [mainRepoPath; envFile], NodePath.join [worktreePath; envFile]).

(** What a run of the copy loop over [envFiles] did: it copied the first
    [n] files, in order, after making the directory of each; when it failed,
    some file was left, and only the directory of that one may have been
    made in addition. *)
Definition copiedPrefix (mainRepoPath worktreePath : string) (envFiles : list string)
    (start : N) (tr : list event) (res : error + N) : Prop :=
  let copies := map (envCopy mainRepoPath worktreePath) envFiles in
  let dirs := map (fun c => NodePath.dirname (snd c)) copies in
  exists n : nat,
    omap fileCopied tr = take n copies
    /\ (omap directoryMade tr = take n dirs
        \/ omap directoryMade tr = take (S n) dirs)
    /\ match res with
       | inr count =>
           n = length envFiles /\ count = start + N.of_nat (length envFiles)
       | inl _ => (n < length envFiles)%nat
       end.

(** ** What a creation leaves behind *)

(** A worktree was added: the call was made and did not fail. *)
Definition worktreeCreated (e : event) : bool :=
  match e with
  | Event (GitWorktreeAdd _ _ _ _) (Some _) => true
  | _ => false
  end.

(** The calls that set a new worktree up: the probes of lock files, the
    glob of environment files, and the directories and copies made. *)
Definition isProvisioning (c : call) : bool :=
  match c with
  | FsAccess _ | GlobEnvFiles _ | FsMkdirRecursive _ | FsCopyFile _ _ => true
  | _ => false
  end.

(** The calls of the steps before the worktree is added. *)
Definition isLookup (c : call) : bool :=
  match c with
  | GitWorktreeList _ | FsReadFile _ | Exec _ _ _ | GitGetConfig _
  | GitGetRemotes _ => true
  | _ => false
  end.

Definition lookupCall (c : call) : Prop := isLookup c = true.

(** A creation succeeds exactly when its worktree was added, and one that
    fails has set nothing up. *)
Definition allOrNothing (tr : list event) (res : error + CreateWorktreeResult) : Prop :=
  match res with
  | inr _ => Exists (fun e => worktreeCreated e = true) tr
  | inl _ =>
      Forall (fun e => worktreeCreated e = false
                       /\ isProvisioning (eventCall e) = false) tr
  end.

(** ** What is submitted to the hosted API *)

(** The pull requests a run submitted. *)
Definition submission (e : event) : option call :=
  if isNetworkCall (eventCall e) then Some (eventCall e) else None.

(** A submission made by [createPullRequest] for a title, a body and a draft
    flag: the token is not empty, and the one of the environment when that
    is set; owner and repository are not empty; the head is not a trunk
    branch and the base is one. *)
Definition submissionOf (env : ProcessEnv) (title body : string) (draft : bool)
    (c : call) : Prop :=
  match c with
  | OctokitPullsCreate token owner repo title' body' head base draft' =>
      token <> "" /\ owner <> "" /\ repo <> ""
      /\ (truthyOpt (GITHUB_TOKEN env) = true -> GITHUB_TOKEN env = Some token)
      /\ head <> "master" /\ head <> "main"
      /\ (base = "master" \/ base = "main")
      /\ title' = title /\ body' = body /\ draft' = draft
  | _ => False
  end.

(** What a run that may submit one pull request did: at most one
    submission, [ok] of it, without which there is no success; and no
    command was run when the environment holds a token. *)
Definition submitsOnce (env : ProcessEnv) (ok : call -> Prop) {A}
    (tr : list event) (res : error + A) : Prop :=
  (truthyOpt (GITHUB_TOKEN env) = true -> omap commandRun tr = [])
  /\ match omap submission tr with
     | [] => exists e, res = inl e
     | [c] => ok c
     | _ => False
     end.

(** The submission of the tool: the title and the body of the arguments
    where they are given and not empty, the draft flag given or [false]. *)
Definition submissionOfTool (env : ProcessEnv) (args : CreatePRArgs) (c : call) : Prop :=
  exists title body,
    submissionOf env title body (default false (pr_draft args)) c
    /\ (truthyOpt (pr_argTitle args) = true -> pr_argTitle args = Some title)
    /\ (truthyOpt (pr_argBody args) = true -> pr_argBody args = Some body).

(** A checkout of a feature branch with two commits over [origin/master],
    in a repository hosted as [acme-corp/Acme]; the hosted API accepts what
    is submitted. *)
Definition featureBranchCheckout : script :=
  fun c =>
    match c as c0 return option (reply c0) with
    | GitRevparseAbbrevRef _ _ => Some "alice/CO-100/billing"
    | GitLog _ _ _ => Some ["Add invoices"; "Fix totals"]
    | GitBranch _ => Some ["alice/CO-100/billing"; "master"]
    | GitGetRemotes _ => Some [("origin", "git@github.com:acme-corp/Acme.git")]
    | OctokitPullsCreate _ owner repo title _ _ _ _ =>
        Some {| pr_url := "https://github.com/" +:+ owner +:+ "/" +:+ repo +:+ "/pull/7";
                pr_number := 7;
                pr_title := title |}
    | _ => None
    end.

Definition tokenInEnvironment : ProcessEnv :=
  {| HOME := Some "/home/alice"; GITHUB_TOKEN := Some "t0ken" |}.

Definition describeFromCommits : CreatePRArgs :=
  {| pr_worktreePath := "/repos/acme-worktrees/alice/CO-100/billing";
     pr_argTitle := None;
     pr_argBody := None;
     pr_draft := None |}.

(** ** src/tools/worktree-status.ts *)

(** A whole number as [String(n)] prints it.  Exact below 2^53, as the
    counts are. *)
Definition showZ (z : Z) : string :=
  match z with
  | Zneg p => "-" +:+ showN (Npos p)
  | _ => showN (Z.to_N z)
  end.

Record WorktreeStatusResult := {
  ws_clean : bool;
  ws_ahead : Z;
  ws_behind : Z;
  ws_uncommitted : bool;
  ws_worktreePath : string;
  readyForPR : bool;
  message : string
}.

(** Get the status of a worktree.  The texts of the messages hold
    characters outside Latin-1 and are kept as the UTF-8 bytes of the source;
    the code builds them and never reads them. *)
Definition worktreeStatusTool (worktreePath : string) : Prog WorktreeStatusResult :=
  status ← getWorktreeStatus worktreePath;
  (* Determine if ready for PR *)
  let readyForPR := clean status && (0 <? ahead status)%Z in
  (* Generate human-readable message *)
  let message :=
    if negb (clean status) then
      "⚠️  Working directory has uncommitted changes"
    else if (ahead status =? 0)%Z then
      "ℹ️  No commits to push"
    else if (0 <? behind status)%Z then
      "⚠️  Branch is " +:+ showZ (behind status) +:+ " commit(s) behind master"
    else
      "✅ Clean and " +:+ showZ (ahead status) +:+ " commit(s) ahead - ready for PR" in
  mret {| ws_clean := clean status;
          ws_ahead := ahead status;
          ws_behind := behind status;
          ws_uncommitted := uncommitted status;
          ws_worktreePath := worktreePath;
          readyForPR := readyForPR;
          message := message |}.

(** The message announces that the worktree is ready: it opens with the
    check mark. *)
Definition announcesReady (m : string) : bool := Js.startsWith "✅" m.

(** The message warns that the branch is behind. *)
Definition warnsBehind (m : string) : bool := Js.startsWith "⚠️  Branch is " m.

(** ** The steps of a cleanup *)

(** What a cleanup does, read off its calls [tr] and its result [res]: it
    enumerates the worktrees to find the main checkout; asks the worktree
    for its branch; removes the worktree, which is fatal when it fails;
    deletes the branch when that was asked for and a branch name was found,
    which is not fatal when it fails; and walks up the emptied
    directories. *)
Definition cleanupSteps (env : ProcessEnv) (args : CleanupWorktreeArgs)
    (tr : list event) (res : error + CleanupWorktreeResult) : Prop :=
  let wt := cl_worktreePath args in
  exists enumerated rest,
    tr = Event (GitWorktreeList (cl_cwd args)) enumerated :: rest
    /\ match enumerated ≫= mainRootOf with
       | None => rest = [] /\ exists e, res = inl e
       | Some root =>
           exists branch removal rest',
             rest = Event (GitRevparseAbbrevRef wt "HEAD") branch
                    :: Event (GitWorktreeRemove root wt) removal :: rest'
             /\ match removal with
                | None =>
                    rest' = []
                    /\ res = inl (CollaboratorFailed (GitWorktreeRemove root wt))
                | Some _ =>
                    exists r deletion walk,
                      res = inr r
                      /\ rest' = deletion ++ walk
                      /\ removed r = true
                      /\ cl_resultPath r = wt
                      /\ cl_branchName r = branch
                      /\ pruneWalk env (NodePath.dirname wt) walk (directoriesRemoved r)
                      /\ if default false (cl_deleteBranch args) && truthyOpt branch
                         then exists deleted,
                                deletion
                                = [Event (GitDeleteLocalBranch root (default "" branch))
                                     deleted]
                                /\ branchDeleted r = bool_decide (is_Some deleted)
                         else deletion = [] /\ branchDeleted r = false
                end
       end.

(** ** What the report of a creation means *)

(** The commands of a run that did not fail. *)
Definition commandSucceeded (e : event) : option (string * option string * N) :=
  match e with
  | Event c r =>
      match c as c0 return option (reply c0) -> option (string * option string * N) with
      | Exec cmd cwd timeoutMs => fun r => if r is Some _ then Some (cmd, cwd, timeoutMs) else None
      | _ => fun _ => None
      end r
  end.

(** The report of a successful creation, against the calls of the run: a
    package manager is named exactly when dependencies were installed, and
    then its install command succeeded in the new worktree; the number of
    environment files is the number of files copied, or zero. *)
Definition reportMatchesRun (tr : list event) (res : error + CreateWorktreeResult)
  : Prop :=
  match res with
  | inl _ => True
  | inr r =>
      match packageManager r with
      | Some pm =>
          dependenciesInstalled r = true
          /\ In pm ["pnpm"; "npm"; "yarn"]
          /\ In (pm +:+ " install", Some (worktreePath r), 300000)
                (omap commandSucceeded tr)
      | None => dependenciesInstalled r = false
      end
      /\ (envFilesCopied r = N.of_nat (length (omap fileCopied tr))
          \/ envFilesCopied r = 0)
  end.

(** ** Lines of an enumeration the parser reads *)

(** The lines [listWorktrees] acts on: the three attributes it knows and
    the empty line.  Every other line ([detached], [bare], [locked],
    [prunable] and their reasons) is passed over. *)
Definition isParsedLine (line : string) : bool :=
  Js.startsWith "worktree " line || Js.startsWith "HEAD " line
  || Js.startsWith "branch " line || String.eqb line "".

(** * Verification *)

(** ** Runs of composed programs *)

Section RunLemmas.
Context {W : Type} (h : handler W).

Lemma run_bind {A B} (p : Prog A) (f : A -> Prog B) (w : W) :
  run h (p ≫= f) w = andThen (run h p w) (fun a w' => run h (f a) w').
Proof.
  unfold mbind, Prog_bind. revert w.
  induction p as [a | e | c k IH]; intros w; simpl.
  - unfold andThen; simpl. now destruct (run h (f a) w).
  - reflexivity.
  - rewrite IH. unfold andThen; simpl.
    now destruct (result (run h (k (h c w).1) (h c w).2)).
Qed.

Lemma run_tryCatch {A} (p : Prog A) (hd : error -> Prog A) (w : W) :
  run h (tryCatch p hd) w = orCatch (run h p w) (fun e w' => run h (hd e) w').
Proof.
  revert w. induction p as [a | e | c k IH]; intros w; simpl.
  - reflexivity.
  - unfold orCatch; simpl. now destruct (run h (hd e) w).
  - rewrite IH. unfold orCatch; simpl.
    now destruct (result (run h (k (h c w).1) (h c w).2)).
Qed.

Lemma run_await (c : call) (w : W) :
  run h (await c) w =
  MkRun (match (h c w).1 with
         | Some x => inr x
         | None => inl (CollaboratorFailed c)
         end) (h c w).2 [Event c (h c w).1].
Proof. unfold await; simpl. now destruct (h c w).1. Qed.

Lemma run_ret {A} (a : A) (w : W) : run h (mret a) w = MkRun (inr a) w [].
Proof. reflexivity. Qed.

End RunLemmas.

Section WpLemmas.
Context (Q : forall c, option (reply c) -> Prop).

Lemma wp_mono {A} (Post Post' : list event -> error + A -> Prop) (p : Prog A) :
  (forall tr r, Post tr r -> Post' tr r) -> wp Q Post p -> wp Q Post' p.
Proof.
  revert Post Post'. induction p as [a | e | c k IH]; simpl; intros Post Post' Himp; auto.
  intros Hk r Hq. eapply IH; [|apply Hk, Hq]. simpl. auto.
Qed.

Lemma wp_bind {A B} (Post : list event -> error + B -> Prop)
    (p : Prog A) (f : A -> Prog B) :
  wp Q (fun tr r => match r with
                    | inl e => Post tr (inl e)
                    | inr a => wp Q (fun tr' r' => Post (tr ++ tr') r') (f a)
                    end) p ->
  wp Q Post (p ≫= f).
Proof.
  unfold mbind, Prog_bind. revert Post.
  induction p as [a | e | c k IH]; simpl; intros Post; auto.
Qed.

Lemma wp_tryCatch {A} (Post : list event -> error + A -> Prop) (p : Prog A)
    (hd : error -> Prog A) :
  wp Q (fun tr r => match r with
                    | inl e => wp Q (fun tr' r' => Post (tr ++ tr') r') (hd e)
                    | inr a => Post tr (inr a)
                    end) p ->
  wp Q Post (tryCatch p hd).
Proof.
  revert Post. induction p as [a | e | c k IH]; simpl; intros Post; auto.
Qed.

Lemma wp_run {W A} (h : handler W) (Post : list event -> error + A -> Prop)
    (p : Prog A) (w : W) :
  obeys h Q -> wp Q Post p -> Post (trace (run h p w)) (result (run h p w)).
Proof.
  intros Hobey. revert Post w.
  induction p as [a | e | c k IH]; intros Post w Hwp; simpl in *; auto.
  apply (IH _ (fun tr res => Post (Event c (h c w).1 :: tr) res)).
  apply Hwp, Hobey.
Qed.

End WpLemmas.

Lemma obeys_any {W} (h : handler W) : obeys h anyAnswer.
Proof. intros c w. exact I. Qed.

Section Confined.
Context (P : call -> Prop).

Lemma confined_ret {A} (G : error -> Prop) (a : A) : confined P G (mret a).
Proof. split; [constructor | exact I]. Qed.

Lemma confined_throw {A} (G : error -> Prop) (e : error) :
  G e -> confined P G (@Throw A e).
Proof. intros He. split; [constructor | exact He]. Qed.

Lemma confined_do {A} (G : error -> Prop) (c : call)
    (k : option (reply c) -> Prog A) :
  P c -> (forall r, confined P G (k r)) -> confined P G (Do c k).
Proof.
  unfold confined. simpl. intros Hc Hk r _.
  eapply wp_mono; [|apply Hk]. simpl. intros tr res [Htr Hres].
  split; [now constructor | exact Hres].
Qed.

Lemma confined_await (G : error -> Prop) (c : call) :
  P c -> G (CollaboratorFailed c) -> confined P G (await c).
Proof.
  intros Hc Hg. apply confined_do; [exact Hc|].
  intros [x|]; [apply confined_ret | now apply confined_throw].
Qed.

Lemma confined_mono {A} (G G' : error -> Prop) (p : Prog A) :
  (forall e, G e -> G' e) -> confined P G p -> confined P G' p.
Proof.
  intros Himp. apply wp_mono. intros tr [e | a] [Htr Hres]; split; auto.
Qed.

Lemma confined_bind {A B} (G : error -> Prop) (p : Prog A) (f : A -> Prog B) :
  confined P G p -> (forall a, confined P G (f a)) -> confined P G (p ≫= f).
Proof.
  unfold confined. intros Hp Hf. apply wp_bind.
  eapply wp_mono; [|exact Hp].
  intros tr [e | a] [Htr Hres]; simpl; [split; assumption|].
  eapply wp_mono; [|apply Hf]. simpl. intros tr' res' [Htr' Hres'].
  split; [apply Forall_app; split; assumption | exact Hres'].
Qed.

Lemma confined_tryCatch {A} (G G' : error -> Prop) (p : Prog A)
    (hd : error -> Prog A) :
  confined P G' p -> (forall e, confined P G (hd e)) ->
  confined P G (tryCatch p hd).
Proof.
  unfold confined. intros Hp Hh. apply wp_tryCatch.
  eapply wp_mono; [|exact Hp].
  intros tr [e | a] [Htr Hres]; simpl; [|split; [assumption | exact I]].
  eapply wp_mono; [|apply Hh]. simpl. intros tr' res' [Htr' Hres'].
  split; [apply Forall_app; split; assumption | exact Hres'].
Qed.

Lemma confined_run {W A} (h : handler W) (G : error -> Prop) (p : Prog A) (w : W) :
  confined P G p ->
  Forall (fun e => P (eventCall e)) (trace (run h p w))
  /\ match result (run h p w) with inl e => G e | inr _ => True end.
Proof.
  intros Hp.
  exact (wp_run anyAnswer h _ p w (obeys_any h) Hp).
Qed.

(** Sequencing under a postcondition that is stable under [P]-calls made
    before. *)
Lemma wp_bind_confined {A B} (G : error -> Prop)
    (Post : list event -> error + B -> Prop) (p : Prog A) (f : A -> Prog B) :
  (forall e tr res, P (eventCall e) -> Post tr res -> Post (e :: tr) res) ->
  (forall e, G e -> Post [] (inl e)) ->
  confined P G p ->
  (forall a, wp anyAnswer Post (f a)) ->
  wp anyAnswer Post (p ≫= f).
Proof.
  intros Hstable Hfail Hp Hf.
  assert (Hfront : forall pre tr res,
             Forall (fun e => P (eventCall e)) pre -> Post tr res ->
             Post (pre ++ tr) res).
  { intros pre tr res Hpre Hpost.
    induction Hpre as [| e pre He _ IH]; [exact Hpost|].
    simpl. now apply Hstable. }
  apply wp_bind. eapply wp_mono; [|exact Hp].
  intros tr [e | a] [Htr Hres]; simpl.
  - rewrite <- (app_nil_r tr). apply Hfront; [exact Htr | now apply Hfail].
  - eapply wp_mono; [|apply Hf]. simpl. intros tr' res' Hpost.
    now apply Hfront.
Qed.

End Confined.

(** ** Normalisation *)

Lemma slug_lowerChar (c : ascii) : Js.isSlugChar c = true -> Js.lowerChar c = c.
Proof.
  destruct c as [[] [] [] [] [] [] [] []]; vm_compute; intros H;
    first [reflexivity | discriminate H].
Qed.

Lemma slug_not_whiteSpace (c : ascii) :
  Js.isSlugChar c = true -> Js.isWhiteSpace c = false.
Proof.
  destruct c as [[] [] [] [] [] [] [] []]; vm_compute; intros H;
    first [reflexivity | discriminate H].
Qed.

Lemma stripNonSlug_allSlug (s : string) : allSlug (Js.stripNonSlug s).
Proof.
  unfold allSlug. induction s as [| c s IH]; simpl.
  - constructor.
  - destruct (Js.isSlugChar c) eqn:Hc; simpl; [constructor; assumption | assumption].
Qed.

Lemma toLowerCase_slug (s : string) : allSlug s -> Js.toLowerCase s = s.
Proof.
  unfold allSlug. induction s as [| c s IH]; simpl; intros H; [reflexivity|].
  inversion H; subst. rewrite slug_lowerChar by assumption. now rewrite IH.
Qed.

Lemma replaceWsRuns_slug (s : string) : allSlug s -> Js.replaceWsRuns false s = s.
Proof.
  unfold allSlug. induction s as [| c s IH]; simpl; intros H; [reflexivity|].
  inversion H; subst. rewrite slug_not_whiteSpace by assumption. now rewrite IH.
Qed.

Lemma stripNonSlug_slug (s : string) : allSlug s -> Js.stripNonSlug s = s.
Proof.
  unfold allSlug. induction s as [| c s IH]; simpl; intros H; [reflexivity|].
  inversion H as [| ? ? Hc Hs]; subst. rewrite Hc. now rewrite IH.
Qed.

Lemma normalize_fixes_slug (s : string) :
  allSlug s -> Js.stripNonSlug (Js.replaceWsRuns false (Js.toLowerCase s)) = s.
Proof.
  intros H. rewrite toLowerCase_slug, replaceWsRuns_slug by assumption.
  now apply stripNonSlug_slug.
Qed.

(** C8.  The description normalisation (lowercase, white-space runs to one
    hyphen, everything outside [a-z0-9-] stripped) is idempotent, in the
    create tool and in [normalizeUsername] alike, and it sends
    "Billing Feature!" to "billing-feature". *)
Theorem normalization_idempotent :
  (forall s, normalizeBranchName (normalizeBranchName s) = normalizeBranchName s)
  /\ (forall s, normalizeUsername (normalizeUsername s) = normalizeUsername s)
  /\ normalizeBranchName "Billing Feature!" = "billing-feature"
  /\ normalizeUsername "Billing Feature!" = "billing-feature".
Proof.
  repeat split.
  - intros s. unfold normalizeBranchName at 1.
    apply normalize_fixes_slug, stripNonSlug_allSlug.
  - intros s. unfold normalizeUsername at 1.
    apply normalize_fixes_slug, stripNonSlug_allSlug.
Qed.

(** ** Identity resolution *)

Lemma append_cons (c : ascii) (s t : string) :
  String c s +:+ t = String c (s +:+ t).
Proof. reflexivity. Qed.

Lemma append_nil (t : string) : "" +:+ t = t.
Proof. reflexivity. Qed.

Lemma append_assoc (a b c : string) : (a +:+ b) +:+ c = a +:+ (b +:+ c).
Proof.
  induction a as [| x a IH]; [reflexivity|].
  rewrite !append_cons. now rewrite IH.
Qed.

Lemma append_nil_r (a : string) : a +:+ "" = a.
Proof.
  induction a as [| x a IH]; [reflexivity|].
  rewrite append_cons. now rewrite IH.
Qed.

Lemma matchUsernameAssignment_truthy (config v : string) :
  matchUsernameAssignment config = Some v -> Js.truthy v = true.
Proof.
  assert (Hhere : forall s, matchUsernameHere s = Some v -> Js.truthy v = true).
  { intros s. unfold matchUsernameHere.
    destruct (Js.startsWith "USERNAME=" s); [|discriminate].
    destruct (untilLineTerminator _); [discriminate|].
    intros [= <-]. reflexivity. }
  induction config as [| c config IH];
    cbn [matchUsernameAssignment];
    destruct (matchUsernameHere _) eqn:E; try discriminate;
    first [ exact IH | intros [= ->]; eauto ].
Qed.

Section DetectUsername.
Context {W : Type} (h : handler W).

Lemma run_override (p : string) (w : W) :
  Js.truthy p = true ->
  run h (detectUsername_override (Some p)) w =
  MkRun (inr (fromOverrideFile (h (FsReadFile p) w).1))
        (h (FsReadFile p) w).2
        [Event (FsReadFile p) (h (FsReadFile p) w).1].
Proof.
  intros Hp. unfold detectUsername_override. rewrite Hp.
  rewrite run_tryCatch, run_bind, (run_await h (FsReadFile p)).
  destruct (h (FsReadFile p) w) as [[config|] w1];
    unfold andThen, orCatch, fromOverrideFile; simpl; [|reflexivity].
  destruct (matchUsernameAssignment config) as [m|] eqn:Hm; simpl; [|reflexivity].
  rewrite (matchUsernameAssignment_truthy _ _ Hm). reflexivity.
Qed.

Lemma run_override_skipped (cfg : option string) (w : W) :
  truthyOpt cfg = false ->
  run h (detectUsername_override cfg) w = MkRun (inr None) w [].
Proof.
  destruct cfg as [p|]; simpl; [|reflexivity].
  intros ->. reflexivity.
Qed.

Lemma run_githubCli (w : W) :
  let c := Exec "gh api user --jq .login" None 5000 in
  run h detectUsername_githubCli w =
  MkRun (inr (fromHostedLogin (h c w).1)) (h c w).2 [Event c (h c w).1].
Proof.
  intros c. unfold detectUsername_githubCli. fold c.
  rewrite run_tryCatch, run_bind, (run_await h c).
  destruct (h c w) as [[stdout|] w1];
    unfold andThen, orCatch, fromHostedLogin; simpl; [|reflexivity].
  destruct (Js.truthy (Js.trim stdout)); reflexivity.
Qed.

Lemma run_gitConfig (w : W) :
  let c := GitGetConfig "user.name" in
  run h detectUsername_gitConfig w =
  MkRun (inr (fromLocalConfig (h c w).1)) (h c w).2 [Event c (h c w).1].
Proof.
  intros c. unfold detectUsername_gitConfig. fold c.
  rewrite run_tryCatch, run_bind, (run_await h c).
  destruct (h c w) as [[[value|]|] w1];
    unfold andThen, orCatch, fromLocalConfig, normalizeUsername; simpl;
    try reflexivity.
  destruct value as [| a value]; simpl; [reflexivity|].
  destruct (Js.truthy _); reflexivity.
Qed.

End DetectUsername.

Section IdentityResolution.
Context {W : Type} (h : handler W).

Lemma run_override_answer (cfg : option string) (w : W) :
  result (run h (detectUsername_override cfg) w)
    = inr (fromOverrideFile (overrideAnswer h cfg w).1)
  /\ final (run h (detectUsername_override cfg) w) = (overrideAnswer h cfg w).2.
Proof.
  unfold overrideAnswer. destruct cfg as [p|]; [|split; reflexivity].
  destruct (Js.truthy p) eqn:Hp.
  - rewrite run_override by assumption. split; reflexivity.
  - rewrite run_override_skipped by (simpl; assumption). split; reflexivity.
Qed.

(** The result of [detectUsername], as a function of the three answers. *)
Lemma detectUsername_result (cfg : option string) (w : W) :
  let a1 := (overrideAnswer h cfg w).1 in
  let w1 := (overrideAnswer h cfg w).2 in
  let a2 := (h ghLoginProbe w1).1 in
  let w2 := (h ghLoginProbe w1).2 in
  let a3 := (h gitUserName w2).1 in
  result (run h (detectUsername cfg) w)
  = resolveIdentity_spec
      [fromOverrideFile a1; fromHostedLogin a2; fromLocalConfig a3].
Proof.
  intros a1 w1 a2 w2 a3. unfold detectUsername.
  rewrite run_bind. unfold andThen.
  destruct (run_override_answer cfg w) as [-> ->]. fold a1 w1.
  unfold resolveIdentity_spec.
  destruct (fromOverrideFile a1) as [u1|]; [reflexivity|].
  cbn [result final trace List.find].
  rewrite bool_decide_eq_false_2 by (intros [? ?]; discriminate).
  rewrite run_bind, run_githubCli. unfold andThen.
  cbn [result final trace]. fold ghLoginProbe. fold a2 w2.
  destruct (fromHostedLogin a2) as [u2|]; [reflexivity|].
  cbn [result final trace List.find].
  rewrite bool_decide_eq_false_2 by (intros [? ?]; discriminate).
  rewrite run_bind, run_gitConfig. unfold andThen.
  cbn [result final trace]. fold gitUserName. fold a3.
  destruct (fromLocalConfig a3) as [u3|]; reflexivity.
Qed.

End IdentityResolution.

Section IdentityResolutionTrace.
Context {W : Type} (h : handler W).

(** The calls of [detectUsername]: a later source is consulted only when
    every earlier one produced nothing. *)
Lemma detectUsername_trace (cfg : option string) (w : W) :
  let a1 := (overrideAnswer h cfg w).1 in
  let w1 := (overrideAnswer h cfg w).2 in
  let a2 := (h ghLoginProbe w1).1 in
  let w2 := (h ghLoginProbe w1).2 in
  let a3 := (h gitUserName w2).1 in
  trace (run h (detectUsername cfg) w)
  = trace (run h (detectUsername_override cfg) w)
    ++ match fromOverrideFile a1 with
       | Some _ => []
       | None =>
           Event ghLoginProbe a2
           :: match fromHostedLogin a2 with
              | Some _ => []
              | None => [Event gitUserName a3]
              end
       end.
Proof.
  intros a1 w1 a2 w2 a3. unfold detectUsername.
  rewrite run_bind. unfold andThen.
  destruct (run_override_answer h cfg w) as [-> ->]. fold a1 w1.
  destruct (fromOverrideFile a1) as [u1|]; [reflexivity|].
  cbn [result final trace]. f_equal.
  rewrite run_bind, run_githubCli. unfold andThen.
  cbn [result final trace]. fold ghLoginProbe. fold a2 w2.
  destruct (fromHostedLogin a2) as [u2|]; [reflexivity|].
  cbn [result final trace app]. f_equal.
  rewrite run_bind, run_gitConfig. unfold andThen.
  cbn [result final trace]. fold gitUserName. fold a3.
  destruct (fromLocalConfig a3) as [u3|]; reflexivity.
Qed.

End IdentityResolutionTrace.

(** C7.  [detectUsername] takes its three sources strictly in order, the
    first success winning: its result is the first of (override file, hosted
    login, normalised local name) that produces a handle, and a later source
    is consulted only when the earlier ones produced nothing.  So a valid
    override file wins over a working hosted-login probe, its value being
    returned trimmed and tagged [manual_config]; and the resolution fails,
    with [IdentityUnresolved], exactly when all three produce nothing. *)
Theorem identity_resolution_order {W} (h : handler W) (w : W) (cfg : option string) :
  let a1 := (overrideAnswer h cfg w).1 in
  let w1 := (overrideAnswer h cfg w).2 in
  let a2 := (h ghLoginProbe w1).1 in
  let w2 := (h ghLoginProbe w1).2 in
  let a3 := (h gitUserName w2).1 in
  let R := run h (detectUsername cfg) w in
  result R = resolveIdentity_spec
               [fromOverrideFile a1; fromHostedLogin a2; fromLocalConfig a3]
  /\ trace R
     = trace (run h (detectUsername_override cfg) w)
       ++ match fromOverrideFile a1 with
          | Some _ => []
          | None =>
              Event ghLoginProbe a2
              :: match fromHostedLogin a2 with
                 | Some _ => []
                 | None => [Event gitUserName a3]
                 end
          end
  /\ (forall content value,
        a1 = Some content -> matchUsernameAssignment content = Some value ->
        result R = inr {| username := Js.trim value; source := manual_config |}
        /\ trace R = trace (run h (detectUsername_override cfg) w))
  /\ ((exists e, result R = inl e) <->
      fromOverrideFile a1 = None /\ fromHostedLogin a2 = None
      /\ fromLocalConfig a3 = None)
  /\ (forall e, result R = inl e -> e = IdentityUnresolved).
Proof.
  intros a1 w1 a2 w2 a3 R.
  pose proof (detectUsername_result h cfg w) as Hres.
  pose proof (detectUsername_trace h cfg w) as Htr.
  cbv zeta in Hres, Htr. fold a1 w1 a2 w2 a3 in Hres, Htr. fold R in Hres, Htr.
  split; [exact Hres|]. split; [exact Htr|].
  rewrite Hres, Htr. unfold resolveIdentity_spec.
  split; [|split].
  - intros content value Ha Hm.
    assert (Hov : fromOverrideFile a1
                  = Some {| username := Js.trim value; source := manual_config |})
      by (unfold fromOverrideFile; now rewrite Ha, Hm).
    rewrite Hov. cbn. split; [reflexivity | apply app_nil_r].
  - destruct (fromOverrideFile a1) as [u1|]; cbn.
    { split; [intros [e He]; discriminate He | intros [Hn _]; discriminate Hn]. }
    destruct (fromHostedLogin a2) as [u2|]; cbn.
    { split; [intros [e He]; discriminate He | intros (_ & Hn & _); discriminate Hn]. }
    destruct (fromLocalConfig a3) as [u3|]; cbn.
    { split; [intros [e He]; discriminate He | intros (_ & _ & Hn); discriminate Hn]. }
    split; [auto | intros _; eexists; reflexivity].
  - intros e.
    destruct (fromOverrideFile a1) as [u1|]; cbn; [discriminate|].
    destruct (fromHostedLogin a2) as [u2|]; cbn; [discriminate|].
    destruct (fromLocalConfig a3) as [u3|]; cbn; [discriminate|].
    now intros [= <-].
Qed.

Lemma identity_resolution_order_witness :
  result (run (scripted overrideAndLogin)
            (detectUsername (Some "/repo/.worktree-config")) tt)
  = inr {| username := "alice"; source := manual_config |}.
Proof.
  destruct (identity_resolution_order (scripted overrideAndLogin) tt
              (Some "/repo/.worktree-config")) as (_ & _ & H & _).
  exact (proj1 (H "USERNAME= alice " " alice " eq_refl eq_refl)).
Defined.

(** ** A blank override value *)

Lemma untilLineTerminator_blank (v : string) :
  blankValue v -> untilLineTerminator v = v.
Proof.
  unfold blankValue. induction v as [| c v IH]; simpl; intros H; [reflexivity|].
  inversion H as [| ? ? [_ Hc] Hv]; subst. rewrite Hc. now rewrite IH.
Qed.

Lemma trim_blank (v : string) : blankValue v -> Js.trim v = "".
Proof.
  unfold blankValue, Js.trim. induction v as [| c v IH]; simpl; intros H; [reflexivity|].
  inversion H as [| ? ? [Hc _] Hv]; subst. rewrite Hc. now apply IH.
Qed.

Lemma matchUsernameAssignment_blank (v : string) :
  v <> "" -> blankValue v ->
  matchUsernameAssignment ("USERNAME=" +:+ v) = Some v.
Proof.
  intros Hne Hv. rewrite !append_cons, append_nil.
  cbn [matchUsernameAssignment]. unfold matchUsernameHere.
  cbn [Js.startsWith String.prefix Js.substringFrom].
  repeat (destruct (ascii_dec _ _) as [_|Hn]; [|exfalso; apply Hn; reflexivity]).
  rewrite untilLineTerminator_blank by assumption.
  destruct v; [contradiction|reflexivity].
Qed.

(** C10.  An override file holding [USERNAME=] followed by white space only
    makes [detectUsername] return the empty handle tagged [manual_config]:
    the override path does not test the trimmed value.  The git-config
    fallback does test its normalised value: a display name that normalises
    to the empty string produces nothing, and with no other source the
    resolution fails. *)
Theorem override_blank_value_gives_empty_handle {W} (h : handler W) (w w' : W)
    (p v name : string) :
  Js.truthy p = true ->
  v <> "" ->
  blankValue v ->
  (h (FsReadFile p) w).1 = Some ("USERNAME=" +:+ v) ->
  (h ghLoginProbe w').1 = None ->
  (h gitUserName (h ghLoginProbe w').2).1 = Some (Some name) ->
  normalizeUsername name = "" ->
  result (run h (detectUsername (Some p)) w)
    = inr {| username := ""; source := manual_config |}
  /\ result (run h (detectUsername None) w') = inl IdentityUnresolved.
Proof.
  intros Hp Hne Hv Hfile Hgh Hcfg Hnorm. split.
  - rewrite detectUsername_result. unfold overrideAnswer. rewrite Hp.
    destruct (h (FsReadFile p) w) as [a1 w1]. cbn in Hfile. subst a1.
    cbn [fst snd]. unfold fromOverrideFile.
    rewrite matchUsernameAssignment_blank, trim_blank by assumption.
    reflexivity.
  - rewrite detectUsername_result. cbn [overrideAnswer fst snd].
    unfold ghLoginProbe, gitUserName in *.
    destruct (h (Exec "gh api user --jq .login" None 5000) w') as [a2 w2].
    cbn in Hgh, Hcfg. subst a2. cbn [fst snd].
    destruct (h (GitGetConfig "user.name") w2) as [a3 w3].
    cbn in Hcfg. subst a3.
    cbn [fst snd]. unfold fromLocalConfig. rewrite Hnorm. reflexivity.
Qed.

Lemma override_blank_value_gives_empty_handle_witness :
  result (run (scripted blankOverride)
            (detectUsername (Some "/repo/.worktree-config")) tt)
    = inr {| username := ""; source := manual_config |}
  /\ result (run (scripted blankOverride) (detectUsername None) tt)
     = inl IdentityUnresolved.
Proof.
  apply (override_blank_value_gives_empty_handle (scripted blankOverride) tt tt
           "/repo/.worktree-config" "   " "!!!").
  - reflexivity.
  - discriminate.
  - repeat constructor.
  - reflexivity.
  - reflexivity.
  - reflexivity.
  - reflexivity.
Defined.

(** ** Worktree enumeration *)

Lemma listWorktrees_line_inv (st : list WorktreeInfo * WorktreeInfo) (line : string) :
  parseInv st -> parseInv (listWorktrees_line st line).
Proof.
  destruct st as [res cur]. unfold parseInv, listWorktrees_line; simpl.
  intros [Hres Hcur].
  destruct (Js.startsWith "worktree " line).
  { destruct (truthyOpt (wt_path cur)) eqn:Hp; simpl; split; auto.
    apply Forall_app; split; [assumption|].
    constructor; [split; auto | constructor]. }
  destruct (Js.startsWith "HEAD " line); [simpl; auto|].
  destruct (Js.startsWith "branch " line); [simpl; auto|].
  destruct (String.eqb line ""); [|simpl; auto].
  destruct (truthyOpt (wt_path cur)) eqn:Hp; simpl; split; auto.
  - apply Forall_app; split; [assumption|].
    constructor; [split; auto | constructor].
  - discriminate.
  - rewrite Hp. discriminate.
Qed.

Lemma fold_listWorktrees_inv (lines : list string) st :
  parseInv st -> parseInv (fold_left listWorktrees_line lines st).
Proof.
  revert st. induction lines as [| l lines IH]; simpl; intros st H; [exact H|].
  apply IH, listWorktrees_line_inv, H.
Qed.

Lemma parseWorktreeList_shape (txt : string) :
  parseWorktreeList txt = []
  \/ exists first rest,
       parseWorktreeList txt = first :: rest
       /\ wt_isMain first = Some true
       /\ truthyOpt (wt_path first) = true
       /\ Forall auxiliary rest.
Proof.
  unfold parseWorktreeList.
  assert (H : parseInv (fold_left listWorktrees_line (Js.split "010" txt)
                          ([], emptyWorktree))).
  { apply fold_listWorktrees_inv. split; simpl; [constructor | discriminate]. }
  destruct H as [H _].
  destruct (fold_left _ _ _).1 as [| x rest]; simpl; [left; reflexivity|].
  right. inversion H as [| ? ? [_ Hp] Hrest]; subst.
  eexists _, rest. repeat split; auto.
Qed.

Lemma run_listWorktrees {W} (h : handler W) (repoPath : string) (w : W) :
  result (run h (listWorktrees repoPath) w)
  = match (h (GitWorktreeList (Some repoPath)) w).1 with
    | Some txt => inr (parseWorktreeList txt)
    | None => inl (CollaboratorFailed (GitWorktreeList (Some repoPath)))
    end
  /\ final (run h (listWorktrees repoPath) w)
     = (h (GitWorktreeList (Some repoPath)) w).2.
Proof.
  unfold listWorktrees.
  rewrite run_bind, (run_await h (GitWorktreeList (Some repoPath))).
  destruct (h (GitWorktreeList (Some repoPath)) w) as [[txt|] w1];
    unfold andThen; simpl; split; reflexivity.
Qed.

Lemma count_main_auxiliary (rest : list WorktreeInfo) :
  Forall auxiliary rest ->
  List.filter (fun x => truthyFlag (wt_isMain x)) rest = [].
Proof.
  induction 1 as [| x rest [Hx _] _ IH]; simpl; [reflexivity|].
  rewrite Hx. simpl. exact IH.
Qed.

(** ** The list tool *)

Section ListTool.
Context {W : Type} (h : handler W).

Lemma run_getMainRepoRoot (cwd : option string) (w : W) :
  run h (getMainRepoRoot cwd) w
  = MkRun (match (h (GitWorktreeList cwd) w).1 with
           | Some txt =>
               match mainRootOf txt with
               | Some root => inr root
               | None => inl NotARepository
               end
           | None => inl (CollaboratorFailed (GitWorktreeList cwd))
           end)
          (h (GitWorktreeList cwd) w).2
          [Event (GitWorktreeList cwd) (h (GitWorktreeList cwd) w).1].
Proof.
  unfold getMainRepoRoot, mainRootOf.
  rewrite run_bind, (run_await h (GitWorktreeList cwd)).
  destruct (h (GitWorktreeList cwd) w) as [[txt|] w1];
    unfold andThen; simpl; [|reflexivity].
  destruct (List.find _ _); reflexivity.
Qed.

Lemma getWorktreeStatus_fails (p : string) (w : W) :
  (h (GitStatus p) w).1 = None ->
  result (run h (getWorktreeStatus p) w) = inl (CollaboratorFailed (GitStatus p)).
Proof.
  intros Hf. unfold getWorktreeStatus.
  rewrite run_bind, (run_await h (GitStatus p)).
  destruct (h (GitStatus p) w) as [a w1]. cbn in Hf. subst a.
  reflexivity.
Qed.

(** The status of one record never fails the record. *)
Lemma run_withStatus (x : WorktreeInfo) (w : W) :
  exists st,
    result (run h (withStatus x) w) = inr {| item := x; status := st |}
    /\ (forall p, wt_path x = Some p ->
                  (forall w', (h (GitStatus p) w').1 = None) -> st = None).
Proof.
  unfold withStatus. destruct (truthyFlag (wt_isMain x)).
  { exists None. split; [reflexivity | auto]. }
  rewrite run_tryCatch, run_bind. unfold orCatch, andThen.
  destruct (result (run h (getWorktreeStatus (default "" (wt_path x))) w))
    as [e | st] eqn:Hst; cbn [result final trace run mret Prog_ret].
  - exists None. split; [reflexivity | auto].
  - exists (Some st). split; [reflexivity|].
    intros p Hp Hfail. rewrite Hp in Hst. cbn [default] in Hst.
    rewrite getWorktreeStatus_fails in Hst by apply Hfail. discriminate.
Qed.

Lemma run_mapProg_withStatus (ws : list WorktreeInfo) (w : W) :
  exists its,
    result (run h (mapProg withStatus ws) w) = inr its
    /\ map item its = ws
    /\ (forall it p, In it its -> wt_path (item it) = Some p ->
                     (forall w', (h (GitStatus p) w').1 = None) ->
                     status it = None).
Proof.
  revert w. induction ws as [| x ws IH]; intros w; cbn [mapProg].
  - exists []. repeat split; auto. intros it p [].
  - rewrite run_bind. unfold andThen.
    destruct (run_withStatus x w) as (st & -> & Hst).
    rewrite run_bind. unfold andThen.
    destruct (IH (final (run h (withStatus x) w))) as (its & -> & Hmap & Hits).
    cbn [result final trace run mret Prog_ret].
    exists ({| item := x; status := st |} :: its). repeat split.
    + simpl. now rewrite Hmap.
    + intros it p [<- | Hin] Hp Hfail; [now apply (Hst p) | eauto].
Qed.

Lemma filter_not_main_item (its : list WorktreeListItem) :
  map item (List.filter (fun w => negb (truthyFlag (wt_isMain (item w)))) its)
  = List.filter (fun x => negb (truthyFlag (wt_isMain x))) (map item its).
Proof.
  induction its as [| it its IH]; simpl; [reflexivity|].
  destruct (truthyFlag (wt_isMain (item it))); simpl; now rewrite IH.
Qed.

Lemma filter_not_main_parse (txt : string) :
  List.filter (fun x => negb (truthyFlag (wt_isMain x))) (parseWorktreeList txt)
  = tail (parseWorktreeList txt)
  /\ Forall (fun x => wt_isMain x = Some false) (tail (parseWorktreeList txt)).
Proof.
  destruct (parseWorktreeList_shape txt)
    as [-> | (first & rest & -> & Hm & _ & Haux)]; [split; [reflexivity|constructor]|].
  simpl. rewrite Hm. simpl. split.
  - induction Haux as [| x rest [Hx _] _ IH]; simpl; [reflexivity|].
    rewrite Hx. simpl. now rewrite IH.
  - eapply Forall_impl; [exact Haux|]. now intros x [Hx _].
Qed.

End ListTool.

Section ListToolRun.
Context {W : Type} (h : handler W).

(** The run of the list tool, case by case on the two enumerations. *)
Lemma listWorktreesTool_result (cwd : option string) (w : W) :
  let a0 := (h (GitWorktreeList cwd) w).1 in
  let w0 := (h (GitWorktreeList cwd) w).2 in
  match a0 with
  | None =>
      result (run h (listWorktreesTool cwd) w)
      = inl (CollaboratorFailed (GitWorktreeList cwd))
  | Some txt0 =>
      match mainRootOf txt0 with
      | None => result (run h (listWorktreesTool cwd) w) = inl NotARepository
      | Some root =>
          match (h (GitWorktreeList (Some root)) w0).1 with
          | None =>
              result (run h (listWorktreesTool cwd) w)
              = inl (CollaboratorFailed (GitWorktreeList (Some root)))
          | Some txt =>
              exists its,
                result (run h (listWorktreesTool cwd) w)
                = inr {| worktrees :=
                           List.filter
                             (fun x => negb (truthyFlag (wt_isMain (item x)))) its;
                         mainRepoPath := root |}
                /\ map item its = parseWorktreeList txt
                /\ (forall it p, In it its -> wt_path (item it) = Some p ->
                                 (forall w', (h (GitStatus p) w').1 = None) ->
                                 status it = None)
          end
      end
  end.
Proof.
  intros a0 w0. unfold listWorktreesTool.
  rewrite run_bind, run_getMainRepoRoot. unfold andThen.
  fold a0 w0. cbn [result final trace].
  destruct a0 as [txt0|]; [|reflexivity].
  destruct (mainRootOf txt0) as [root|]; [|reflexivity].
  rewrite run_bind. unfold andThen.
  destruct (run_listWorktrees h root w0) as [-> ->].
  destruct (h (GitWorktreeList (Some root)) w0).1 as [txt|]; [|reflexivity].
  rewrite run_bind. unfold andThen.
  destruct (run_mapProg_withStatus h (parseWorktreeList txt)
              (h (GitWorktreeList (Some root)) w0).2) as (its & -> & Hmap & Hst).
  exists its. repeat split; auto.
Qed.

End ListToolRun.

(** C9.  The list tool returns the auxiliary worktrees only: the records it
    returns are the enumerated records after the first, each with
    [isMain = false]; the main checkout appears in [mainRepoPath] alone.
    The call fails only when an enumeration fails; a record whose status
    cannot be computed is returned without a status. *)
Theorem list_tool_excludes_main {W} (h : handler W) (w : W) (cwd : option string) :
  let a0 := (h (GitWorktreeList cwd) w).1 in
  let w0 := (h (GitWorktreeList cwd) w).2 in
  let R := run h (listWorktreesTool cwd) w in
  (forall res, result R = inr res ->
     exists txt0 txt,
       a0 = Some txt0
       /\ mainRootOf txt0 = Some (mainRepoPath res)
       /\ (h (GitWorktreeList (Some (mainRepoPath res))) w0).1 = Some txt
       /\ map item (worktrees res) = tail (parseWorktreeList txt)
       /\ Forall (fun it => wt_isMain (item it) = Some false) (worktrees res)
       /\ (forall it p,
             In it (worktrees res) -> wt_path (item it) = Some p ->
             (forall w', (h (GitStatus p) w').1 = None) -> status it = None))
  /\ (forall txt0 root txt,
        a0 = Some txt0 -> mainRootOf txt0 = Some root ->
        (h (GitWorktreeList (Some root)) w0).1 = Some txt ->
        exists res, result R = inr res)
  /\ (forall e, result R = inl e ->
        e = NotARepository \/ exists c, e = CollaboratorFailed (GitWorktreeList c)).
Proof.
  intros a0 w0 R.
  pose proof (listWorktreesTool_result h cwd w) as H.
  cbv zeta in H. fold a0 w0 R in H.
  destruct a0 as [txt0|].
  2:{ split; [|split].
      - intros res Hres. rewrite H in Hres. discriminate.
      - intros ? ? ? [=].
      - intros e He. rewrite H in He. injection He as <-. right. eauto. }
  destruct (mainRootOf txt0) as [root|] eqn:Hroot.
  2:{ split; [|split].
      - intros res Hres. rewrite H in Hres. discriminate.
      - intros ? ? ? [= <-] Hr. rewrite Hroot in Hr. discriminate.
      - intros e He. rewrite H in He. injection He as <-. now left. }
  destruct (h (GitWorktreeList (Some root)) w0).1 as [txt|] eqn:Htxt.
  2:{ split; [|split].
      - intros res Hres. rewrite H in Hres. discriminate.
      - intros ? ? ? [= <-] Hr Hsome. rewrite Hroot in Hr. injection Hr as <-.
        rewrite Htxt in Hsome. discriminate.
      - intros e He. rewrite H in He. injection He as <-. right. eauto. }
  destruct H as (its & Hres & Hmap & Hst).
  split; [|split].
  - intros res Hr. rewrite Hres in Hr. injection Hr as <-. cbn [worktrees mainRepoPath].
    exists txt0, txt.
    destruct (filter_not_main_parse txt) as [Hfilter Htail].
    assert (Hitems :
      map item (List.filter (fun x => negb (truthyFlag (wt_isMain (item x)))) its)
      = tail (parseWorktreeList txt))
      by (now rewrite filter_not_main_item, Hmap).
    repeat split; auto.
    + rewrite <- Hitems in Htail.
      apply Forall_map in Htail. exact Htail.
    + intros it p Hin. apply filter_In in Hin as [Hin _]. now apply Hst.
  - intros. eauto.
  - intros e He. rewrite Hres in He. discriminate.
Qed.

Lemma list_tool_excludes_main_witness :
  exists res,
    result (run (scripted twoWorktrees) (listWorktreesTool None) tt) = inr res
    /\ mainRepoPath res = "/repos/acme"
    /\ Forall (fun it => wt_isMain (item it) = Some false) (worktrees res).
Proof.
  destruct (list_tool_excludes_main (scripted twoWorktrees) tt None) as (H1 & H2 & _).
  destruct (H2 twoWorktreesText "/repos/acme" twoWorktreesText
              eq_refl eq_refl eq_refl) as [res Hres].
  exists res. split; [exact Hres|].
  destruct (H1 res Hres) as (txt0 & txt & Ha & Hroot & _ & _ & Hall & _).
  split; [|exact Hall].
  injection Ha as <-.
  assert (Hr : Some "/repos/acme" = Some (mainRepoPath res)) by exact Hroot.
  now injection Hr as <-.
Defined.

(** ** Decimal numerals *)

Lemma digitsValue_uint (d : Decimal.uint) (acc : N) (seen : bool) :
  Js.digitsValue acc seen (NilEmpty.string_of_uint d)
  = match d with
    | Decimal.Nil => if seen then Some acc else None
    | _ => Some (hornerU acc d)
    end.
Proof.
  revert acc seen.
  induction d as [| d IH | d IH | d IH | d IH | d IH | d IH | d IH | d IH | d IH | d IH];
    intros acc seen; [reflexivity|..];
    cbn [NilEmpty.string_of_uint Js.digitsValue hornerU];
    change (Js.isDigit _) with true; cbn iota;
    rewrite IH; destruct d; try reflexivity;
    cbn [hornerU]; f_equal; f_equal; unfold Js.code; simpl; lia.
Qed.

Lemma hornerU_pos (d : Decimal.uint) (p : positive) :
  hornerU (Npos p) d = Npos (Pos.of_uint_acc d p).
Proof.
  revert p.
  induction d as [| d IH | d IH | d IH | d IH | d IH | d IH | d IH | d IH | d IH | d IH];
    intros p; [reflexivity|..]; cbn [hornerU Pos.of_uint_acc];
    rewrite <- IH; f_equal; lia.
Qed.

Lemma hornerU_zero (d : Decimal.uint) : hornerU 0 d = Pos.of_uint d.
Proof.
  induction d as [| d IH | d IH | d IH | d IH | d IH | d IH | d IH | d IH | d IH | d IH];
    [reflexivity | exact IH |..];
    cbn [hornerU Pos.of_uint]; apply hornerU_pos.
Qed.

Lemma to_uint_nonnil (n : N) : N.to_uint n <> Decimal.Nil.
Proof.
  destruct n as [| p]; [discriminate|].
  apply DecimalPos.Unsigned.to_uint_nonnil.
Qed.

Lemma digitsValue_showN (n : N) : Js.digitsValue 0 false (showN n) = Some n.
Proof.
  unfold showN. rewrite digitsValue_uint.
  pose proof (to_uint_nonnil n) as Hn.
  pose proof (DecimalN.Unsigned.of_to n) as Hof. unfold N.of_uint in Hof.
  rewrite <- hornerU_zero in Hof.
  destruct (N.to_uint n); [contradiction|..]; now rewrite Hof.
Qed.

Lemma string_of_uint_digits (d : Decimal.uint) :
  digitString (NilEmpty.string_of_uint d).
Proof.
  unfold digitString.
  induction d; cbn [NilEmpty.string_of_uint list_ascii_of_string];
    constructor; (reflexivity || assumption).
Qed.

Lemma showN_digits (n : N) : digitString (showN n) /\ showN n <> "".
Proof.
  split; [apply string_of_uint_digits|].
  unfold showN. pose proof (to_uint_nonnil n) as Hn.
  destruct (N.to_uint n); [contradiction|..]; discriminate.
Qed.

Lemma digit_not_whiteSpace (c : ascii) :
  Js.isDigit c = true -> Js.isWhiteSpace c = false.
Proof.
  destruct c as [[] [] [] [] [] [] [] []]; vm_compute; intros H;
    first [reflexivity | discriminate H].
Qed.

Lemma digit_not_tab (c : ascii) : Js.isDigit c = true -> Ascii.eqb c "009" = false.
Proof.
  destruct c as [[] [] [] [] [] [] [] []]; vm_compute; intros H;
    first [reflexivity | discriminate H].
Qed.

Lemma digit_not_sign (c : ascii) :
  Js.isDigit c = true -> c <> "-"%char /\ c <> "+"%char.
Proof.
  destruct c as [[] [] [] [] [] [] [] []]; vm_compute; intros H;
    first [discriminate H | split; discriminate].
Qed.

Lemma trimEnd_digits (s : string) : digitString s -> Js.trimEnd s = s.
Proof.
  unfold digitString. induction s as [| c s IH]; simpl; intros H; [reflexivity|].
  inversion H as [| ? ? Hc Hs]; subst. rewrite IH by assumption.
  destruct s; [now rewrite digit_not_whiteSpace | reflexivity].
Qed.

Lemma trimEnd_app_fixed (a b : string) :
  b <> "" -> Js.trimEnd b = b -> Js.trimEnd (a +:+ b) = a +:+ b.
Proof.
  intros Hne Hb. induction a as [| c a IH]; [exact Hb|].
  rewrite append_cons. cbn [Js.trimEnd]. rewrite IH.
  destruct (a +:+ b) eqn:E; [|reflexivity].
  destruct a; [now rewrite append_nil in E | discriminate].
Qed.

Lemma trimEnd_app_LF (s : string) : Js.trimEnd (s +:+ LF) = Js.trimEnd s.
Proof.
  induction s as [| c s IH]; [reflexivity|].
  rewrite append_cons. cbn [Js.trimEnd]. now rewrite IH.
Qed.

Lemma split_tab_digits (a b : string) :
  digitString a -> digitString b ->
  Js.split "009" (a +:+ TAB +:+ b) = [a; b].
Proof.
  intros Ha Hb.
  assert (Hsingle : Js.split "009" b = [b]).
  { clear Ha. unfold digitString in Hb.
    induction b as [| c b IH]; [reflexivity|].
    inversion Hb; subst. cbn [Js.split].
    rewrite digit_not_tab by assumption. now rewrite IH. }
  unfold digitString in Ha. induction a as [| c a IH].
  - rewrite append_nil. unfold TAB. rewrite append_cons, append_nil.
    cbn [Js.split]. change (Ascii.eqb "009" "009") with true. cbn iota.
    now rewrite Hsingle.
  - inversion Ha; subst. rewrite append_cons. cbn [Js.split].
    rewrite digit_not_tab by assumption. now rewrite IH.
Qed.

Lemma parseInt10_showN (n : N) : Js.parseInt10 (showN n) = Some (Z.of_N n).
Proof.
  pose proof (digitsValue_showN n) as Hv.
  destruct (showN_digits n) as [Hd Hne].
  unfold Js.parseInt10.
  destruct (showN n) as [| c s] eqn:E; [contradiction|].
  unfold digitString in Hd. inversion Hd as [| ? ? Hc _]; subst.
  cbn [Js.trimStart]. rewrite digit_not_whiteSpace by assumption.
  destruct (digit_not_sign c Hc) as [Hm Hp].
  destruct c as [[] [] [] [] [] [] [] []];
    try (exfalso; apply Hm; reflexivity);
    try (exfalso; apply Hp; reflexivity);
    now rewrite Hv.
Qed.

Lemma parseAheadBehind_revListCount (left right : gset string) :
  parseAheadBehind (revListCount left right)
  = (Z.of_nat (size (left ∖ right)), Z.of_nat (size (right ∖ left))).
Proof.
  unfold parseAheadBehind, revListCount.
  set (l := N.of_nat (size (left ∖ right))).
  set (r := N.of_nat (size (right ∖ left))).
  destruct (showN_digits l) as [Hl Hlne], (showN_digits r) as [Hr Hrne].
  assert (Htrim : Js.trim (showN l +:+ TAB +:+ showN r +:+ LF)
                  = showN l +:+ TAB +:+ showN r).
  { unfold Js.trim.
    assert (Hstart : forall t, Js.trimStart (showN l +:+ t) = showN l +:+ t).
    { intros t. destruct (showN l) as [| c s]; [contradiction|].
      unfold digitString in Hl. inversion Hl; subst.
      rewrite append_cons. cbn [Js.trimStart].
      now rewrite digit_not_whiteSpace. }
    rewrite Hstart.
    replace (showN l +:+ TAB +:+ showN r +:+ LF)
      with ((showN l +:+ TAB +:+ showN r) +:+ LF).
    2:{ now rewrite !append_assoc. }
    rewrite trimEnd_app_LF.
    replace (showN l +:+ TAB +:+ showN r) with ((showN l +:+ TAB) +:+ showN r).
    2:{ now rewrite !append_assoc. }
    apply trimEnd_app_fixed; [assumption | now apply trimEnd_digits]. }
  rewrite Htrim, split_tab_digits by assumption.
  rewrite !parseInt10_showN. unfold l, r. cbn [Js.numOrZero].
  now rewrite !nat_N_Z.
Qed.

(** ** Divergence status *)

Section Divergence.
Context {W : Type} (h : handler W).

(** The counts [getWorktreeStatus] computes, from the three answers. *)
Lemma run_getWorktreeStatus (wt : string) (files : list string) (w : W) :
  let w1 := (h (GitStatus wt) w).2 in
  let headRef := GitRevparseAbbrevRef wt "HEAD" in
  (h (GitStatus wt) w).1 = Some files ->
  exists counts,
    result (run h (getWorktreeStatus wt) w)
    = inr {| clean := Nat.eqb (length files) 0;
             ahead := snd counts;
             behind := fst counts;
             uncommitted := negb (Nat.eqb (length files) 0) |}
    /\ match (h headRef w1).1 with
       | Some branch =>
           let up := GitRevparseAbbrevRef wt (branch +:+ "@{upstream}") in
           let w2 := (h headRef w1).2 in
           match (h up w2).1 with
           | Some tracking =>
               match (h (GitRevListCount wt (tracking +:+ "..." +:+ branch))
                        (h up w2).2).1 with
               | Some out => counts = parseAheadBehind out
               | None => counts = (0%Z, 0%Z)
               end
           | None => counts = (0%Z, 0%Z)
           end
       | None => counts = (0%Z, 0%Z)
       end.
Proof.
  intros w1 headRef Hfiles. unfold getWorktreeStatus.
  rewrite run_bind, (run_await h (GitStatus wt)). subst w1.
  destruct (h (GitStatus wt) w) as [a w1]. cbn in Hfiles. subst a.
  unfold andThen. cbn [result final trace fst snd].
  rewrite run_bind, run_tryCatch, run_bind. fold headRef.
  rewrite (run_await h headRef).
  destruct (h headRef w1) as [[branch|] w2]; unfold andThen, orCatch;
    cbn [result final trace fst snd run mret Prog_ret].
  2:{ eexists (_, _). split; reflexivity. }
  rewrite run_bind,
    (run_await h (GitRevparseAbbrevRef wt (branch +:+ "@{upstream}"))).
  destruct (h (GitRevparseAbbrevRef wt (branch +:+ "@{upstream}")) w2)
    as [[tracking|] w3]; unfold andThen;
    cbn [result final trace fst snd run mret Prog_ret].
  2:{ eexists (_, _). split; reflexivity. }
  rewrite run_bind,
    (run_await h (GitRevListCount wt (tracking +:+ "..." +:+ branch))).
  destruct (h (GitRevListCount wt (tracking +:+ "..." +:+ branch)) w3)
    as [[out|] w4]; unfold andThen;
    cbn [result final trace fst snd run mret Prog_ret].
  2:{ eexists (_, _). split; reflexivity. }
  exists (parseAheadBehind out). split; reflexivity.
Qed.

End Divergence.

(** C6.  For a worktree (its status query answers) on a branch, the
    divergence computation succeeds; [clean] holds exactly when no file is
    modified; with an upstream configured, [behind] is the number of commits
    reachable from the upstream only and [ahead] the number reachable from
    HEAD only; with none configured both counts are 0.  The counts are below
    2^53, the range in which the engine's numbers are exact. *)
Theorem divergence_counts {W} (h : handler W) (w : W) (wt branch : string)
    (files : list string) (upstream head : gset string) :
  let w1 := (h (GitStatus wt) w).2 in
  let headRef := GitRevparseAbbrevRef wt "HEAD" in
  let w2 := (h headRef w1).2 in
  let up := GitRevparseAbbrevRef wt (branch +:+ "@{upstream}") in
  (h (GitStatus wt) w).1 = Some files ->
  (h headRef w1).1 = Some branch ->
  (Z.of_nat (size (upstream ∖ head)) < 2 ^ 53)%Z ->
  (Z.of_nat (size (head ∖ upstream)) < 2 ^ 53)%Z ->
  exists st,
    result (run h (getWorktreeStatus wt) w) = inr st
    /\ (clean st = true <-> files = [])
    /\ uncommitted st = negb (clean st)
    /\ (forall tracking,
          (h up w2).1 = Some tracking ->
          (h (GitRevListCount wt (tracking +:+ "..." +:+ branch)) (h up w2).2).1
            = Some (revListCount upstream head) ->
          behind st = Z.of_nat (size (upstream ∖ head))
          /\ ahead st = Z.of_nat (size (head ∖ upstream)))
    /\ ((h up w2).1 = None -> ahead st = 0%Z /\ behind st = 0%Z).
Proof.
  intros w1 headRef w2 up Hfiles Hbranch _ _.
  destruct (run_getWorktreeStatus h wt files w Hfiles) as (counts & Hres & Hcounts).
  fold w1 headRef in Hcounts. cbv zeta in Hcounts.
  subst w2 up. destruct (h headRef w1) as [a w2]. cbn in Hbranch. subst a.
  cbn [fst snd] in *.
  eexists. split; [exact Hres|]. cbn [clean ahead behind uncommitted].
  split; [|split; [reflexivity|split]].
  - destruct files; simpl; split; congruence.
  - intros tracking Hup Hout.
    set (upc := GitRevparseAbbrevRef wt (branch +:+ "@{upstream}")) in *.
    destruct (h upc w2) as [a w3]. cbn in Hup. subst a. cbn [fst snd] in *.
    destruct (h (GitRevListCount wt (tracking +:+ "..." +:+ branch)) w3) as [a w4].
    cbn in Hout. subst a. cbn [fst snd] in *.
    subst counts. rewrite parseAheadBehind_revListCount. split; reflexivity.
  - intros Hup.
    set (upc := GitRevparseAbbrevRef wt (branch +:+ "@{upstream}")) in *.
    destruct (h upc w2) as [a w3]. cbn in Hup. subst a. cbn [fst snd] in *.
    subst counts. split; reflexivity.
Qed.

Lemma divergence_counts_witness :
  exists st,
    result (run (scripted divergedWorktree)
              (getWorktreeStatus "/repos/acme-worktrees/alice/CO-100/x") tt) = inr st
    /\ clean st = true /\ behind st = 1%Z /\ ahead st = 2%Z.
Proof.
  destruct (divergence_counts (scripted divergedWorktree) tt
              "/repos/acme-worktrees/alice/CO-100/x" "feature" []
              divergedUpstream divergedHead)
    as (st & Hres & Hclean & _ & Hup & _).
  - reflexivity.
  - reflexivity.
  - vm_compute. reflexivity.
  - vm_compute. reflexivity.
  - exists st. split; [exact Hres|]. split; [now apply Hclean|].
    destruct (Hup "origin/feature") as [Hb Ha].
    + reflexivity.
    + reflexivity.
    + rewrite Hb, Ha. split; vm_compute; reflexivity.
Defined.

(** ** Pruning after a removal *)

Lemma prefix_length (p s : string) :
  String.prefix p s = true -> (String.length p <= String.length s)%nat.
Proof.
  revert s. induction p as [| a p IH]; intros s; simpl; [lia|].
  destruct s as [| b s]; simpl; [intros H; discriminate H|].
  destruct (ascii_dec a b); [|intros H; discriminate H].
  intros H. apply IH in H. simpl. lia.
Qed.

Lemma includes_length (p s : string) :
  Js.includes p s = true -> (String.length p <= String.length s)%nat.
Proof.
  induction s as [| b s IH]; cbn [Js.includes]; intros H.
  - apply orb_true_iff in H as [H | H]; [now apply prefix_length | discriminate].
  - apply orb_true_iff in H as [H | H]; [now apply prefix_length|].
    apply IH in H. simpl. lia.
Qed.

Lemma dropWhileB_length {A} (f : A -> bool) (l : list A) :
  (length (NodePath.dropWhileB f l) <= length l)%nat.
Proof.
  induction l as [| x l IH]; simpl; [lia|].
  destruct (f x); simpl; lia.
Qed.

Lemma ofChars_length (l : list ascii) :
  String.length (NodePath.ofChars l) = length l.
Proof. induction l as [| x l IH]; simpl; [reflexivity | now rewrite IH]. Qed.

Lemma chars_length (s : string) : length (NodePath.chars s) = String.length s.
Proof. induction s as [| x s IH]; simpl; [reflexivity | now rewrite IH]. Qed.

(** [dirname] yields one of the short answers or a strictly shorter path. *)
Lemma dirname_length (d : string) :
  (String.length (NodePath.dirname d) <= 2)%nat
  \/ (String.length (NodePath.dirname d) < String.length d)%nat.
Proof.
  destruct d as [| c0 rest]; [left; simpl; lia|].
  unfold NodePath.dirname.
  pose proof (dropWhileB_length (fun c => negb (NodePath.isSlash c))
                (NodePath.dropWhileB NodePath.isSlash (rev (NodePath.chars rest)))) as H1.
  pose proof (dropWhileB_length NodePath.isSlash (rev (NodePath.chars rest))) as H2.
  rewrite length_rev, chars_length in H2.
  destruct (NodePath.dropWhileB (fun c => negb (NodePath.isSlash c)) _) as [| x before].
  - left. destruct (NodePath.isSlash c0); simpl; lia.
  - destruct before as [| y before].
    + left. destruct (NodePath.isSlash c0); simpl; lia.
    + right. cbn [String.length]. rewrite ofChars_length, length_rev.
      simpl in H1. cbn [length]. lia.
Qed.

Lemma guard_dirname_shorter (env : ProcessEnv) (d : string) :
  pruneGuard env d = true ->
  (String.length (NodePath.dirname d) < String.length d)%nat.
Proof.
  unfold pruneGuard. intros H.
  apply andb_true_iff in H as [_ H]. apply includes_length in H. simpl in H.
  destruct (dirname_length d); lia.
Qed.

Lemma pruneLoop_wp (env : ProcessEnv) (fuel : nat) (d : string) (acc : list string) :
  (String.length d <= fuel)%nat ->
  wp anyAnswer
     (fun tr res => exists ds, res = inr (acc ++ ds) /\ pruneWalk env d tr ds)
     (pruneLoop env fuel d acc).
Proof.
  revert d acc. induction fuel as [| fuel IH]; intros d acc Hlen.
  - cbn [pruneLoop]. destruct (pruneGuard env d) eqn:Hg.
    + apply guard_dirname_shorter in Hg. lia.
    + simpl. exists []. split; [now rewrite app_nil_r | now constructor].
  - cbn [pruneLoop]. destruct (pruneGuard env d) eqn:Hg.
    2:{ simpl. exists []. split; [now rewrite app_nil_r | now constructor]. }
    cbn [wp]. intros [[| entry entries] |] _.
    + cbn [length Nat.eqb wp]. intros [[] |] _.
      * eapply wp_mono; [|apply (IH (NodePath.dirname d) (acc ++ [d]))].
        -- cbn beta. intros tr res (ds & -> & Hwalk).
           exists (d :: ds). split; [now rewrite <- app_assoc | now constructor].
        -- apply guard_dirname_shorter in Hg. lia.
      * cbn [wp mret Prog_ret]. exists []. split; [now rewrite app_nil_r | now constructor].
    + cbn [length Nat.eqb wp mret Prog_ret].
      exists []. split; [now rewrite app_nil_r | now constructor].
    + cbn [wp mret Prog_ret].
      exists []. split; [now rewrite app_nil_r | now constructor].
Qed.

(** What a walk guarantees about the calls it made. *)
Lemma pruneWalk_facts (env : ProcessEnv) (d : string) (tr : list event)
    (ds : list string) :
  pruneWalk env d tr ds ->
  ds = omap removedDir tr
  /\ Forall (fun e => isDirCall (eventCall e) = true) tr
  /\ (forall e x, In e tr -> rmdirCall e = Some x ->
        pruneGuard env x = true
        /\ exists e', In e' tr /\ readEmpty e' = Some x)
  /\ (forall pre e post, tr = pre ++ e :: post -> readNonEmpty e = true -> post = []).
Proof.
  induction 1 as [d Hg | d Hg | d entry entries Hg | d Hg | d tr ds Hg Hwalk IH].
  - split; [reflexivity|]. split; [constructor|]. split.
    + intros ev x [].
    + intros [| ? ?] ev post Heq; discriminate Heq.
  - split; [reflexivity|]. split; [repeat constructor|]. split.
    + intros ev x [<- | []]; discriminate.
    + intros [| ? [| ? ?]] ev post Heq; try discriminate Heq.
      injection Heq as <- <-. reflexivity.
  - split; [reflexivity|]. split; [repeat constructor|]. split.
    + intros ev x [<- | []]; discriminate.
    + intros [| ? [| ? ?]] ev post Heq; try discriminate Heq.
      injection Heq as <- <-. reflexivity.
  - split; [reflexivity|]. split; [repeat constructor|]. split.
    + intros ev x [<- | [<- | []]]; [discriminate|].
      intros [= <-]. split; [exact Hg|].
      eexists. split; [left; reflexivity | reflexivity].
    + intros [| ? [| ? [| ? ?]]] ev post Heq; try discriminate Heq.
      * injection Heq as <- <-. discriminate.
      * injection Heq as _ <- <-. reflexivity.
  - destruct IH as (Hds & Hall & Hrm & Hstop).
    split; [cbn; now rewrite Hds|]. split; [repeat constructor; exact Hall|]. split.
    + intros ev x [<- | [<- | Hin]].
      * discriminate.
      * intros [= <-]. split; [exact Hg|].
        eexists. split; [left; reflexivity | reflexivity].
      * intros Hx. destruct (Hrm ev x Hin Hx) as (Hgx & e' & Hin' & He').
        split; [exact Hgx|]. exists e'. split; [right; right; exact Hin' | exact He'].
    + intros [| ? [| ? pre]] ev post Heq.
      * injection Heq as <- <-. discriminate.
      * injection Heq as _ <- <-. discriminate.
      * injection Heq as _ _ Heq. now apply (Hstop pre ev post).
Qed.

Lemma confined_getMainRepoRoot (P : call -> Prop) (cwd : option string) :
  P (GitWorktreeList cwd) -> confined P notFuel (getMainRepoRoot cwd).
Proof.
  intros Hc. unfold getMainRepoRoot.
  apply confined_bind; [apply confined_await; [exact Hc | discriminate]|].
  intros txt. destruct (List.find _ _);
    [apply confined_ret | apply confined_throw; discriminate].
Qed.

Lemma cleanupPost_stable (env : ProcessEnv) (args : CleanupWorktreeArgs)
    (e : event) (tr : list event) (res : error + CleanupWorktreeResult) :
  nonDirCall (eventCall e) -> cleanupPost env args tr res ->
  cleanupPost env args (e :: tr) res.
Proof.
  intros He. destruct res as [err | r]; simpl.
  - intros [Hf Htr]. split; [exact Hf | now constructor].
  - intros (pre & walk & -> & Hpre & Hwalk).
    exists (e :: pre), walk. split; [reflexivity|]. split; [now constructor | exact Hwalk].
Qed.

Lemma cleanup_wp (env : ProcessEnv) (args : CleanupWorktreeArgs) :
  wp anyAnswer (cleanupPost env args) (cleanupWorktreeTool env args).
Proof.
  assert (Hfail : forall e, notFuel e -> cleanupPost env args [] (inl e))
    by (intros e He; split; [exact He | constructor]).
  unfold cleanupWorktreeTool.
  apply (wp_bind_confined nonDirCall notFuel);
    [apply cleanupPost_stable | exact Hfail
    | now apply confined_getMainRepoRoot |].
  intros mainRepoPath.
  apply (wp_bind_confined nonDirCall notFuel);
    [apply cleanupPost_stable | exact Hfail | |].
  { apply (confined_tryCatch _ _ (fun _ => True)).
    - apply confined_bind; [now apply confined_await|].
      intros b. apply confined_ret.
    - intros e. apply confined_ret. }
  intros branchName.
  apply (wp_bind_confined nonDirCall notFuel);
    [apply cleanupPost_stable | exact Hfail | |].
  { apply confined_await; [reflexivity | discriminate]. }
  intros _.
  apply (wp_bind_confined nonDirCall notFuel);
    [apply cleanupPost_stable | exact Hfail | |].
  { destruct (default false (cl_deleteBranch args) && truthyOpt branchName);
      [|apply confined_ret].
    apply (confined_tryCatch _ _ (fun _ => True)).
    - apply confined_bind; [now apply confined_await|].
      intros b. apply confined_ret.
    - intros e. apply confined_ret. }
  intros branchDeleted.
  apply wp_bind. eapply wp_mono; [|apply pruneLoop_wp; lia].
  cbn beta. intros tr res (ds & -> & Hwalk). simpl.
  exists [], (tr ++ []). split; [reflexivity|]. split; [constructor|].
  now rewrite app_nil_r.
Qed.

Lemma rmdirCall_dir (e : event) (d : string) :
  rmdirCall e = Some d -> isDirCall (eventCall e) = true.
Proof. destruct e as [c r]. unfold rmdirCall. simpl. now destruct c. Qed.

Lemma readNonEmpty_dir (e : event) :
  readNonEmpty e = true -> isDirCall (eventCall e) = true.
Proof. destruct e as [c r]. simpl. now destruct c. Qed.

Lemma removedDir_nonDir (tr : list event) :
  Forall (fun ev => nonDirCall (eventCall ev)) tr -> omap removedDir tr = [].
Proof.
  induction 1 as [| e tr He _ IH]; [reflexivity|].
  cbn [omap list_omap]. rewrite IH.
  destruct e as [c r]. unfold nonDirCall in He. simpl in He.
  destruct c; try discriminate He; reflexivity.
Qed.

Lemma rmdirCall_nonDir (tr : list event) :
  Forall (fun ev => nonDirCall (eventCall ev)) tr -> omap rmdirCall tr = [].
Proof.
  induction 1 as [| e tr He _ IH]; [reflexivity|].
  cbn [omap list_omap]. rewrite IH.
  destruct e as [c r]. unfold nonDirCall in He. unfold rmdirCall. simpl in *.
  destruct c; try discriminate He; reflexivity.
Qed.

Lemma pruneGuard_true (env : ProcessEnv) (d : string) :
  pruneGuard env d = true ->
  d <> "/" /\ HOME env <> Some d /\ Js.includes "-worktrees" d = true.
Proof.
  unfold pruneGuard. intros H.
  apply andb_true_iff in H as [H Hinc].
  apply andb_true_iff in H as [Hroot Hhome].
  split; [|split; [|exact Hinc]].
  - intros ->. discriminate Hroot.
  - intros Heq. rewrite Heq in Hhome. now rewrite String.eqb_refl in Hhome.
Qed.



(** ** Pull requests from the trunk branch *)

Lemma onMasterNoCommits_obeys :
  obeys (scripted onMasterNoCommits) (headIsTrunk "/repos/acme").
Proof.
  intros c w. destruct c; try exact I.
  simpl. intros _ ->. now left.
Qed.


Lemma createPRTool_on_trunk_wp (env : ProcessEnv) (args : CreatePRArgs) :
  wp (headIsTrunk (pr_worktreePath args))
     (fun tr res =>
        noNetworkCall tr
        /\ res = inl (refusalOf tr)
        /\ (omap logQuery tr = [] <-> contentSupplied args = true))
     (createPRTool env args).
Proof.
  unfold createPRTool, generatePRContent, getCommitsSinceBase, createPullRequest,
    contentSupplied.
  destruct (truthyOpt (pr_argTitle args)) eqn:Ht;
    destruct (truthyOpt (pr_argBody args)) eqn:Hb; cbn -[String.eqb].
  (* title and body supplied: the branch test comes first *)
  1: intros r Hr; destruct (Hr eq_refl eq_refl) as [-> | ->]; cbn;
     (split; [repeat constructor | split; [reflexivity | split; reflexivity]]).
  (* content to be generated: the commit log is queried before the test *)
  all: intros r Hr; destruct (Hr eq_refl eq_refl) as [-> | ->]; cbn -[String.eqb].
  all: intros [[| c0 commits] |] _; cbn -[String.eqb].
  all: try (split; [repeat constructor
                   | split; [reflexivity | split; discriminate]]).
  all: intros r' Hr'; destruct (Hr' eq_refl eq_refl) as [-> | ->]; cbn.
  all: split; [repeat constructor | split; [reflexivity | split; discriminate]].
Qed.



(** ** The creation plan *)

(** C3, as stated, fails: the path is normalised, so a ticket [..] (valid:
    not empty after trimming) takes the worktree out of the handle's
    directory. *)
Lemma createPlan_format_as_stated_fails : ~ createPlan_format_as_stated.
Proof.
  intros H.
  destruct (H "/home/u/acme" "acme" "alice" ".." "x" eq_refl eq_refl) as [_ Hpath].
  vm_compute in Hpath. discriminate Hpath.
Qed.

Lemma append_length (a b : string) :
  String.length (a +:+ b) = (String.length a + String.length b)%nat.
Proof.
  induction a as [| c a IH]; [reflexivity|].
  rewrite append_cons. simpl. now rewrite IH.
Qed.

Lemma hasSlash_app (a b : string) : hasSlash (a +:+ b) = hasSlash a || hasSlash b.
Proof.
  induction a as [| c a IH]; [reflexivity|].
  rewrite append_cons. simpl. rewrite IH. now rewrite orb_assoc.
Qed.

Lemma split_noSlash (s : string) :
  hasSlash s = false -> Js.split NodePath.slash s = [s].
Proof.
  induction s as [| c s IH]; [reflexivity|].
  simpl. intros H. apply orb_false_iff in H as [Hc Hs].
  unfold NodePath.isSlash in Hc. rewrite Hc. now rewrite IH.
Qed.

Lemma split_app_slash (a b : string) :
  hasSlash a = false ->
  Js.split NodePath.slash (a +:+ "/" +:+ b) = a :: Js.split NodePath.slash b.
Proof.
  induction a as [| c a IH]; intros H.
  - reflexivity.
  - simpl in H. apply orb_false_iff in H as [Hc Ha].
    rewrite append_cons. cbn [Js.split].
    unfold NodePath.isSlash in Hc. rewrite Hc. now rewrite IH.
Qed.

Lemma split_absolutePath (segs : list string) :
  Forall (fun s => hasSlash s = false) segs -> segs <> [] ->
  Js.split NodePath.slash (absolutePath segs) = "" :: segs.
Proof.
  induction 1 as [| s rest Hs Hrest IH]; intros Hne; [contradiction|].
  cbn [absolutePath]. rewrite append_cons, append_nil. cbn [Js.split].
  change (Ascii.eqb "/" NodePath.slash) with true. cbn iota. f_equal.
  destruct rest as [| s' rest'].
  - cbn [absolutePath]. rewrite append_nil_r. now apply split_noSlash.
  - specialize (IH ltac:(discriminate)).
    cbn [absolutePath] in *. rewrite append_cons, append_nil in IH.
    cbn [Js.split] in IH. change (Ascii.eqb "/" NodePath.slash) with true in IH.
    cbn iota in IH. injection IH as IH.
    rewrite split_app_slash by assumption. now rewrite IH.
Qed.

Lemma ordinary_facts (s : string) :
  isOrdinarySegment s = true ->
  Js.truthy s = true /\ String.eqb s "" = false /\ String.eqb s "." = false
  /\ String.eqb s ".." = false /\ hasSlash s = false.
Proof.
  unfold isOrdinarySegment. intros H.
  apply andb_true_iff in H as [H H4]. apply andb_true_iff in H as [H H3].
  apply andb_true_iff in H as [H1 H2].
  apply negb_true_iff in H2, H3, H4.
  repeat split; auto. now destruct s.
Qed.

Lemma normStep_ordinary (above : bool) (stack : list string) (s : string) :
  isOrdinarySegment s = true -> NodePath.normStep above stack s = s :: stack.
Proof.
  intros H. destruct (ordinary_facts s H) as (_ & H0 & H1 & H2 & _).
  unfold NodePath.normStep. now rewrite H0, H1, H2.
Qed.

Lemma fold_normStep_ordinary (above : bool) (segs stack : list string) :
  Forall (fun s => isOrdinarySegment s = true) segs ->
  fold_left (NodePath.normStep above) segs stack = rev segs ++ stack.
Proof.
  intros H. revert stack.
  induction H as [| s segs Hs _ IH]; intros stack; [reflexivity|].
  cbn [fold_left]. rewrite normStep_ordinary by assumption.
  rewrite IH. cbn [rev]. now rewrite <- app_assoc.
Qed.

Lemma lastIsSlash_app (a b : string) :
  b <> "" -> NodePath.lastIsSlash (a +:+ b) = NodePath.lastIsSlash b.
Proof.
  intros Hb. induction a as [| c a IH]; [reflexivity|].
  rewrite append_cons. cbn [NodePath.lastIsSlash].
  destruct (a +:+ b) eqn:E; [|exact IH].
  destruct a; [now rewrite append_nil in E | discriminate].
Qed.

Lemma lastIsSlash_noSlash (s : string) :
  hasSlash s = false -> NodePath.lastIsSlash s = false.
Proof.
  induction s as [| c s IH]; [reflexivity|].
  simpl. intros H. apply orb_false_iff in H as [Hc Hs].
  destruct s; [exact Hc | now apply IH].
Qed.

Lemma absolutePath_app (a b : list string) :
  absolutePath (a ++ b) = absolutePath a +:+ absolutePath b.
Proof.
  induction a as [| s a IH]; [reflexivity|].
  cbn [app absolutePath]. rewrite IH. now rewrite !append_assoc.
Qed.

Lemma absolutePath_last (a : list string) (x : string) :
  x <> "" -> hasSlash x = false ->
  NodePath.lastIsSlash (absolutePath (a ++ [x])) = false.
Proof.
  intros Hx Hs. rewrite absolutePath_app. cbn [absolutePath].
  rewrite append_nil_r, <- append_assoc.
  rewrite lastIsSlash_app by assumption. now apply lastIsSlash_noSlash.
Qed.

Lemma slash_join (l : list string) :
  l <> [] -> "/" +:+ Js.join "/" l = absolutePath l.
Proof.
  induction l as [| x l IH]; intros Hne; [contradiction|].
  destruct l as [| y l].
  - cbn [Js.join absolutePath]. now rewrite append_nil_r.
  - change (absolutePath (x :: y :: l)) with ("/" +:+ x +:+ absolutePath (y :: l)).
    rewrite <- IH by discriminate. reflexivity.
Qed.

Lemma join_truthy (l : list string) :
  l <> [] -> Forall (fun s => Js.truthy s = true) l -> Js.join "/" l <> "".
Proof.
  intros Hne Hall. destruct Hall as [| x l Hx _]; [contradiction|].
  destruct x as [| c x]; [discriminate Hx|].
  destruct l; cbn [Js.join]; [discriminate|].
  rewrite append_cons. discriminate.
Qed.

(** [normalize] on an absolute path given by its segments. *)
Lemma normalize_absolutePath (segs out : list string) :
  segs <> [] ->
  Forall (fun s => hasSlash s = false) segs ->
  NodePath.lastIsSlash (absolutePath segs) = false ->
  NodePath.normalizeSegments false segs = out ->
  out <> [] -> Forall (fun s => Js.truthy s = true) out ->
  NodePath.normalize (absolutePath segs) = absolutePath out.
Proof.
  intros Hne Hsl Hlast Hout Hone Htruthy.
  pose proof (split_absolutePath segs Hsl Hne) as Hsplit.
  unfold NodePath.normalize. rewrite Hsplit, Hlast.
  destruct segs as [| s segs]; [contradiction|].
  cbn [absolutePath]. rewrite append_cons, append_nil.
  cbn [NodePath.firstIsSlash].
  change (NodePath.isSlash "/") with true. cbn [negb].
  replace (NodePath.normalizeSegments false ("" :: s :: segs)) with out
    by (rewrite <- Hout; reflexivity).
  pose proof (join_truthy out Hone Htruthy) as Hjoin.
  destruct (Js.join "/" out) eqn:E; [contradiction|].
  rewrite <- E, append_nil_r. now apply slash_join.
Qed.

Lemma absolutePath_snoc (l : list string) (y : string) :
  absolutePath l +:+ "/" +:+ y = absolutePath (l ++ [y]).
Proof.
  rewrite absolutePath_app. cbn [absolutePath]. now rewrite append_nil_r.
Qed.

Lemma absolutePath_snoc_app (l : list string) (y z : string) :
  absolutePath l +:+ "/" +:+ y +:+ z = absolutePath (l ++ [y]) +:+ z.
Proof. rewrite <- absolutePath_snoc. now rewrite !append_assoc. Qed.

Lemma absolutePath_truthy (l : list string) :
  l <> [] -> Js.truthy (absolutePath l) = true.
Proof. destruct l; [contradiction | reflexivity]. Qed.

Lemma join_all_truthy (parts : list string) :
  Forall (fun s => Js.truthy s = true) parts -> parts <> [] ->
  NodePath.join parts = NodePath.normalize (Js.join "/" parts).
Proof.
  intros Hall Hne. unfold NodePath.join.
  assert (Hf : filter (fun s => Js.truthy s = true) parts = parts).
  { clear Hne. induction Hall as [| x l Hx _ IH]; [reflexivity|].
    rewrite filter_cons_True by assumption. now rewrite IH. }
  rewrite Hf. destruct parts; [contradiction | reflexivity].
Qed.

Lemma slug_not_slash (c : ascii) :
  Js.isSlugChar c = true -> NodePath.isSlash c = false /\ c <> "."%char.
Proof.
  destruct c as [[] [] [] [] [] [] [] []]; vm_compute; intros H;
    first [discriminate H | split; [reflexivity | discriminate]].
Qed.

Lemma slug_ordinary (s : string) :
  allSlug s -> s <> "" -> isOrdinarySegment s = true.
Proof.
  intros Hs Hne. unfold isOrdinarySegment.
  assert (Hslash : hasSlash s = false).
  { unfold allSlug in Hs. clear Hne. induction s as [| c s IH]; [reflexivity|].
    inversion Hs; subst. simpl.
    destruct (slug_not_slash c) as [-> _]; [assumption|]. now apply IH. }
  assert (Hdot : forall t, s = String "." t -> False).
  { intros t ->. unfold allSlug in Hs. inversion Hs as [| ? ? Hc _]; subst.
    discriminate Hc. }
  rewrite Hslash.
  destruct (String.eqb_spec s ".") as [E | _]; [now apply Hdot in E|].
  destruct (String.eqb_spec s "..") as [E | _]; [now apply Hdot in E|].
  destruct s; [contradiction | reflexivity].
Qed.

Lemma container_ordinary (repo : string) :
  hasSlash repo = false -> isOrdinarySegment (repo +:+ "-worktrees") = true.
Proof.
  intros Hs. unfold isOrdinarySegment.
  rewrite hasSlash_app, Hs.
  assert (Hlen : (10 <= String.length (repo +:+ "-worktrees"))%nat)
    by (rewrite append_length; simpl; lia).
  destruct (String.eqb_spec (repo +:+ "-worktrees") ".") as [E | _];
    [rewrite E in Hlen; simpl in Hlen; lia|].
  destruct (String.eqb_spec (repo +:+ "-worktrees") "..") as [E | _];
    [rewrite E in Hlen; simpl in Hlen; lia|].
  destruct (repo +:+ "-worktrees"); [simpl in Hlen; lia | reflexivity].
Qed.

(** The worktree path over ordinary segments: the container sits next to
    the main checkout, and handle, ticket and description follow. *)
Lemma worktreePathOf_ordinary (parentSegs : list string)
    (base repo handle ticket nd : string) :
  Forall (fun s => isOrdinarySegment s = true) parentSegs ->
  isOrdinarySegment base = true ->
  hasSlash repo = false ->
  isOrdinarySegment handle = true ->
  isOrdinarySegment ticket = true ->
  isOrdinarySegment nd = true ->
  worktreePathOf (absolutePath (parentSegs ++ [base])) repo handle ticket nd
  = absolutePath (parentSegs ++ [repo +:+ "-worktrees"; handle; ticket; nd]).
Proof.
  intros Hparent Hbase Hrepo Hhandle Hticket Hnd.
  pose proof (container_ordinary repo Hrepo) as Hrw.
  set (rw := repo +:+ "-worktrees") in *.
  assert (Hns : forall l, Forall (fun s => isOrdinarySegment s = true) l ->
                          Forall (fun s => hasSlash s = false) l).
  { intros l Hl. eapply Forall_impl; [exact Hl|].
    intros s Hs. apply ordinary_facts in Hs. tauto. }
  assert (Htr : forall l, Forall (fun s => isOrdinarySegment s = true) l ->
                          Forall (fun s => Js.truthy s = true) l).
  { intros l Hl. eapply Forall_impl; [exact Hl|].
    intros s Hs. apply ordinary_facts in Hs. tauto. }
  (* the container directory *)
  assert (Hdir : NodePath.join [absolutePath (parentSegs ++ [base]); ".."; rw]
                 = absolutePath (parentSegs ++ [rw])).
  { rewrite join_all_truthy; [| |discriminate].
    2:{ repeat constructor; [apply absolutePath_truthy; now destruct parentSegs|].
        apply ordinary_facts in Hrw. tauto. }
    cbn [Js.join]. rewrite (absolutePath_snoc_app _ ".."), absolutePath_snoc.
    apply normalize_absolutePath.
    - now destruct parentSegs.
    - rewrite <- !app_assoc. apply Forall_app. split; [now apply Hns|].
      repeat constructor; [apply ordinary_facts in Hbase; tauto|].
      apply ordinary_facts in Hrw; tauto.
    - apply absolutePath_last.
      + apply ordinary_facts in Hrw. destruct rw; [|discriminate].
        destruct Hrw as [Ht _]. discriminate Ht.
      + apply ordinary_facts in Hrw. tauto.
    - unfold NodePath.normalizeSegments. rewrite <- !app_assoc, !fold_left_app.
      rewrite (fold_normStep_ordinary false parentSegs [] Hparent). cbn [fold_left app].
      rewrite (normStep_ordinary false _ base Hbase).
      assert (Hpop : NodePath.normStep false (base :: rev parentSegs ++ []) ".."
                     = rev parentSegs ++ []).
      { unfold NodePath.normStep. cbn.
        destruct (ordinary_facts base Hbase) as (_ & _ & _ & -> & _). reflexivity. }
      rewrite Hpop, (normStep_ordinary false _ rw Hrw).
      cbn [rev]. now rewrite app_nil_r, rev_involutive.
    - now destruct parentSegs.
    - apply Htr. apply Forall_app. split; [assumption | now repeat constructor]. }
  unfold worktreePathOf. fold rw. rewrite Hdir.
  rewrite join_all_truthy; [| |discriminate].
  2:{ repeat constructor; [apply absolutePath_truthy; now destruct parentSegs|..].
      - apply ordinary_facts in Hhandle; tauto.
      - apply ordinary_facts in Hticket; tauto.
      - apply ordinary_facts in Hnd; tauto. }
  cbn [Js.join].
  rewrite (absolutePath_snoc_app _ handle), (absolutePath_snoc_app _ ticket),
    absolutePath_snoc, <- !app_assoc.
  cbn [app].
  assert (Hall : Forall (fun s => isOrdinarySegment s = true)
                   (parentSegs ++ [rw; handle; ticket; nd])).
  { apply Forall_app. split; [assumption | now repeat constructor]. }
  apply normalize_absolutePath.
  - now destruct parentSegs.
  - now apply Hns.
  - change [rw; handle; ticket; nd] with ([rw; handle; ticket] ++ [nd]).
    rewrite app_assoc. apply absolutePath_last.
    + apply ordinary_facts in Hnd. destruct nd; [|discriminate].
      destruct Hnd as [Ht _]. discriminate Ht.
    + apply ordinary_facts in Hnd. tauto.
  - unfold NodePath.normalizeSegments.
    rewrite fold_normStep_ordinary by assumption.
    now rewrite app_nil_r, rev_involutive.
  - now destruct parentSegs.
  - now apply Htr.
Qed.

(** ** The create tool *)

Lemma confined_weaken {A} (P P' : call -> Prop) (G : error -> Prop) (p : Prog A) :
  (forall c, P c -> P' c) -> confined P G p -> confined P' G p.
Proof.
  intros Himp. apply wp_mono. intros tr res [Htr Hres]. split; [|exact Hres].
  eapply Forall_impl; [exact Htr|]. intros e. apply Himp.
Qed.

Lemma setup_detectUsername (cfg : option string) :
  confined setupCall anyError (detectUsername cfg).
Proof.
  assert (Hover : confined setupCall anyError (detectUsername_override cfg)).
  { unfold detectUsername_override. destruct cfg as [p|]; [|apply confined_ret].
    destruct (Js.truthy p); [|apply confined_ret].
    apply (confined_tryCatch _ _ anyError); [|intros; apply confined_ret].
    apply confined_bind; [now apply confined_await|].
    intros config. destruct (matchUsernameAssignment config) as [m|];
      [destruct (Js.truthy m)|]; apply confined_ret. }
  assert (Hgh : confined setupCall anyError detectUsername_githubCli).
  { apply (confined_tryCatch _ _ anyError); [|intros; apply confined_ret].
    apply confined_bind; [now apply confined_await|].
    intros stdout. cbv zeta. destruct (Js.truthy (Js.trim stdout)); apply confined_ret. }
  assert (Hcfg : confined setupCall anyError detectUsername_gitConfig).
  { apply (confined_tryCatch _ _ anyError); [|intros; apply confined_ret].
    apply confined_bind; [now apply confined_await|].
    intros [value|]; [|apply confined_ret].
    destruct (Js.truthy value); [|apply confined_ret].
    cbv zeta. destruct (Js.truthy (Js.stripNonSlug _)); apply confined_ret. }
  unfold detectUsername.
  apply confined_bind; [exact Hover|]. intros [u|]; [apply confined_ret|].
  apply confined_bind; [exact Hgh|]. intros [u|]; [apply confined_ret|].
  apply confined_bind; [exact Hcfg|]. intros [u|]; [apply confined_ret|].
  now apply confined_throw.
Qed.

Lemma setup_getRepoName (repoPath : string) :
  confined setupCall anyError (getRepoName repoPath).
Proof.
  unfold getRepoName. apply confined_do; [reflexivity|].
  intros [remotes|]; [|apply confined_ret].
  destruct (List.find _ remotes) as [origin|]; [|apply confined_ret].
  destruct (Js.truthy (snd origin)); [|apply confined_ret].
  destruct (matchRepoNameInUrl _) as [m|]; [|apply confined_ret].
  destruct (Js.truthy m); apply confined_ret.
Qed.

Lemma setup_installDependencies (worktreePath : string) :
  confined setupCall anyError (installDependencies worktreePath).
Proof.
  unfold installDependencies, detectPackageManager.
  apply confined_bind.
  - repeat (apply confined_do; [reflexivity|]; intros [[]|]; try apply confined_ret).
  - intros [pm|]; [|apply confined_ret].
    destruct (Js.truthy pm); [|apply confined_ret].
    apply confined_do; [reflexivity|].
    intros [out|]; [apply confined_ret | now apply confined_throw].
Qed.

Lemma setup_copyEnvFiles (mainRepoPath worktreePath : string) :
  confined setupCall anyError (copyEnvFiles mainRepoPath worktreePath).
Proof.
  unfold copyEnvFiles. apply confined_bind; [now apply confined_await|].
  intros envFiles. generalize 0 as n.
  induction envFiles as [| f envFiles IH]; intros n; cbn [copyEnvFiles_loop].
  - apply confined_ret.
  - apply confined_bind; [now apply confined_await|]. intros _.
    apply confined_bind; [now apply confined_await|]. intros _.
    apply IH.
Qed.

Lemma setup_branchesFromMaster (c : call) : setupCall c -> branchesFromMaster c.
Proof. unfold setupCall. destruct c; simpl; intros H; try exact I; discriminate H. Qed.

Lemma createWorktree_explicit_base (repoPath path branch base : string) :
  Js.truthy base = true ->
  confined (fun c => match c with
                     | GitWorktreeAdd _ _ _ b => b = base
                     | GitShowRef _ _ => False
                     | _ => True
                     end) anyError
    (createWorktree repoPath path branch (Some base)).
Proof.
  intros Hb. unfold createWorktree. cbn [truthyOpt default]. rewrite Hb.
  unfold mbind, Prog_bind, mret, Prog_ret, await. cbn [bind].
  apply confined_do; [exact I|].
  intros [[]|]; cbn [bind]; [|now apply confined_throw].
  apply confined_do; [reflexivity|].
  intros [[]|]; [apply (confined_ret _ _ tt) | now apply confined_throw].
Qed.

(** The sibling path: without a base, [createWorktree] resolves the trunk,
    [origin/main] first. *)
Lemma createWorktree_resolves_trunk {W} (h : handler W) (w : W)
    (repoPath path branch : string) :
  let w1 := (h (GitFetch repoPath "origin") w).2 in
  let probe := GitShowRef repoPath "refs/remotes/origin/main" in
  (h (GitFetch repoPath "origin") w).1 = Some tt ->
  (h probe w1).1 = Some tt ->
  omap worktreeAdded (trace (run h (createWorktree repoPath path branch None) w))
  = [(repoPath, path, branch, "origin/main")].
Proof.
  intros w1 probe Hfetch Hprobe. unfold createWorktree, getDefaultBranch.
  unfold mbind, Prog_bind, mret, Prog_ret, await. cbn [truthyOpt bind run].
  subst w1. destruct (h (GitFetch repoPath "origin") w) as [[[]|] w1];
    [|discriminate Hfetch].
  cbn [fst snd bind run] in *.
  fold probe. destruct (h probe w1) as [[[]|] w2]; [|discriminate Hprobe].
  cbn [fst snd bind run].
  destruct (h _ w2) as [[[]|] w3]; reflexivity.
Qed.

Lemma createWorktreeTool_confined (args : CreateWorktreeArgs) :
  confined branchesFromMaster anyError (createWorktreeTool args).
Proof.
  unfold createWorktreeTool.
  destruct (_ || _); [now apply confined_throw|].
  destruct (_ || _); [now apply confined_throw|].
  apply confined_bind.
  { apply (confined_mono _ notFuel); [easy|]. now apply confined_getMainRepoRoot. }
  intros mainRepoRoot.
  apply confined_bind.
  { eapply confined_weaken; [apply setup_branchesFromMaster|apply setup_detectUsername]. }
  intros usernameResult.
  apply confined_bind.
  { eapply confined_weaken; [apply setup_branchesFromMaster|apply setup_getRepoName]. }
  intros repoName.
  apply confined_bind; [now apply createWorktree_explicit_base|].
  intros _.
  apply confined_bind.
  { apply (confined_tryCatch _ _ anyError); [|intros; apply confined_ret].
    eapply confined_weaken;
      [apply setup_branchesFromMaster|apply setup_installDependencies]. }
  intros deps.
  apply confined_bind; [|intros; apply confined_ret].
  apply (confined_tryCatch _ _ anyError); [|intros; apply confined_ret].
  eapply confined_weaken; [apply setup_branchesFromMaster|apply setup_copyEnvFiles].
Qed.

Lemma planPost_stable (args : CreateWorktreeArgs) (pre : list event) (e : event)
    (tr : list event) (res : error + CreateWorktreeResult) :
  setupCall (eventCall e) ->
  planPost args (pre ++ tr) res -> planPost args (pre ++ e :: tr) res.
Proof.
  intros He. destruct res as [err | r]; [easy|].
  unfold planPost. intros (root & Htr & Hplan). exists root. split; [|exact Hplan].
  rewrite omap_app in *. cbn [omap list_omap].
  destruct e as [c a]. unfold setupCall in He. unfold worktreeAdded at 2.
  simpl in *. destruct c; try discriminate He; exact Htr.
Qed.

Lemma createWorktreeTool_plan (args : CreateWorktreeArgs) :
  wp anyAnswer (planPost args) (createWorktreeTool args).
Proof.
  unfold createWorktreeTool.
  destruct (_ || _); [exact I|].
  destruct (_ || _); [exact I|].
  apply (wp_bind_confined setupCall anyError);
    [apply (planPost_stable args []) | easy | |].
  { apply (confined_mono _ notFuel); [easy|]. now apply confined_getMainRepoRoot. }
  intros mainRepoRoot.
  apply (wp_bind_confined setupCall anyError);
    [apply (planPost_stable args []) | easy | apply setup_detectUsername |].
  intros usernameResult.
  apply (wp_bind_confined setupCall anyError);
    [apply (planPost_stable args []) | easy | apply setup_getRepoName |].
  intros repoName.
  unfold createWorktree. cbn [truthyOpt Js.truthy default].
  unfold mbind at 1 2 3, Prog_bind, mret at 1, Prog_ret, await. cbn [bind wp].
  intros [[]|] _; [|exact I]. cbn [bind wp].
  intros [[]|] _; [|exact I]. cbn [bind].
  match goal with
  | |- wp _ (fun tr res => planPost _ (?e1 :: ?e2 :: tr) res) _ =>
      pose proof (planPost_stable args [e1; e2]) as Hstable
  end.
  apply (wp_bind_confined setupCall anyError); [exact Hstable | easy | |].
  { apply (confined_tryCatch _ _ anyError); [|intros; apply confined_ret].
    apply setup_installDependencies. }
  intros deps.
  apply (wp_bind_confined setupCall anyError); [exact Hstable | easy | |].
  { apply (confined_tryCatch _ _ anyError); [|intros; apply confined_ret].
    apply setup_copyEnvFiles. }
  intros copied. cbn [wp mret Prog_ret planPost].
  eexists. split; [reflexivity|]. split; reflexivity.
Qed.

(** C1.  The create tool does not branch from the resolved trunk: it hands
    [createWorktree] the base [origin/master], so no remote ref is ever
    probed and every worktree is added on [origin/master].  In a repository
    whose trunk is [origin/main] the creation of ticket CO-100 therefore
    fails at the worktree addition, while [createWorktree] without a base
    resolves [origin/main] there. *)
Theorem create_tool_ignores_resolved_trunk :
  (forall (W : Type) (h : handler W) (w : W) (args : CreateWorktreeArgs),
     Forall (fun e => branchesFromMaster (eventCall e))
            (trace (run h (createWorktreeTool args) w)))
  /\ result (run (scripted mainTrunkRepository) (createWorktreeTool createBilling) tt)
     = inl (CollaboratorFailed
              (GitWorktreeAdd "/repos/acme"
                 "/repos/acme-worktrees/alice/CO-100/billing-feature"
                 "alice/CO-100/billing-feature" "origin/master"))
  /\ omap worktreeAdded
       (trace (run (scripted mainTrunkRepository)
                 (createWorktree "/repos/acme"
                    "/repos/acme-worktrees/alice/CO-100/billing-feature"
                    "alice/CO-100/billing-feature" None) tt))
     = [("/repos/acme", "/repos/acme-worktrees/alice/CO-100/billing-feature",
         "alice/CO-100/billing-feature", "origin/main")].
Proof.
  split; [|split].
  - intros W h w args.
    apply (confined_run _ h anyError), createWorktreeTool_confined.
  - reflexivity.
  - now apply createWorktree_resolves_trunk.
Qed.

(** C3, amended.  A successful creation adds one worktree, at the path and
    on the branch it reports, and both are functions of the main root, the
    repository name, the handle, the ticket and the normalised description:
    the branch is [<handle>/<ticket>/<description>] with the ticket
    verbatim, the path is the normalised join of the main root, [..],
    [<repo>-worktrees], the handle, the ticket and the description.  That
    path is [<mainRepoParent>/<repo>-worktrees/<handle>/<ticket>/<description>]
    whenever the main root is an absolute path of ordinary segments, the
    repository name has no separator, the handle and the ticket are ordinary
    segments and the normalised description is not empty.  Scenario A is an
    instance. *)
Theorem createPlan_format :
  (forall (W : Type) (h : handler W) (w : W) (args : CreateWorktreeArgs)
          (r : CreateWorktreeResult),
     result (run h (createWorktreeTool args) w) = inr r ->
     let nd := normalizeBranchName (branchName args) in
     exists root,
       omap worktreeAdded (trace (run h (createWorktreeTool args) w))
         = [(root, worktreePath r, branchFullName r, "origin/master")]
       /\ branchFullName r = cw_username r +:+ "/" +:+ ticket args +:+ "/" +:+ nd
       /\ worktreePath r
          = worktreePathOf root (repoName r) (cw_username r) (ticket args) nd)
  /\ (forall (parentSegs : list string) (base repo handle ticket description : string),
        Forall (fun s => isOrdinarySegment s = true) parentSegs ->
        isOrdinarySegment base = true ->
        hasSlash repo = false ->
        isOrdinarySegment handle = true ->
        isOrdinarySegment ticket = true ->
        normalizeBranchName description <> "" ->
        let nd := normalizeBranchName description in
        worktreePathOf (absolutePath (parentSegs ++ [base])) repo handle ticket nd
        = absolutePath parentSegs +:+ "/" +:+ repo +:+ "-worktrees/"
          +:+ handle +:+ "/" +:+ ticket +:+ "/" +:+ nd)
  /\ fullBranchNameOf "alice" "CO-100" (normalizeBranchName "billing feature")
     = "alice/CO-100/billing-feature"
  /\ worktreePathOf "/home/u/acme" "acme" "alice" "CO-100"
       (normalizeBranchName "billing feature")
     = "/home/u/acme-worktrees/alice/CO-100/billing-feature".
Proof.
  split; [|split; [|split; reflexivity]].
  - intros W h w args r Hres nd.
    pose proof (wp_run anyAnswer h _ _ w (obeys_any h) (createWorktreeTool_plan args))
      as H.
    rewrite Hres in H. exact H.
  - intros parentSegs base repo handle ticket description
      Hparent Hbase Hrepo Hhandle Hticket Hne nd.
    rewrite worktreePathOf_ordinary; try assumption.
    2:{ apply slug_ordinary; [apply stripNonSlug_allSlug | exact Hne]. }
    rewrite absolutePath_app. cbn [absolutePath].
    rewrite append_nil_r, !append_assoc. reflexivity.
Qed.

Lemma createPlan_format_witness :
  worktreePathOf (absolutePath (["home"; "u"] ++ ["acme"])) "acme" "alice" "CO-100"
    (normalizeBranchName "billing feature")
  = absolutePath ["home"; "u"] +:+ "/" +:+ "acme" +:+ "-worktrees/"
    +:+ "alice" +:+ "/" +:+ "CO-100" +:+ "/" +:+ normalizeBranchName "billing feature"
  /\ exists r root,
       result (run (scripted masterTrunkRepository)
                 (createWorktreeTool createBilling) tt) = inr r
       /\ omap worktreeAdded
            (trace (run (scripted masterTrunkRepository)
                      (createWorktreeTool createBilling) tt))
          = [(root, worktreePath r, branchFullName r, "origin/master")].
Proof.
  destruct createPlan_format as (Htool & Hformat & _).
  split.
  - apply Hformat; try reflexivity.
    + repeat constructor.
    + discriminate.
  - eexists.
    destruct (Htool unit (scripted masterTrunkRepository) tt createBilling _ eq_refl)
      as (root & Hadd & _).
    exists root. split; [reflexivity | exact Hadd].
Defined.

(** ** Parsing a well-formed enumeration *)

Lemma split_newline (a b : string) :
  hasNewline a = false ->
  Js.split "010" (a +:+ LF +:+ b) = a :: Js.split "010" b.
Proof.
  induction a as [| c a IH]; intros H.
  - reflexivity.
  - simpl in H. apply orb_false_iff in H as [Hc Ha].
    rewrite append_cons. cbn [Js.split]. rewrite Hc. now rewrite IH.
Qed.

Lemma prefix_append (p s : string) : String.prefix p (p +:+ s) = true.
Proof.
  induction p as [| c p IH]; [now destruct s|].
  rewrite append_cons. cbn [String.prefix].
  destruct (ascii_dec c c); [exact IH | contradiction].
Qed.

Lemma substringFrom_append (p s : string) :
  Js.substringFrom (String.length p) (p +:+ s) = s.
Proof. induction p as [| c p IH]; [now destruct s | exact IH]. Qed.

Lemma hasNewline_app (a b : string) :
  hasNewline (a +:+ b) = hasNewline a || hasNewline b.
Proof.
  induction a as [| c a IH]; [reflexivity|].
  rewrite append_cons. simpl. rewrite IH. now rewrite orb_assoc.
Qed.

Lemma split_renderEntry (e : PorcelainEntry) (rest : string) :
  wellFormedEntry e ->
  Js.split "010" (renderEntry e +:+ rest)
  = ("worktree " +:+ pe_path e)
    :: ("HEAD " +:+ pe_head e)
    :: match pe_branch e with
       | Some b => "branch refs/heads/" +:+ b
       | None => "detached"
       end
    :: "" :: Js.split "010" rest.
Proof.
  intros (_ & Hp & Hh & Hb). unfold renderEntry.
  rewrite !append_assoc.
  rewrite <- (append_assoc "worktree " (pe_path e)).
  rewrite (split_newline ("worktree " +:+ pe_path e))
    by (rewrite hasNewline_app, Hp; reflexivity).
  rewrite <- (append_assoc "HEAD " (pe_head e)).
  rewrite (split_newline ("HEAD " +:+ pe_head e))
    by (rewrite hasNewline_app, Hh; reflexivity).
  rewrite split_newline.
  2:{ destruct (pe_branch e) as [b|]; [|reflexivity].
      rewrite hasNewline_app. simpl in Hb. now rewrite Hb. }
  reflexivity.
Qed.

(** The four lines of one entry push its record and leave a fresh object. *)
Lemma listWorktrees_entry (e : PorcelainEntry) (res : list WorktreeInfo)
    (cur : WorktreeInfo) (more : list string) :
  wellFormedEntry e -> truthyOpt (wt_path cur) = false ->
  fold_left listWorktrees_line
    (("worktree " +:+ pe_path e) :: ("HEAD " +:+ pe_head e)
       :: match pe_branch e with
          | Some b => "branch refs/heads/" +:+ b
          | None => "detached"
          end
       :: "" :: more) (res, cur)
  = fold_left listWorktrees_line more (res ++ [recordOf e], emptyWorktree).
Proof.
  intros (Hpath & _) Hcur. cbn [fold_left]. f_equal.
  unfold listWorktrees_line at 4. rewrite Hcur.
  unfold Js.startsWith at 1. rewrite prefix_append.
  change 9%nat with (String.length "worktree ").
  rewrite substringFrom_append.
  unfold listWorktrees_line at 3.
  change (Js.startsWith "worktree " ("HEAD " +:+ pe_head e)) with false.
  unfold Js.startsWith at 1. rewrite prefix_append. cbn iota.
  change 5%nat with (String.length "HEAD ").
  rewrite substringFrom_append. cbn [wt_path wt_branch wt_head wt_isMain].
  destruct (pe_branch e) as [b|] eqn:Hb.
  - unfold listWorktrees_line at 2.
    change (Js.startsWith "worktree " ("branch refs/heads/" +:+ b)) with false.
    change (Js.startsWith "HEAD " ("branch refs/heads/" +:+ b)) with false.
    change (Js.startsWith "branch " ("branch refs/heads/" +:+ b)) with true.
    cbn iota. change 18%nat with (String.length "branch refs/heads/").
    rewrite substringFrom_append. cbn [wt_path wt_branch wt_head wt_isMain].
    unfold listWorktrees_line, recordOf. cbn. rewrite Hpath, Hb. reflexivity.
  - unfold listWorktrees_line, recordOf. cbn. rewrite Hpath, Hb. reflexivity.
Qed.

Lemma fold_renderPorcelain (entries : list PorcelainEntry)
    (res : list WorktreeInfo) (cur : WorktreeInfo) :
  Forall wellFormedEntry entries -> truthyOpt (wt_path cur) = false ->
  (fold_left listWorktrees_line (Js.split "010" (renderPorcelain entries))
     (res, cur)).1
  = res ++ map recordOf entries.
Proof.
  intros Hall. revert res cur.
  induction Hall as [| e entries He _ IH]; intros res cur Hcur.
  - cbn. unfold listWorktrees_line. cbn. rewrite Hcur. now rewrite app_nil_r.
  - cbn [renderPorcelain]. rewrite split_renderEntry by assumption.
    rewrite listWorktrees_entry by assumption.
    rewrite IH by reflexivity. cbn [map]. now rewrite <- app_assoc.
Qed.

(** A well-formed enumeration is parsed into one record per entry, in
    order, the first one marked. *)
Lemma parseWorktreeList_render (entries : list PorcelainEntry) :
  Forall wellFormedEntry entries ->
  parseWorktreeList (renderPorcelain entries) = markMain (map recordOf entries).
Proof.
  intros Hall. unfold parseWorktreeList.
  now rewrite fold_renderPorcelain.
Qed.

(** C5.  Whenever [listWorktrees] returns a non-empty list, its first record
    is flagged [isMain], every other record is not, and so exactly one
    record is flagged.  The list is not empty when the enumeration is
    well formed and lists a worktree: there is then one record per entry,
    in order. *)
Theorem listWorktrees_one_main_first {W} (h : handler W) (w : W)
    (repoPath : string) (ws : list WorktreeInfo) :
  result (run h (listWorktrees repoPath) w) = inr ws ->
  (ws <> [] ->
   exists first rest,
     ws = first :: rest
     /\ wt_isMain first = Some true
     /\ Forall (fun x => wt_isMain x = Some false) rest
     /\ length (List.filter (fun x => truthyFlag (wt_isMain x)) ws) = 1%nat)
  /\ (forall entries,
        (h (GitWorktreeList (Some repoPath)) w).1 = Some (renderPorcelain entries) ->
        Forall wellFormedEntry entries ->
        ws = markMain (map recordOf entries)
        /\ map wt_path ws = map (fun e => Some (pe_path e)) entries).
Proof.
  intros Hrun.
  destruct (run_listWorktrees h repoPath w) as [Hres _].
  rewrite Hres in Hrun.
  destruct (h (GitWorktreeList (Some repoPath)) w).1 as [txt|]; [|discriminate].
  injection Hrun as <-. split.
  - intros Hne.
    destruct (parseWorktreeList_shape txt)
      as [Hnil | (first & rest & Heq & Hm & _ & Haux)]; [contradiction|].
    exists first, rest. rewrite Heq. repeat split; auto.
    + eapply Forall_impl; [exact Haux|]. now intros x [Hx _].
    + simpl. rewrite Hm. simpl. now rewrite count_main_auxiliary.
  - intros entries [= ->] Hwf.
    rewrite parseWorktreeList_render by assumption. split; [reflexivity|].
    destruct entries as [| e entries]; [reflexivity|].
    cbn. f_equal. now rewrite map_map.
Qed.

Lemma listWorktrees_one_main_first_witness :
  exists first rest,
    parseWorktreeList twoWorktreesText = first :: rest
    /\ wt_isMain first = Some true
    /\ Forall (fun x => wt_isMain x = Some false) rest
    /\ length (List.filter (fun x => truthyFlag (wt_isMain x))
                 (parseWorktreeList twoWorktreesText)) = 1%nat.
Proof.
  apply (listWorktrees_one_main_first (scripted twoWorktrees) tt "/repos/acme").
  - reflexivity.
  - discriminate.
Defined.

(** * Further properties of the code *)

(** ** The main checkout of an enumeration *)

Lemma split_first_line (a b : string) :
  hasNewline a = false ->
  List.find (Js.startsWith "worktree ") (Js.split "010" (("worktree " +:+ a) +:+ LF +:+ b))
  = Some ("worktree " +:+ a).
Proof.
  intros Ha. rewrite split_newline by (rewrite hasNewline_app, Ha; reflexivity).
  cbn [List.find]. unfold Js.startsWith. now rewrite prefix_append.
Qed.

Lemma mainRootOf_render (e : PorcelainEntry) (entries : list PorcelainEntry) :
  hasNewline (pe_path e) = false ->
  mainRootOf (renderPorcelain (e :: entries)) = Some (pe_path e).
Proof.
  intros Hp. unfold mainRootOf. cbn [renderPorcelain]. unfold renderEntry.
  rewrite !append_assoc. rewrite <- (append_assoc "worktree " (pe_path e)).
  rewrite split_first_line by assumption. cbn [option_map].
  change 9%nat with (String.length "worktree ").
  now rewrite substringFrom_append.
Qed.

Lemma mainRootOf_none (txt : string) :
  mainRootOf txt = None
  <-> Forall (fun l => Js.startsWith "worktree " l = false) (Js.split "010" txt).
Proof.
  unfold mainRootOf. generalize (Js.split "010" txt) as lines.
  induction lines as [| l lines IH]; cbn [List.find option_map].
  - split; [constructor | reflexivity].
  - destruct (Js.startsWith "worktree " l) eqn:Hl; cbn [option_map].
    + split; [discriminate|]. intros H. inversion H; congruence.
    + rewrite IH. split; [now constructor | now inversion 1].
Qed.

(** X1.  [getMainRepoRoot] fails with [NotARepository] exactly when the
    enumeration answers and none of its lines starts with [worktree ]; on an
    enumeration that starts with a well-formed entry it returns that entry's
    path, which is also the path of the record [listWorktrees] flags as
    main. *)
Theorem getMainRepoRoot_first_entry {W} (h : handler W) (w : W)
    (cwd : option string) (txt : string) :
  (h (GitWorktreeList cwd) w).1 = Some txt ->
  (result (run h (getMainRepoRoot cwd) w) = inl NotARepository
   <-> Forall (fun l => Js.startsWith "worktree " l = false) (Js.split "010" txt))
  /\ (forall e entries,
        txt = renderPorcelain (e :: entries) ->
        Forall wellFormedEntry (e :: entries) ->
        result (run h (getMainRepoRoot cwd) w) = inr (pe_path e)
        /\ exists first rest,
             parseWorktreeList txt = first :: rest
             /\ wt_path first = Some (pe_path e)
             /\ wt_isMain first = Some true).
Proof.
  intros Hans. rewrite run_getMainRepoRoot. cbn [result].
  destruct (h (GitWorktreeList cwd) w) as [a w1]. cbn in Hans. subst a. cbn [fst].
  split.
  - rewrite <- mainRootOf_none.
    destruct (mainRootOf txt); split; congruence.
  - intros e entries -> Hwf.
    assert (Hp : hasNewline (pe_path e) = false).
    { inversion Hwf as [| ? ? (_ & Hp & _) _]; assumption. }
    rewrite mainRootOf_render by assumption. split; [reflexivity|].
    rewrite parseWorktreeList_render by assumption.
    cbn [map markMain recordOf wt_path]. eexists _, _. repeat split.
Qed.

Lemma getMainRepoRoot_first_entry_witness :
  result (run (scripted twoWorktrees) (getMainRepoRoot None) tt) = inr "/repos/acme".
Proof.
  destruct (getMainRepoRoot_first_entry (scripted twoWorktrees) tt None
              twoWorktreesText eq_refl) as [_ H].
  refine (proj1 (H {| pe_path := "/repos/acme"; pe_head := "1111111";
                      pe_branch := Some "main" |}
                   [ {| pe_path := "/repos/acme-worktrees/alice/CO-100/billing-feature";
                        pe_head := "2222222";
                        pe_branch := Some "alice/CO-100/billing-feature" |} ]
                   eq_refl _)).
  repeat constructor.
Defined.

(** ** Enumerations that end early *)

Lemma fold_renderPorcelain_app (entries : list PorcelainEntry) (rest : string)
    (res : list WorktreeInfo) (cur : WorktreeInfo) :
  Forall wellFormedEntry entries -> truthyOpt (wt_path cur) = false ->
  exists cur',
    truthyOpt (wt_path cur') = false
    /\ fold_left listWorktrees_line
         (Js.split "010" (renderPorcelain entries +:+ rest)) (res, cur)
       = fold_left listWorktrees_line (Js.split "010" rest)
           (res ++ map recordOf entries, cur').
Proof.
  intros Hall. revert res cur.
  induction Hall as [| e entries He _ IH]; intros res cur Hcur.
  - exists cur. split; [exact Hcur|]. cbn [renderPorcelain map].
    now rewrite append_nil, app_nil_r.
  - cbn [renderPorcelain]. rewrite append_assoc.
    rewrite split_renderEntry by assumption.
    rewrite listWorktrees_entry by assumption.
    destruct (IH (res ++ [recordOf e]) emptyWorktree eq_refl) as (cur' & Hc & ->).
    exists cur'. split; [exact Hc|]. cbn [map]. now rewrite <- app_assoc.
Qed.

Lemma renderEntry_open (e : PorcelainEntry) :
  renderEntry e = renderEntryOpen e +:+ LF +:+ LF.
Proof. unfold renderEntry, renderEntryOpen. now rewrite !append_assoc. Qed.

Lemma renderPorcelain_app (a b : list PorcelainEntry) :
  renderPorcelain (a ++ b) = renderPorcelain a +:+ renderPorcelain b.
Proof.
  induction a as [| e a IH]; [reflexivity|].
  cbn [app renderPorcelain]. now rewrite IH, append_assoc.
Qed.

(** X2.  The parser pushes a record only at the next [worktree] line or at
    an empty line: when the empty line after the last entry is missing, that
    entry is lost, while the same enumeration with its terminator yields a
    record for it. *)
Theorem unterminated_record_is_dropped (entries : list PorcelainEntry)
    (e : PorcelainEntry) :
  Forall wellFormedEntry entries ->
  wellFormedEntry e ->
  parseWorktreeList (renderPorcelain entries +:+ renderEntryOpen e)
    = markMain (map recordOf entries)
  /\ parseWorktreeList (renderPorcelain entries +:+ renderEntryOpen e +:+ LF +:+ LF)
     = markMain (map recordOf entries ++ [recordOf e]).
Proof.
  intros Hall He. split.
  - unfold parseWorktreeList.
    destruct (fold_renderPorcelain_app entries (renderEntryOpen e) [] emptyWorktree
                Hall eq_refl) as (cur & Hcur & ->).
    f_equal. destruct He as (Hpath & Hp & Hh & Hb). unfold renderEntryOpen.
    rewrite <- (append_assoc "worktree " (pe_path e)).
    rewrite (split_newline ("worktree " +:+ pe_path e))
      by (rewrite hasNewline_app, Hp; reflexivity).
    rewrite <- (append_assoc "HEAD " (pe_head e)).
    rewrite (split_newline ("HEAD " +:+ pe_head e))
      by (rewrite hasNewline_app, Hh; reflexivity).
    assert (Hlast : forall t, hasNewline t = false -> Js.split "010" t = [t]).
    { induction t as [| c t IH]; [reflexivity|]. simpl. intros H.
      apply orb_false_iff in H as [-> Ht]. now rewrite IH. }
    rewrite Hlast.
    2:{ destruct (pe_branch e) as [b|]; [|reflexivity].
        rewrite hasNewline_app. simpl in Hb. now rewrite Hb. }
    cbn [fold_left]. unfold listWorktrees_line at 3. rewrite Hcur.
    unfold Js.startsWith at 1. rewrite prefix_append.
    unfold listWorktrees_line at 2.
    change (Js.startsWith "worktree " ("HEAD " +:+ pe_head e)) with false.
    unfold Js.startsWith at 1. rewrite prefix_append. cbn iota.
    destruct (pe_branch e) as [b|].
    + unfold listWorktrees_line.
      change (Js.startsWith "worktree " ("branch refs/heads/" +:+ b)) with false.
      change (Js.startsWith "HEAD " ("branch refs/heads/" +:+ b)) with false.
      change (Js.startsWith "branch " ("branch refs/heads/" +:+ b)) with true.
      reflexivity.
    + reflexivity.
  - rewrite <- renderEntry_open.
    replace (renderEntry e) with (renderPorcelain [e])
      by (cbn [renderPorcelain]; apply append_nil_r).
    rewrite <- renderPorcelain_app, parseWorktreeList_render, map_app.
    + reflexivity.
    + apply Forall_app. split; [assumption | now constructor].
Qed.

Lemma unterminated_record_is_dropped_witness :
  parseWorktreeList
    (renderPorcelain [] +:+
     renderEntryOpen {| pe_path := "/repos/acme"; pe_head := "1111111";
                        pe_branch := Some "main" |}) = [].
Proof.
  refine (proj1 (unterminated_record_is_dropped [] _ _ _)).
  - constructor.
  - repeat split.
Defined.

(** X3.  On a well-formed enumeration the list tool returns the first
    entry's path as [mainRepoPath] and, in order, exactly the records of the
    entries after the first. *)
Theorem list_tool_on_enumeration {W} (h : handler W) (w : W) (cwd : option string)
    (e : PorcelainEntry) (entries : list PorcelainEntry) :
  let txt := renderPorcelain (e :: entries) in
  Forall wellFormedEntry (e :: entries) ->
  (h (GitWorktreeList cwd) w).1 = Some txt ->
  (h (GitWorktreeList (Some (pe_path e))) (h (GitWorktreeList cwd) w).2).1 = Some txt ->
  exists res,
    result (run h (listWorktreesTool cwd) w) = inr res
    /\ mainRepoPath res = pe_path e
    /\ map item (worktrees res) = map recordOf entries.
Proof.
  intros txt Hwf H0 H1. subst txt.
  pose proof (listWorktreesTool_result h cwd w) as H. cbv zeta in H.
  assert (Hp : hasNewline (pe_path e) = false).
  { inversion Hwf as [| ? ? (_ & Hp & _) _]; assumption. }
  destruct (h (GitWorktreeList cwd) w) as [a w1]. cbn in H0. subst a.
  cbn [fst snd] in *. cbv beta iota in H.
  change (renderEntry e +:+ renderPorcelain entries)
    with (renderPorcelain (e :: entries)) in H.
  rewrite mainRootOf_render in H by assumption.
  destruct (h (GitWorktreeList (Some (pe_path e))) w1) as [a w2]. cbn in H1. subst a.
  cbn [fst snd] in *. cbv beta iota in H. destruct H as (its & Hres & Hmap & _).
  eexists. split; [exact Hres|]. cbn [mainRepoPath worktrees]. split; [reflexivity|].
  rewrite filter_not_main_item, Hmap.
  change (renderEntry e +:+ renderPorcelain entries)
    with (renderPorcelain (e :: entries)).
  destruct (filter_not_main_parse (renderPorcelain (e :: entries))) as [-> _].
  now rewrite parseWorktreeList_render.
Qed.

Lemma list_tool_on_enumeration_witness :
  exists res,
    result (run (scripted twoWorktrees) (listWorktreesTool None) tt) = inr res
    /\ mainRepoPath res = "/repos/acme"
    /\ map item (worktrees res)
       = [recordOf {| pe_path := "/repos/acme-worktrees/alice/CO-100/billing-feature";
                      pe_head := "2222222";
                      pe_branch := Some "alice/CO-100/billing-feature" |}].
Proof.
  apply (list_tool_on_enumeration (scripted twoWorktrees) tt None
           {| pe_path := "/repos/acme"; pe_head := "1111111"; pe_branch := Some "main" |}
           [ {| pe_path := "/repos/acme-worktrees/alice/CO-100/billing-feature";
                pe_head := "2222222";
                pe_branch := Some "alice/CO-100/billing-feature" |} ]).
  - repeat constructor.
  - reflexivity.
  - reflexivity.
Defined.

(** ** The repository name *)

Lemma lowerChar_idempotent (c : ascii) : Js.lowerChar (Js.lowerChar c) = Js.lowerChar c.
Proof. destruct c as [[] [] [] [] [] [] [] []]; reflexivity. Qed.

Lemma toLowerCase_idempotent (s : string) :
  Js.toLowerCase (Js.toLowerCase s) = Js.toLowerCase s.
Proof.
  induction s as [| c s IH]; [reflexivity|].
  simpl. now rewrite lowerChar_idempotent, IH.
Qed.

Lemma split_last_segment (pre t : string) :
  hasSlash t = false ->
  exists x front,
    Js.split NodePath.slash (pre +:+ "/" +:+ t) = (x :: front) ++ [t].
Proof.
  intros Ht. induction pre as [| c pre (x & front & IH)].
  - exists "", []. rewrite append_nil, append_cons, append_nil.
    cbn [Js.split]. change (Ascii.eqb "/" NodePath.slash) with true. cbn iota.
    now rewrite split_noSlash.
  - rewrite append_cons. cbn [Js.split]. rewrite IH.
    destruct (Ascii.eqb c NodePath.slash).
    + exists "", (x :: front). reflexivity.
    + exists (String c x), front. reflexivity.
Qed.

Lemma matchRepoNameInUrl_last (pre t : string) :
  hasSlash t = false -> t <> "" ->
  matchRepoNameInUrl (pre +:+ "/" +:+ t) = Some (stripDotGit t).
Proof.
  intros Ht Hne. unfold matchRepoNameInUrl.
  destruct (split_last_segment pre t Ht) as (x & front & ->).
  rewrite rev_app_distr. cbn [rev app].
  destruct (rev front ++ [x]) eqn:E.
  - destruct (rev front); discriminate E.
  - destruct t; [contradiction | reflexivity].
Qed.

Lemma substring_prefix (a b : string) :
  String.substring 0 (String.length a) (a +:+ b) = a.
Proof.
  induction a as [| c a IH]; [now destruct b|].
  rewrite append_cons. simpl. now rewrite IH.
Qed.

Lemma stripDotGit_suffix (name : string) :
  name <> "" -> stripDotGit (name +:+ ".git") = name.
Proof.
  intros Hne. unfold stripDotGit. rewrite append_length.
  replace (String.length name + String.length ".git" - 4)%nat
    with (String.length name) by (simpl; lia).
  rewrite substringFrom_append, substring_prefix.
  destruct name; [contradiction|].
  replace (4 <? N.of_nat (String.length (String a name) + String.length ".git"))
    with true; [reflexivity|].
  symmetry. apply N.ltb_lt. simpl String.length. lia.
Qed.



(** ** The base of a new worktree *)



(** ** Dependencies and environment files *)

(** X6.  The package manager is the first of pnpm, npm and yarn whose lock
    file is there.  Without a lock file [installDependencies] runs no command
    and reports that nothing was installed; with one it runs exactly
    [<pm> install] in the worktree, limited to five minutes, and fails with
    [InstallFailed] exactly when that command does. *)
Theorem installDependencies_by_lock_file {W} (h : handler W) (w : W)
    (worktreePath : string) :
  let lock := fun name => FsAccess (NodePath.join [worktreePath; name]) in
  let a1 := h (lock "pnpm-lock.yaml") w in
  let a2 := h (lock "package-lock.json") a1.2 in
  let a3 := h (lock "yarn.lock") a2.2 in
  let chosen :=
    if a1.1 is Some _ then Some "pnpm"
    else if a2.1 is Some _ then Some "npm"
    else if a3.1 is Some _ then Some "yarn"
    else None in
  let D := run h (detectPackageManager worktreePath) w in
  let R := run h (installDependencies worktreePath) w in
  result D = inr chosen
  /\ match chosen with
     | None =>
         result R = inr (false, None) /\ omap commandRun (trace R) = []
     | Some pm =>
         let install := Exec (pm +:+ " install") (Some worktreePath) 300000 in
         omap commandRun (trace R)
         = [(pm +:+ " install", Some worktreePath, 300000)]
         /\ result R
            = (if (h install (final D)).1 is Some _
               then inr (true, Some pm)
               else inl (InstallFailed pm))
     end.
Proof.
  intros lock a1 a2 a3 chosen D R.
  subst R D chosen a3 a2 a1. unfold installDependencies, detectPackageManager.
  unfold mbind, Prog_bind, mret, Prog_ret. cbn [bind run].
  change (FsAccess (NodePath.join [worktreePath; "pnpm-lock.yaml"]))
    with (lock "pnpm-lock.yaml").
  change (FsAccess (NodePath.join [worktreePath; "package-lock.json"]))
    with (lock "package-lock.json").
  change (FsAccess (NodePath.join [worktreePath; "yarn.lock"]))
    with (lock "yarn.lock").
  destruct (h (lock "pnpm-lock.yaml") w) as [[[]|] w1];
    cbn [fst snd bind run result trace final Js.truthy].
  { split; [reflexivity|].
    destruct (h (Exec _ _ _) w1) as [[out|] w']; split; reflexivity. }
  destruct (h (lock "package-lock.json") w1) as [[[]|] w2];
    cbn [fst snd bind run result trace final Js.truthy].
  { split; [reflexivity|].
    destruct (h (Exec _ _ _) w2) as [[out|] w']; split; reflexivity. }
  destruct (h (lock "yarn.lock") w2) as [[[]|] w3];
    cbn [fst snd bind run result trace final Js.truthy].
  { split; [reflexivity|].
    destruct (h (Exec _ _ _) w3) as [[out|] w']; split; reflexivity. }
  split; [reflexivity | split; reflexivity].
Qed.

Lemma copyEnvFiles_loop_wp (mainRepoPath worktreePath : string)
    (envFiles : list string) (start : N) :
  wp anyAnswer (copiedPrefix mainRepoPath worktreePath envFiles start)
     (copyEnvFiles_loop mainRepoPath worktreePath envFiles start).
Proof.
  revert start. induction envFiles as [| f envFiles IH]; intros start.
  - exists 0%nat. cbn. split; [reflexivity | split; [now left|]].
    split; [reflexivity | lia].
  - cbn [copyEnvFiles_loop]. unfold mbind at 1 2, Prog_bind, await. cbn [bind wp].
    intros [[]|] _; cbn [bind wp].
    2:{ exists 0%nat. cbn. split; [reflexivity | split; [now left | lia]]. }
    intros [[]|] _; cbn [bind wp].
    2:{ exists 0%nat. cbn. split; [reflexivity | split; [now right | lia]]. }
    eapply wp_mono; [|apply (IH (start + 1))].
    cbv beta. intros tr res (n & Hc & Hd & Hres).
    exists (S n). cbn [omap fileCopied directoryMade map take length].
    cbn. change (list_omap event _ fileCopied tr) with (omap fileCopied tr).
    change (list_omap event _ directoryMade tr) with (omap directoryMade tr).
    rewrite Hc. split; [reflexivity|]. split.
    + destruct Hd as [-> | ->]; [now left | now right].
    + destruct res as [e | count]; [lia|].
      destruct Hres as [-> ->]. split; [reflexivity | lia].
Qed.

(** X7.  [copyEnvFiles] copies the files the glob reported, in that order,
    each from the main checkout to the same relative place in the worktree,
    after making the directory of the target.  When it succeeds it copied
    all of them and returns their number; when it fails it copied a proper
    prefix, or nothing at all when the glob itself failed. *)
Theorem copyEnvFiles_copies_in_order {W} (h : handler W) (w : W)
    (mainRepoPath worktreePath : string) :
  let R := run h (copyEnvFiles mainRepoPath worktreePath) w in
  match (h (GlobEnvFiles mainRepoPath) w).1 with
  | None =>
      result R = inl (CollaboratorFailed (GlobEnvFiles mainRepoPath))
      /\ trace R = [Event (GlobEnvFiles mainRepoPath) None]
  | Some envFiles =>
      copiedPrefix mainRepoPath worktreePath envFiles 0 (trace R) (result R)
  end.
Proof.
  intros R. subst R. unfold copyEnvFiles.
  rewrite run_bind, (run_await h (GlobEnvFiles mainRepoPath)). unfold andThen.
  destruct (h (GlobEnvFiles mainRepoPath) w) as [[envFiles|] w1];
    cbn [fst snd result trace final]; [|split; reflexivity].
  pose proof (wp_run anyAnswer h _ _ w1 (obeys_any h)
                (copyEnvFiles_loop_wp mainRepoPath worktreePath envFiles 0))
    as (n & Hc & Hd & Hres).
  exists n. cbn [app omap]. auto.
Qed.

(** ** Creation is all or nothing *)

Lemma lookup_detectUsername (cfg : option string) :
  confined lookupCall anyError (detectUsername cfg).
Proof.
  assert (Hover : confined lookupCall anyError (detectUsername_override cfg)).
  { unfold detectUsername_override. destruct cfg as [p|]; [|apply confined_ret].
    destruct (Js.truthy p); [|apply confined_ret].
    apply (confined_tryCatch _ _ anyError); [|intros; apply confined_ret].
    apply confined_bind; [now apply confined_await|].
    intros config. destruct (matchUsernameAssignment config) as [m|];
      [destruct (Js.truthy m)|]; apply confined_ret. }
  assert (Hgh : confined lookupCall anyError detectUsername_githubCli).
  { apply (confined_tryCatch _ _ anyError); [|intros; apply confined_ret].
    apply confined_bind; [now apply confined_await|].
    intros stdout. cbv zeta. destruct (Js.truthy (Js.trim stdout)); apply confined_ret. }
  assert (Hcfg : confined lookupCall anyError detectUsername_gitConfig).
  { apply (confined_tryCatch _ _ anyError); [|intros; apply confined_ret].
    apply confined_bind; [now apply confined_await|].
    intros [value|]; [|apply confined_ret].
    destruct (Js.truthy value); [|apply confined_ret].
    cbv zeta. destruct (Js.truthy (Js.stripNonSlug _)); apply confined_ret. }
  unfold detectUsername.
  apply confined_bind; [exact Hover|]. intros [u|]; [apply confined_ret|].
  apply confined_bind; [exact Hgh|]. intros [u|]; [apply confined_ret|].
  apply confined_bind; [exact Hcfg|]. intros [u|]; [apply confined_ret|].
  now apply confined_throw.
Qed.

Lemma lookup_getRepoName (repoPath : string) :
  confined lookupCall anyError (getRepoName repoPath).
Proof.
  unfold getRepoName. apply confined_do; [reflexivity|].
  intros [remotes|]; [|apply confined_ret].
  destruct (List.find _ remotes) as [origin|]; [|apply confined_ret].
  destruct (Js.truthy (snd origin)); [|apply confined_ret].
  destruct (matchRepoNameInUrl _) as [m|]; [|apply confined_ret].
  destruct (Js.truthy m); apply confined_ret.
Qed.

Lemma allOrNothing_stable (e : event) (tr : list event)
    (res : error + CreateWorktreeResult) :
  lookupCall (eventCall e) -> allOrNothing tr res -> allOrNothing (e :: tr) res.
Proof.
  intros He. destruct res as [err | r]; simpl.
  - intros Htr. constructor; [|exact Htr].
    destruct e as [c a]. destruct c; try discriminate He; now destruct a.
  - intros Htr. now apply Exists_cons_tl.
Qed.

Lemma createWorktreeTool_allOrNothing (args : CreateWorktreeArgs) :
  wp anyAnswer allOrNothing (createWorktreeTool args).
Proof.
  unfold createWorktreeTool.
  destruct (_ || _); [constructor|].
  destruct (_ || _); [constructor|].
  assert (Hfail : forall e, anyError e -> allOrNothing [] (inl e))
    by (intros; constructor).
  apply (wp_bind_confined lookupCall anyError);
    [apply allOrNothing_stable | exact Hfail | |].
  { apply (confined_mono _ notFuel); [easy|]. now apply confined_getMainRepoRoot. }
  intros mainRepoRoot.
  apply (wp_bind_confined lookupCall anyError);
    [apply allOrNothing_stable | exact Hfail | apply lookup_detectUsername |].
  intros usernameResult.
  apply (wp_bind_confined lookupCall anyError);
    [apply allOrNothing_stable | exact Hfail | apply lookup_getRepoName |].
  intros repoName.
  unfold createWorktree. cbn [truthyOpt Js.truthy default].
  unfold mbind at 1 2 3, Prog_bind, mret at 1, Prog_ret, await. cbn [bind wp].
  intros [[]|] _; [|repeat constructor]. cbn [bind wp].
  intros [[]|] _; [|repeat constructor]. cbn [bind].
  match goal with
  | |- wp _ _ ?p =>
      assert (Hrest : confined (fun _ => True) (fun _ => False) p)
  end.
  { apply confined_bind.
    { apply (confined_tryCatch _ _ anyError); [|intros; apply confined_ret].
      eapply confined_weaken; [|apply setup_installDependencies]. easy. }
    intros deps.
    apply confined_bind; [|intros; apply confined_ret].
    apply (confined_tryCatch _ _ anyError); [|intros; apply confined_ret].
    eapply confined_weaken; [|apply setup_copyEnvFiles]. easy. }
  eapply wp_mono; [|exact Hrest].
  cbv beta. intros tr [e | r] [_ Hres]; [destruct Hres|].
  simpl. apply Exists_cons_tl, Exists_cons_hd. reflexivity.
Qed.

Lemma blank_is_rejected (s : string) :
  Js.trim s = "" -> negb (Js.truthy s) || negb (Js.truthy (Js.trim s)) = true.
Proof. intros ->. apply orb_true_r. Qed.

Lemma not_blank_is_accepted (s : string) :
  Js.trim s <> "" -> negb (Js.truthy s) || negb (Js.truthy (Js.trim s)) = false.
Proof.
  intros Hne. destruct s as [| c s]; [now elim Hne|].
  destruct (Js.trim (String c s)); [now elim Hne | reflexivity].
Qed.

(** X8.  [createWorktreeTool] is all or nothing.  A ticket or a description
    that is empty or white space only is refused before anything is called.
    Otherwise the tool succeeds exactly when its worktree was added:
    whatever the installation of dependencies and the copy of environment
    files do afterwards, the result is a success; and a run that fails has
    added no worktree, probed no lock file and copied nothing. *)
Theorem createWorktreeTool_all_or_nothing {W} (h : handler W) (w : W)
    (args : CreateWorktreeArgs) :
  let R := run h (createWorktreeTool args) w in
  (Js.trim (ticket args) = "" ->
     result R = inl (InvalidArgument "Ticket number is required") /\ trace R = [])
  /\ (Js.trim (ticket args) <> "" -> Js.trim (branchName args) = "" ->
      result R = inl (InvalidArgument "Branch name is required") /\ trace R = [])
  /\ (Js.trim (ticket args) <> "" -> Js.trim (branchName args) <> "" ->
      exists a, head (trace R) = Some (Event (GitWorktreeList (cw_cwd args)) a))
  /\ ((exists r, result R = inr r)
      <-> Exists (fun e => worktreeCreated e = true) (trace R))
  /\ ((exists err, result R = inl err) ->
      Forall (fun e => isProvisioning (eventCall e) = false) (trace R)).
Proof.
  intros R.
  pose proof (wp_run anyAnswer h _ _ w (obeys_any h)
                (createWorktreeTool_allOrNothing args)) as Hall.
  fold R in Hall. split; [|split; [|split; [|split]]].
  - intros Ht. subst R. unfold createWorktreeTool.
    rewrite (blank_is_rejected _ Ht). split; reflexivity.
  - intros Ht Hb. subst R. unfold createWorktreeTool.
    rewrite (not_blank_is_accepted _ Ht), (blank_is_rejected _ Hb).
    split; reflexivity.
  - intros Ht Hb. subst R. unfold createWorktreeTool.
    rewrite (not_blank_is_accepted _ Ht), (not_blank_is_accepted _ Hb).
    unfold getMainRepoRoot. unfold mbind at 1 2, Prog_bind, await. cbn [bind run trace head].
    eexists. reflexivity.
  - destruct (result R) as [err | r]; simpl in Hall.
    + split; [intros [r Hr]; discriminate Hr|].
      intros Hex. apply List.Exists_exists in Hex as (e & Hin & He).
      rewrite List.Forall_forall in Hall. destruct (Hall e Hin). congruence.
    + split; [intros _; exact Hall | intros _; now exists r].
  - intros [err Herr]. rewrite Herr in Hall. simpl in Hall.
    eapply Forall_impl; [exact Hall|]. intros e [_ He]. exact He.
Qed.

Lemma createWorktreeTool_all_or_nothing_witness :
  result (run (scripted masterTrunkRepository)
            (createWorktreeTool {| ticket := "   ";
                                   branchName := "billing feature";
                                   cw_cwd := None;
                                   openIde := None |}) tt)
  = inl (InvalidArgument "Ticket number is required")
  /\ exists r, result (run (scripted masterTrunkRepository)
                         (createWorktreeTool createBilling) tt) = inr r.
Proof.
  split.
  - destruct (createWorktreeTool_all_or_nothing (scripted masterTrunkRepository) tt
                {| ticket := "   "; branchName := "billing feature";
                   cw_cwd := None; openIde := None |}) as [H _].
    destruct (H eq_refl) as [Hres _]. exact Hres.
  - destruct (createWorktreeTool_all_or_nothing (scripted masterTrunkRepository) tt
                createBilling) as (_ & _ & _ & H & _).
    apply H. vm_compute. apply Exists_cons_tl. repeat (first [apply Exists_cons_hd; reflexivity | apply Exists_cons_tl]).
Defined.

(** ** The generated title and body of a pull request *)

Lemma split_lines_noNewline (s : string) :
  Forall (fun l => hasNewline l = false) (Js.split "010" s).
Proof.
  induction s as [| c s IH]; [repeat constructor|].
  cbn [Js.split]. destruct (Ascii.eqb c "010") eqn:Hc.
  - constructor; [reflexivity | exact IH].
  - destruct (Js.split "010" s) as [| l ls]; [repeat constructor; simpl; now rewrite Hc|].
    inversion IH; subst. constructor; [simpl; now rewrite Hc | assumption].
Qed.

Lemma firstLine_noNewline (msg : string) : hasNewline (firstLine msg) = false.
Proof.
  unfold firstLine. pose proof (split_lines_noNewline msg) as H.
  destruct (Js.split "010" msg); [reflexivity | now inversion H].
Qed.

Lemma split_one_line (s : string) :
  hasNewline s = false -> Js.split "010" s = [s].
Proof.
  induction s as [| c s IH]; [reflexivity|].
  simpl. intros H. apply orb_false_iff in H as [Hc Hs].
  rewrite Hc. now rewrite IH.
Qed.

Lemma split_join_lines (l : list string) :
  l <> [] -> Forall (fun x => hasNewline x = false) l ->
  Js.split "010" (Js.join LF l) = l.
Proof.
  induction l as [| x l IH]; [congruence|]. intros _ Hl.
  inversion Hl as [| ? ? Hx Hrest]; subst.
  destruct l as [| y l]; [now apply split_one_line|].
  change (Js.join LF (x :: y :: l)) with (x +:+ LF +:+ Js.join LF (y :: l)).
  rewrite split_newline by assumption.
  now rewrite IH.
Qed.

(** X9.  [generatePRContent] describes the commits between [origin/master]
    and the current branch.  With none it fails with [NoCommits].  Otherwise
    the title is the first line of the first commit message, so it holds no
    line break; the body is empty for a single commit, and for several it is
    the heading [## Commits], an empty line, and exactly one line per
    commit, [- ] and the first line of its message, in the order of the
    log. *)
Theorem generatePRContent_one_line_per_commit {W} (h : handler W) (w : W)
    (repoPath branch : string) (commits : list string) :
  let head := GitRevparseAbbrevRef repoPath "HEAD" in
  let R := run h (generatePRContent repoPath) w in
  (h head w).1 = Some branch ->
  (h (GitLog repoPath "origin/master" branch) (h head w).2).1 = Some commits ->
  match commits with
  | [] => result R = inl NoCommits
  | c :: more =>
      exists body,
        result R = inr (firstLine c, body)
        /\ hasNewline (firstLine c) = false
        /\ (more = [] -> body = "")
        /\ (more <> [] ->
            Js.split "010" body
            = "## Commits" :: "" :: map (fun msg => "- " +:+ firstLine msg) commits)
  end.
Proof.
  intros head R Hhead Hlog. subst R.
  unfold generatePRContent, getCommitsSinceBase.
  rewrite !run_bind, (run_await h head). unfold andThen.
  destruct (h head w) as [a w1]. cbn [fst snd] in *. subst a.
  cbn [result final trace].
  change ("origin/" +:+ "master") with "origin/master".
  rewrite (run_await h (GitLog repoPath "origin/master" branch)).
  destruct (h (GitLog repoPath "origin/master" branch) w1) as [a w2].
  cbn [fst snd] in *. subst a. cbn [result final trace].
  destruct commits as [| c more]; [reflexivity|].
  eexists. split; [reflexivity|]. split; [apply firstLine_noNewline|]. split.
  - intros ->. reflexivity.
  - intros Hmore. destruct more as [| c1 more]; [congruence|].
    change (1 <? length (c :: c1 :: more))%nat with true. cbv iota.
    rewrite split_newline by reflexivity.
    change (LF +:+ Js.join LF (map (fun msg => "- " +:+ firstLine msg) (c :: c1 :: more)))
      with ("" +:+ LF +:+ Js.join LF (map (fun msg => "- " +:+ firstLine msg) (c :: c1 :: more))).
    rewrite split_newline by reflexivity.
    rewrite split_join_lines; [reflexivity | discriminate |].
    apply Forall_map. apply Forall_forall. intros msg _. cbv beta.
    rewrite hasNewline_app. apply firstLine_noNewline.
Qed.

Lemma generatePRContent_one_line_per_commit_witness :
  exists body,
    result (run (scripted (fun c =>
                   match c as c0 return option (reply c0) with
                   | GitRevparseAbbrevRef _ _ => Some "alice/CO-100/billing"
                   | GitLog _ _ _ =>
                       Some ["Add invoices" +:+ LF +:+ LF +:+ "Details."; "Fix totals"]
                   | _ => None
                   end)) (generatePRContent "/w") tt)
    = inr ("Add invoices", body)
    /\ Js.split "010" body = ["## Commits"; ""; "- Add invoices"; "- Fix totals"].
Proof.
  destruct (generatePRContent_one_line_per_commit
              (scripted (fun c =>
                   match c as c0 return option (reply c0) with
                   | GitRevparseAbbrevRef _ _ => Some "alice/CO-100/billing"
                   | GitLog _ _ _ =>
                       Some ["Add invoices" +:+ LF +:+ LF +:+ "Details."; "Fix totals"]
                   | _ => None
                   end)) tt "/w" "alice/CO-100/billing"
              ["Add invoices" +:+ LF +:+ LF +:+ "Details."; "Fix totals"]
              eq_refl eq_refl) as (body & Hres & _ & _ & Hbody).
  exists body. split; [exact Hres | exact (Hbody ltac:(discriminate))].
Defined.

(** ** What reaches the hosted API *)

Lemma matchOwnerRepo_nonempty (rest owner repo : string) :
  matchOwnerRepo rest = Some (owner, repo) -> owner <> "" /\ repo <> "".
Proof.
  unfold matchOwnerRepo. destruct rest as [| c r]; [discriminate|].
  destruct (_ || _); [|discriminate].
  destruct (takeWhileS _ r) as [| o os] eqn:Ho; [discriminate|].
  destruct (Js.substringFrom _ r) as [| c1 r2]; [discriminate|].
  destruct (takeWhileS _ r2) as [| p ps] eqn:Hp.
  - rewrite andb_false_r. discriminate.
  - destruct (_ && _); [|discriminate]. intros [= <- <-]. split; discriminate.
Qed.

Lemma matchGitHubUrl_nonempty (url owner repo : string) :
  matchGitHubUrl url = Some (owner, repo) -> owner <> "" /\ repo <> "".
Proof.
  induction url as [| c url IH]; cbn [matchGitHubUrl].
  - destruct (Js.startsWith "github.com" ""); [|discriminate].
    destruct (matchOwnerRepo _) as [[o r]|] eqn:E; [|discriminate].
    intros [= <- <-]. exact (matchOwnerRepo_nonempty _ _ _ E).
  - destruct (Js.startsWith "github.com" (String c url)).
    + destruct (matchOwnerRepo _) as [[o r]|] eqn:E; [|exact IH].
      intros [= <- <-]. exact (matchOwnerRepo_nonempty _ _ _ E).
    + exact IH.
Qed.

Lemma submitsOnce_quiet (env : ProcessEnv) (ok : call -> Prop) {A}
    (e : event) (tr : list event) (res : error + A) :
  isNetworkCall (eventCall e) = false ->
  (truthyOpt (GITHUB_TOKEN env) = true -> commandRun e = None) ->
  submitsOnce env ok tr res -> submitsOnce env ok (e :: tr) res.
Proof.
  intros Hnet Hcmd [Hrun Hsub]. split.
  - intros Henv. cbn [omap list_omap]. rewrite (Hcmd Henv). exact (Hrun Henv).
  - cbn [omap list_omap]. unfold submission at 1. rewrite Hnet. exact Hsub.
Qed.

Lemma submitsOnce_failed (env : ProcessEnv) (ok : call -> Prop) {A} (e : error) :
  submitsOnce env ok [] (@inl error A e).
Proof. split; [reflexivity | now exists e]. Qed.

Ltac quietly :=
  apply submitsOnce_quiet; [reflexivity | intros _; reflexivity |].

Lemma createPullRequest_submitsOnce (env : ProcessEnv) (repoPath title body : string)
    (draft : bool) :
  wp anyAnswer (submitsOnce env (submissionOf env title body draft))
     (createPullRequest env repoPath title (Some body) draft).
Proof.
  unfold createPullRequest.
  replace (if truthyOpt (Some body) then default "" (Some body) else "")
    with body by (now destruct body).
  apply wp_bind. cbn [await wp].
  intros [branch|] _; [|quietly; apply submitsOnce_failed].
  cbn [wp].
  eapply wp_mono;
    [intros tr res; apply submitsOnce_quiet; [reflexivity | intros _; reflexivity]|].
  destruct (String.eqb_spec branch "master") as [Hm | Hm];
    [apply submitsOnce_failed|].
  destruct (String.eqb_spec branch "main") as [Hn | Hn];
    [apply submitsOnce_failed|].
  cbn [orb]. apply wp_bind. cbn [await wp].
  intros [branches|] _; [|quietly; apply submitsOnce_failed].
  cbn [wp].
  eapply wp_mono;
    [intros tr res; apply submitsOnce_quiet; [reflexivity | intros _; reflexivity]|].
  set (base := if existsb (String.eqb "master") branches then "master" else "main").
  assert (Hbase : base = "master" \/ base = "main")
    by (subst base; destruct (existsb _ _); auto).
  clearbody base.
  assert (Hrest : forall token,
             token <> "" ->
             (truthyOpt (GITHUB_TOKEN env) = true -> GITHUB_TOKEN env = Some token) ->
             wp anyAnswer (submitsOnce env (submissionOf env title body draft))
               (info ← getGitHubRepoInfo repoPath;
                await (OctokitPullsCreate token (fst info) (snd info) title body
                         branch base draft))).
  { intros token Htok Henv. unfold getGitHubRepoInfo.
    apply wp_bind, wp_bind. cbn [await wp].
    intros [remotes|] _;
      [|quietly; apply submitsOnce_failed].
    cbn [wp app].
    eapply wp_mono with
      (Post := fun tr res =>
                 tr = [] /\ match res with
                            | inr info => fst info <> "" /\ snd info <> ""
                            | inl _ => True
                            end).
    - intros tr [e | [owner repo]] [-> Hinfo];
        [quietly; apply submitsOnce_failed|].
      cbn [fst snd app] in *. intros [pr|] _; cbn [wp].
      all: split; [reflexivity|]; cbn; tauto.
    - destruct (List.find _ remotes) as [origin|]; [|now split].
      destruct (Js.truthy (snd origin)); [|now split].
      destruct (matchGitHubUrl (snd origin)) as [[owner repo]|] eqn:E; [|now split].
      split; [reflexivity|]. exact (matchGitHubUrl_nonempty _ _ _ E). }
  unfold getGitHubToken. destruct (truthyOpt (GITHUB_TOKEN env)) eqn:Henv.
  - destruct (GITHUB_TOKEN env) as [token|]; [|discriminate Henv].
    apply wp_bind. cbn [wp mret Prog_ret app].
    apply Hrest; [now destruct token | reflexivity].
  - apply wp_bind. cbn [wp].
    intros [stdout|] _;
      [|apply submitsOnce_quiet; [reflexivity | congruence | apply submitsOnce_failed]].
    destruct (Js.truthy (Js.trim stdout)) eqn:Ht; cbn [wp mret Prog_ret];
      [|apply submitsOnce_quiet; [reflexivity | congruence | apply submitsOnce_failed]].
    eapply wp_mono;
      [intros tr res; apply submitsOnce_quiet; [reflexivity | congruence]|].
    apply Hrest; [now destruct (Js.trim stdout) | discriminate].
Qed.

Lemma submitsOnce_after (env : ProcessEnv) (ok : call -> Prop) {A}
    (pre tr : list event) (res : error + A) :
  Forall (fun e => isNetworkCall (eventCall e) = false /\ commandRun e = None) pre ->
  submitsOnce env ok tr res -> submitsOnce env ok (pre ++ tr) res.
Proof.
  intros Hpre H. induction Hpre as [| e pre [Hnet Hcmd] _ IH]; [exact H|].
  cbn [app]. apply submitsOnce_quiet; auto.
Qed.

Lemma submitsOnce_map (env : ProcessEnv) (ok ok' : call -> Prop) {A B}
    (tr : list event) (res : error + A) (res' : error + B) :
  (forall c, ok c -> ok' c) ->
  ((exists e, res = inl e) -> exists e, res' = inl e) ->
  submitsOnce env ok tr res -> submitsOnce env ok' tr res'.
Proof.
  intros Hok Hres [Hrun Hsub]. split; [exact Hrun|].
  destruct (omap submission tr) as [| c [| c' l]]; auto.
Qed.

Lemma given_or_generated (given : option string) (generated : string) :
  truthyOpt given = true ->
  given = Some (if truthyOpt given then default "" given else generated).
Proof. intros H. rewrite H. destruct given; [reflexivity | discriminate H]. Qed.

Lemma createPRTool_submitsOnce (env : ProcessEnv) (args : CreatePRArgs) :
  wp anyAnswer (submitsOnce env (submissionOfTool env args)) (createPRTool env args).
Proof.
  unfold createPRTool. apply wp_bind.
  eapply wp_mono with
    (Post := fun tr res =>
       Forall (fun e => isNetworkCall (eventCall e) = false /\ commandRun e = None) tr
       /\ match res with
          | inr content =>
              (truthyOpt (pr_argTitle args) = true ->
               pr_argTitle args = Some (fst content))
              /\ (truthyOpt (pr_argBody args) = true ->
                  pr_argBody args = Some (snd content))
          | inl _ => True
          end).
  - intros tr [e | content] [Hquiet Hcontent].
    + rewrite <- (app_nil_r tr). apply submitsOnce_after; [exact Hquiet|].
      apply submitsOnce_failed.
    + apply wp_bind. eapply wp_mono; [|apply createPullRequest_submitsOnce].
      intros tr' res H.
      destruct res as [e | pr]; cbn [wp mret Prog_ret]; rewrite ?app_nil_r;
        (apply submitsOnce_after; [exact Hquiet|]).
      * eapply submitsOnce_map; [| |exact H]; [|intros _; now exists e].
        intros c Hc. exists (fst content), (snd content). tauto.
      * eapply submitsOnce_map; [| |exact H].
        -- intros c Hc. exists (fst content), (snd content). tauto.
        -- intros [e He]. discriminate He.
  - destruct (negb (truthyOpt (pr_argTitle args)) || negb (truthyOpt (pr_argBody args)))
      eqn:Hgiven.
    + unfold generatePRContent, getCommitsSinceBase.
      unfold mbind, Prog_bind, mret, Prog_ret, await. cbn [bind wp].
      intros [branch|] _; cbn [bind wp]; [|split; [repeat constructor | exact I]].
      intros [[| c commits]|] _; cbn [bind wp];
        try (split; [repeat constructor | exact I]).
      split; [repeat constructor|]. cbn [fst snd].
      split; apply given_or_generated.
    + apply orb_false_iff in Hgiven as [Ht Hb].
      apply negb_false_iff in Ht, Hb.
      split; [constructor|]. cbn [fst snd].
      split; intros _; [destruct (pr_argTitle args) | destruct (pr_argBody args)];
        first [reflexivity | discriminate].
Qed.

(** X10.  What [createPRTool] sends to the hosted API.  Whatever the
    collaborators answer, a run submits at most one pull request, and it
    cannot succeed without submitting one.  The submission never has a trunk
    branch ([master] or [main]) as its head, and always has one as its base;
    its token, owner and repository are not empty; the token is the one of
    [GITHUB_TOKEN] when that is set, and then no command is run to find
    one; a title and a body given and not empty are passed on unchanged,
    and the draft flag is the one given, or [false]. *)
Theorem createPRTool_submits_once {W} (h : handler W) (w : W)
    (env : ProcessEnv) (args : CreatePRArgs) :
  let R := run h (createPRTool env args) w in
  (truthyOpt (GITHUB_TOKEN env) = true -> omap commandRun (trace R) = [])
  /\ match omap submission (trace R) with
     | [] => exists e, result R = inl e
     | [c] => submissionOfTool env args c
     | _ => False
     end.
Proof.
  intros R.
  exact (wp_run anyAnswer h _ _ w (obeys_any h) (createPRTool_submitsOnce env args)).
Qed.

Lemma createPRTool_submits_once_witness :
  let R := run (scripted featureBranchCheckout)
             (createPRTool tokenInEnvironment describeFromCommits) tt in
  omap commandRun (trace R) = []
  /\ omap submission (trace R)
     = [OctokitPullsCreate "t0ken" "acme-corp" "Acme" "Add invoices"
          ("## Commits" +:+ LF +:+ LF +:+ "- Add invoices" +:+ LF +:+ "- Fix totals")
          "alice/CO-100/billing" "master" false].
Proof.
  destruct (createPRTool_submits_once (scripted featureBranchCheckout) tt
              tokenInEnvironment describeFromCommits) as [H _].
  split; [exact (H eq_refl) | reflexivity].
Defined.

(** ** The status tool *)

(** X11.  [worktreeStatusTool] fails only when the status of the working
    directory cannot be read.  Otherwise it reports the worktree clean
    exactly when no file is changed, and ready for a pull request exactly
    when it is clean and ahead of its upstream; the count of commits behind
    plays no part in that.  The message announces readiness exactly when the
    worktree is clean, its ahead count is not zero and it is not behind: a
    worktree that is ready and behind gets the warning, not the
    announcement. *)
Theorem worktreeStatusTool_readiness {W} (h : handler W) (w : W) (worktreePath : string) :
  let R := run h (worktreeStatusTool worktreePath) w in
  match (h (GitStatus worktreePath) w).1 with
  | None => result R = inl (CollaboratorFailed (GitStatus worktreePath))
  | Some files =>
      exists r,
        result R = inr r
        /\ ws_worktreePath r = worktreePath
        /\ ws_clean r = Nat.eqb (length files) 0
        /\ ws_uncommitted r = negb (ws_clean r)
        /\ (readyForPR r = true <-> ws_clean r = true /\ (0 < ws_ahead r)%Z)
        /\ (announcesReady (message r) = true
            <-> ws_clean r = true /\ ws_ahead r <> 0%Z /\ (ws_behind r <= 0)%Z)
        /\ (warnsBehind (message r) = true
            <-> ws_clean r = true /\ ws_ahead r <> 0%Z /\ (0 < ws_behind r)%Z)
  end.
Proof.
  intros R. subst R. unfold worktreeStatusTool. rewrite run_bind. unfold andThen.
  destruct (h (GitStatus worktreePath) w).1 as [files|] eqn:Hst.
  2:{ now rewrite (getWorktreeStatus_fails h worktreePath w Hst). }
  destruct (run_getWorktreeStatus h worktreePath files w Hst) as (counts & -> & _).
  cbn [result final trace run mret Prog_ret clean ahead behind uncommitted].
  eexists. split; [reflexivity|].
  cbn [ws_worktreePath ws_clean ws_uncommitted readyForPR message ws_ahead ws_behind].
  split; [reflexivity|]. split; [reflexivity|]. split; [reflexivity|].
  destruct (Nat.eqb (length files) 0); cbn [negb andb].
  2:{ split; [|split]; (split; [discriminate | intros [H _]; discriminate H]). }
  destruct (Z.eqb_spec (snd counts) 0) as [E | E].
  { rewrite E. split; [|split]; (split; [discriminate | intros [_ H]]);
      first [lia | destruct H as [H _]; congruence]. }
  destruct (Z.ltb_spec 0 (fst counts)) as [B | B].
  - split; [|split].
    + rewrite Z.ltb_lt. tauto.
    + split; [discriminate | lia].
    + split; [intros _; repeat split; [exact E | lia] | intros _].
      apply prefix_append.
  - split; [|split].
    + rewrite Z.ltb_lt. tauto.
    + split; [intros _; repeat split; [exact E | lia] | intros _].
      unfold announcesReady, Js.startsWith.
      match goal with
      | |- String.prefix ?p (_ +:+ ?s) = true =>
          exact (prefix_append p (" Clean and " +:+ s))
      end.
    + split; [discriminate | lia].
Qed.

(** ** The steps of a cleanup *)

Lemma cleanupWorktreeTool_steps (env : ProcessEnv) (args : CleanupWorktreeArgs) :
  wp anyAnswer (cleanupSteps env args) (cleanupWorktreeTool env args).
Proof.
  unfold cleanupWorktreeTool, getMainRepoRoot, removeWorktree, deleteBranch.
  unfold mbind, Prog_bind, mret, Prog_ret, await. cbn [bind tryCatch wp].
  intros [txt|] _; cbn [bind tryCatch wp].
  2:{ eexists _, _. split; [reflexivity|]. cbn. split; [reflexivity | now eexists]. }
  destruct (List.find (Js.startsWith "worktree ") (Js.split "010" txt))
    as [line|] eqn:Hroot; cbn [bind tryCatch wp].
  2:{ eexists _, _. split; [reflexivity|].
      cbn [mbind option_bind]. unfold mainRootOf. rewrite Hroot.
      split; [reflexivity | now eexists]. }
  set (root := Js.substringFrom 9 line).
  assert (Hfound : Some txt ≫= mainRootOf = Some root)
    by (cbn [mbind option_bind]; unfold mainRootOf; now rewrite Hroot).
  intros branch _.
  assert (Hbranch : forall (k : option string -> Prog CleanupWorktreeResult)
                      (Post : list event -> error + CleanupWorktreeResult -> Prop),
             wp anyAnswer Post (k branch) ->
             wp anyAnswer Post
               (bind (tryCatch
                        (bind match branch with
                              | Some x => Ret x
                              | None =>
                                  Throw (CollaboratorFailed
                                           (GitRevparseAbbrevRef (cl_worktreePath args)
                                              "HEAD"))
                              end (fun b => Ret (Some b)))
                        (fun _ => Ret None)) k)).
  { intros k Post Hk. destruct branch; exact Hk. }
  apply Hbranch. clear Hbranch. cbn [wp].
  intros [[]|] _; cbn [bind wp].
  2:{ eexists _, _. split; [reflexivity|]. rewrite Hfound.
      eexists _, _, _. split; [reflexivity|]. split; reflexivity. }
  assert (Hwalk : forall (deletion : list event) (deletedFlag : bool),
             (if default false (cl_deleteBranch args) && truthyOpt branch
              then exists deleted,
                     deletion
                     = [Event (GitDeleteLocalBranch root (default "" branch)) deleted]
                     /\ deletedFlag = bool_decide (is_Some deleted)
              else deletion = [] /\ deletedFlag = false) ->
             wp anyAnswer
               (fun tr res =>
                  cleanupSteps env args
                    (Event (GitWorktreeList (cl_cwd args)) (Some txt)
                     :: Event (GitRevparseAbbrevRef (cl_worktreePath args) "HEAD") branch
                     :: Event (GitWorktreeRemove root (cl_worktreePath args)) (Some tt)
                     :: deletion ++ tr) res)
               (bind (pruneLoop env
                        (String.length (NodePath.dirname (cl_worktreePath args)))
                        (NodePath.dirname (cl_worktreePath args)) [])
                     (fun ds => Ret {| removed := true;
                                       cl_resultPath := cl_worktreePath args;
                                       cl_branchName := branch;
                                       branchDeleted := deletedFlag;
                                       directoriesRemoved := ds |}))).
  { intros deletion deletedFlag Hdeletion.
    apply (wp_bind anyAnswer _ (pruneLoop env _ _ [])).
    eapply wp_mono; [|apply pruneLoop_wp; lia].
    cbv beta. intros tr res (ds & -> & Hds). cbn [wp app].
    eexists _, _. split; [reflexivity|]. rewrite Hfound.
    eexists _, _, _. split; [reflexivity|].
    eexists _, deletion, tr. rewrite app_nil_r.
    repeat (split; [reflexivity|]). split; [exact Hds | exact Hdeletion]. }
  destruct (default false (cl_deleteBranch args) && truthyOpt branch) eqn:Hdel.
  - cbn [bind wp]. intros deleted _.
    destruct deleted as [[]|]; cbn [bind tryCatch].
    + apply (Hwalk [Event (GitDeleteLocalBranch root (default "" branch)) (Some tt)] true).
      eexists. split; reflexivity.
    + apply (Hwalk [Event (GitDeleteLocalBranch root (default "" branch)) None] false).
      eexists. split; reflexivity.
  - cbn [bind]. apply (Hwalk [] false). split; reflexivity.
Qed.

(** X12.  The steps of [cleanupWorktreeTool], whatever the collaborators
    answer.  The worktrees are enumerated first, and without a main checkout
    nothing else is done.  The branch of the worktree is asked for before the
    worktree is removed, and a failure to find it is not fatal.  A failing
    removal is fatal, and nothing is called after it.  After a removal that
    worked the tool succeeds: the branch is deleted, in the main checkout,
    only when that was asked for and a branch name was found; a deletion
    that fails is reported and not fatal; and the rest of the calls is the
    walk up the directories above the worktree. *)
Theorem cleanupWorktreeTool_step_by_step {W} (h : handler W) (w : W)
    (env : ProcessEnv) (args : CleanupWorktreeArgs) :
  let R := run h (cleanupWorktreeTool env args) w in
  cleanupSteps env args (trace R) (result R).
Proof.
  intros R.
  exact (wp_run anyAnswer h _ _ w (obeys_any h) (cleanupWorktreeTool_steps env args)).
Qed.

(** ** The handle, by the source it comes from *)

Lemma trimEnd_idempotent (s : string) : Js.trimEnd (Js.trimEnd s) = Js.trimEnd s.
Proof.
  induction s as [| c s IH]; [reflexivity|].
  cbn [Js.trimEnd]. destruct (Js.trimEnd s) as [| d r] eqn:E.
  - destruct (Js.isWhiteSpace c) eqn:Hc; [reflexivity|].
    cbn [Js.trimEnd]. now rewrite Hc.
  - cbn [Js.trimEnd]. cbn [Js.trimEnd] in IH. now rewrite IH.
Qed.

Lemma trimStart_head (s : string) :
  match Js.trimStart s with
  | EmptyString => True
  | String c _ => Js.isWhiteSpace c = false
  end.
Proof.
  induction s as [| c s IH]; [exact I|].
  cbn [Js.trimStart]. destruct (Js.isWhiteSpace c) eqn:Hc; [exact IH | exact Hc].
Qed.

Lemma trim_idempotent (s : string) : Js.trim (Js.trim s) = Js.trim s.
Proof.
  unfold Js.trim. pose proof (trimStart_head s) as Hhead.
  destruct (Js.trimStart s) as [| c t]; [reflexivity|].
  assert (Hkeep : exists r, Js.trimEnd (String c t) = String c r).
  { cbn [Js.trimEnd]. destruct (Js.trimEnd t); [rewrite Hhead|]; eauto. }
  destruct Hkeep as [r Hr].
  assert (Hstart : Js.trimStart (Js.trimEnd (String c t)) = Js.trimEnd (String c t)).
  { rewrite Hr. cbn [Js.trimStart]. now rewrite Hhead. }
  rewrite Hstart. apply trimEnd_idempotent.
Qed.

(** X13.  What [detectUsername] guarantees about the handle depends on the
    source it reports.  A handle from the version-control configuration is
    not empty and made of [a-z], [0-9] and [-] only, so it names one
    directory.  A handle from the hosted login is not empty and has no white
    space around it.  A handle from the override file has no white space
    around it, and that is all: it may be empty.  And the only failure of
    [detectUsername] is [IdentityUnresolved]. *)
Theorem detectUsername_handle_by_source {W} (h : handler W) (w : W)
    (configPath : option string) :
  match result (run h (detectUsername configPath) w) with
  | inl e => e = IdentityUnresolved
  | inr u =>
      match source u with
      | manual_config => Js.trim (username u) = username u
      | github_cli => username u <> "" /\ Js.trim (username u) = username u
      | git_config =>
          username u <> "" /\ allSlug (username u)
          /\ isOrdinarySegment (username u) = true
      end
  end.
Proof.
  rewrite detectUsername_result. unfold resolveIdentity_spec.
  set (a1 := (overrideAnswer h configPath w).1).
  set (a2 := (h ghLoginProbe (overrideAnswer h configPath w).2).1).
  set (a3 := (h gitUserName _).1). clearbody a1 a2 a3.
  assert (H1 : forall u, fromOverrideFile a1 = Some u ->
                 source u = manual_config /\ Js.trim (username u) = username u).
  { intros u. unfold fromOverrideFile. destruct a1 as [content|]; [|discriminate].
    destruct (matchUsernameAssignment content); [|discriminate].
    intros [= <-]. split; [reflexivity | apply trim_idempotent]. }
  assert (H2 : forall u, fromHostedLogin a2 = Some u ->
                 source u = github_cli /\ username u <> ""
                 /\ Js.trim (username u) = username u).
  { intros u. unfold fromHostedLogin. destruct a2 as [stdout|]; [|discriminate].
    destruct (Js.truthy (Js.trim stdout)) eqn:Ht; [|discriminate].
    intros [= <-]. split; [reflexivity|]. split; [|apply trim_idempotent].
    cbn [username]. now destruct (Js.trim stdout). }
  assert (H3 : forall u, fromLocalConfig a3 = Some u ->
                 source u = git_config /\ username u <> "" /\ allSlug (username u)).
  { intros u. unfold fromLocalConfig. destruct a3 as [[name|]|]; try discriminate.
    destruct (Js.truthy (normalizeUsername name)) eqn:Ht; [|discriminate].
    intros [= <-]. split; [reflexivity|]. split.
    - cbn [username]. now destruct (normalizeUsername name).
    - apply stripNonSlug_allSlug. }
  cbn [List.find].
  destruct (fromOverrideFile a1) as [u|].
  { destruct (H1 u eq_refl) as [Hs Hu]. cbn. now rewrite Hs. }
  destruct (fromHostedLogin a2) as [u|].
  { destruct (H2 u eq_refl) as (Hs & Hne & Hu). cbn. now rewrite Hs. }
  destruct (fromLocalConfig a3) as [u|]; [|reflexivity].
  destruct (H3 u eq_refl) as (Hs & Hne & Hu). cbn. rewrite Hs.
  split; [exact Hne|]. split; [exact Hu | now apply slug_ordinary].
Qed.

(** ** A branch without upstream *)

(** X14.  A worktree whose branch has no upstream is never reported ready
    for a pull request: when every query of an upstream fails, the status
    tool reports zero commits ahead and zero behind, whatever else the
    collaborators answer, so the worktree is not ready and the message does
    not announce it.  The tool itself still succeeds when the working
    directory can be read. *)
Theorem no_upstream_is_never_ready {W} (h : handler W) (w : W) (worktreePath : string) :
  (forall branch w',
     (h (GitRevparseAbbrevRef worktreePath (branch +:+ "@{upstream}")) w').1 = None) ->
  match result (run h (worktreeStatusTool worktreePath) w) with
  | inr r =>
      ws_ahead r = 0%Z /\ ws_behind r = 0%Z
      /\ readyForPR r = false /\ announcesReady (message r) = false
  | inl e =>
      e = CollaboratorFailed (GitStatus worktreePath)
      /\ (h (GitStatus worktreePath) w).1 = None
  end.
Proof.
  intros Hup. unfold worktreeStatusTool. rewrite run_bind. unfold andThen.
  destruct (h (GitStatus worktreePath) w).1 as [files|] eqn:Hst.
  2:{ rewrite (getWorktreeStatus_fails h worktreePath w Hst). now split. }
  destruct (run_getWorktreeStatus h worktreePath files w Hst) as (counts & -> & Hc).
  assert (Hzero : counts = (0%Z, 0%Z)).
  { destruct (h (GitRevparseAbbrevRef worktreePath "HEAD") _).1 as [branch|];
      [|exact Hc].
    cbv zeta in Hc. now rewrite Hup in Hc. }
  subst counts.
  cbn [result final trace run mret Prog_ret clean ahead behind uncommitted fst snd
       ws_ahead ws_behind readyForPR message].
  split; [reflexivity|]. split; [reflexivity|].
  destruct (Nat.eqb (length files) 0); split; reflexivity.
Qed.

Lemma no_upstream_is_never_ready_witness :
  exists r,
    result (run (scripted (fun c =>
                   match c as c0 return option (reply c0) with
                   | GitStatus _ => Some []
                   | GitRevparseAbbrevRef _ rev =>
                       if String.eqb rev "HEAD" then Some "alice/CO-100/billing" else None
                   | GitRevListCount _ _ => Some ("0" +:+ TAB +:+ "3" +:+ LF)
                   | _ => None
                   end)) (worktreeStatusTool "/w") tt) = inr r
    /\ readyForPR r = false.
Proof.
  pose proof (no_upstream_is_never_ready
                (scripted (fun c =>
                   match c as c0 return option (reply c0) with
                   | GitStatus _ => Some []
                   | GitRevparseAbbrevRef _ rev =>
                       if String.eqb rev "HEAD" then Some "alice/CO-100/billing" else None
                   | GitRevListCount _ _ => Some ("0" +:+ TAB +:+ "3" +:+ LF)
                   | _ => None
                   end)) tt "/w") as H.
  cbn [scripted fst] in H.
  assert (Hup : forall branch : string,
             (if String.eqb (branch +:+ "@{upstream}") "HEAD"
              then Some "alice/CO-100/billing" else None) = None).
  { intros branch. destruct (String.eqb_spec (branch +:+ "@{upstream}") "HEAD") as [E|];
      [|reflexivity].
    apply (f_equal String.length) in E. rewrite append_length in E.
    simpl in E. lia. }
  specialize (H (fun branch _ => Hup branch)).
  destruct (result _) as [e | r]; [destruct H as [_ H]; discriminate H|].
  exists r. split; [reflexivity | tauto].
Defined.

(** ** A description without letters or digits *)

Lemma normalizeBranchName_nothing (d : string) :
  Forall (fun c => Js.isSlugChar (Js.lowerChar c) = false
                   /\ Js.isWhiteSpace (Js.lowerChar c) = false)
         (list_ascii_of_string d) ->
  normalizeBranchName d = "".
Proof.
  unfold normalizeBranchName.
  induction d as [| c d IH]; [reflexivity|].
  cbn [list_ascii_of_string]. intros H. inversion H as [| ? ? [Hslug Hws] Hrest]; subst.
  cbn [Js.toLowerCase Js.replaceWsRuns]. rewrite Hws.
  cbn [Js.stripNonSlug]. rewrite Hslug. now apply IH.
Qed.

Lemma join_drops_empty_last (parts : list string) :
  NodePath.join (parts ++ [""]) = NodePath.join parts.
Proof.
  unfold NodePath.join. rewrite filter_app.
  change (filter (fun s => Js.truthy s = true) [""]) with (@nil string).
  now rewrite app_nil_r.
Qed.



(** ** The remote URLs of the hosting service *)

Lemma takeWhileS_app (f : ascii -> bool) (a b : string) :
  Forall (fun c => f c = true) (list_ascii_of_string a) ->
  match b with String c _ => f c = false | EmptyString => True end ->
  takeWhileS f (a +:+ b) = a.
Proof.
  intros Ha Hb. induction a as [| c a IH].
  - rewrite append_nil. destruct b as [| c b]; [reflexivity|].
    cbn [takeWhileS]. now rewrite Hb.
  - cbn [list_ascii_of_string] in Ha. inversion Ha; subst.
    rewrite append_cons. cbn [takeWhileS].
    rewrite H1. f_equal. now apply IH.
Qed.

Lemma noSlash_chars (s : string) :
  hasSlash s = false ->
  Forall (fun c => negb (NodePath.isSlash c) = true) (list_ascii_of_string s).
Proof.
  induction s as [| c s IH]; [constructor|].
  simpl. intros H. apply orb_false_iff in H as [Hc Hs].
  constructor; [now rewrite Hc | now apply IH].
Qed.

Lemma matchOwnerRepo_form (sep : ascii) (owner repo : string) (dotGit : bool) :
  sep = ":"%char \/ sep = "/"%char ->
  owner <> "" -> hasSlash owner = false ->
  repo <> "" ->
  Forall (fun c => negb (NodePath.isSlash c || Ascii.eqb c ".") = true)
         (list_ascii_of_string repo) ->
  matchOwnerRepo (String sep (owner +:+ "/" +:+ repo +:+ (if dotGit then ".git" else "")))
  = Some (owner, repo).
Proof.
  intros Hsep Ho Hos Hr Hrs. unfold matchOwnerRepo.
  assert (Hc : Ascii.eqb sep ":" || Ascii.eqb sep "/" = true)
    by (destruct Hsep as [-> | ->]; reflexivity).
  rewrite Hc. cbv zeta.
  rewrite (takeWhileS_app _ owner) by (try apply noSlash_chars; easy).
  destruct owner as [| o os]; [contradiction|]. cbv iota.
  rewrite substringFrom_append.
  rewrite append_cons, append_nil.
  rewrite !(takeWhileS_app _ repo) by (try assumption; now destruct dotGit).
  rewrite substringFrom_append.
  destruct repo as [| p ps]; [contradiction|].
  now destruct dotGit.
Qed.

Lemma matchGitHubUrl_eq (url : string) :
  matchGitHubUrl url
  = match (if Js.startsWith "github.com" url
           then matchOwnerRepo (Js.substringFrom 10 url) else None) with
    | Some m => Some m
    | None =>
        match url with
        | EmptyString => None
        | String _ rest => matchGitHubUrl rest
        end
    end.
Proof. destruct url; reflexivity. Qed.

Lemma matchGitHubUrl_here (rest : string) (m : string * string) :
  matchOwnerRepo rest = Some m -> matchGitHubUrl ("github.com" +:+ rest) = Some m.
Proof.
  intros Hm. rewrite matchGitHubUrl_eq. unfold Js.startsWith.
  rewrite prefix_append.
  change 10%nat with (String.length "github.com").
  now rewrite substringFrom_append, Hm.
Qed.

Lemma matchGitHubUrl_skip (c : ascii) (s : string) :
  Js.startsWith "github.com" (String c s) = false ->
  matchGitHubUrl (String c s) = matchGitHubUrl s.
Proof. intros H. rewrite matchGitHubUrl_eq. now rewrite H. Qed.

(** X16.  The two forms of remote URL the source documents are recognised,
    with or without a final [.git]: [git@github.com:<owner>/<repo>] and
    [https://github.com/<owner>/<repo>] give the owner and the repository,
    for every owner without [/] and every repository name without [/] and
    [.], both not empty. *)
Theorem matchGitHubUrl_documented_forms (owner repo : string) (dotGit : bool) :
  owner <> "" -> hasSlash owner = false ->
  repo <> "" ->
  Forall (fun c => negb (NodePath.isSlash c || Ascii.eqb c ".") = true)
         (list_ascii_of_string repo) ->
  let suffix := if dotGit then ".git" else "" in
  matchGitHubUrl ("git@github.com:" +:+ owner +:+ "/" +:+ repo +:+ suffix)
  = Some (owner, repo)
  /\ matchGitHubUrl ("https://github.com/" +:+ owner +:+ "/" +:+ repo +:+ suffix)
     = Some (owner, repo).
Proof.
  intros Ho Hos Hr Hrs suffix. subst suffix. split.
  - change ("git@github.com:" +:+ owner +:+ "/" +:+ repo +:+ (if dotGit then ".git" else ""))
      with ("git@" +:+ "github.com" +:+
            String ":" (owner +:+ "/" +:+ repo +:+ (if dotGit then ".git" else ""))).
    rewrite !append_cons, append_nil.
    rewrite !matchGitHubUrl_skip by reflexivity.
    apply matchGitHubUrl_here. now apply matchOwnerRepo_form; [left|..].
  - change ("https://github.com/" +:+ owner +:+ "/" +:+ repo +:+ (if dotGit then ".git" else ""))
      with ("https://" +:+ "github.com" +:+
            String "/" (owner +:+ "/" +:+ repo +:+ (if dotGit then ".git" else ""))).
    rewrite !append_cons, append_nil.
    rewrite !matchGitHubUrl_skip by reflexivity.
    apply matchGitHubUrl_here. now apply matchOwnerRepo_form; [right|..].
Qed.

Lemma matchGitHubUrl_documented_forms_witness :
  matchGitHubUrl "git@github.com:acme-corp/Acme.git" = Some ("acme-corp", "Acme")
  /\ matchGitHubUrl "https://github.com/acme-corp/Acme.git" = Some ("acme-corp", "Acme").
Proof.
  apply (matchGitHubUrl_documented_forms "acme-corp" "Acme" true);
    [discriminate | reflexivity | discriminate | repeat constructor].
Defined.

(** ** The report of a creation *)

Lemma reportMatchesRun_stable (e : event) (tr : list event)
    (res : error + CreateWorktreeResult) :
  fileCopied e = None -> reportMatchesRun tr res -> reportMatchesRun (e :: tr) res.
Proof.
  intros He. destruct res as [err | r]; [auto|]. unfold reportMatchesRun.
  cbn [omap list_omap]. rewrite He.
  intros [Hpm Henv]. split; [|exact Henv].
  destruct (packageManager r) as [pm|]; [|exact Hpm].
  destruct Hpm as (Hi & Hin & Hrun). split; [exact Hi|]. split; [exact Hin|].
  destruct (commandSucceeded e); [now right | exact Hrun].
Qed.

Lemma lookup_not_copy (e : event) : lookupCall (eventCall e) -> fileCopied e = None.
Proof. destruct e as [c a]. destruct c; try discriminate; reflexivity. Qed.

Lemma installDependencies_report (worktreePath : string) :
  wp anyAnswer
     (fun tr res =>
        omap fileCopied tr = []
        /\ match res with
           | inl _ => False
           | inr (ok, Some pm) =>
               ok = true /\ In pm ["pnpm"; "npm"; "yarn"]
               /\ In (pm +:+ " install", Some worktreePath, 300000)
                     (omap commandSucceeded tr)
           | inr (ok, None) => ok = false
           end)
     (tryCatch (installDependencies worktreePath) (fun _ => mret (false, None))).
Proof.
  unfold installDependencies, detectPackageManager.
  unfold mbind, Prog_bind, mret, Prog_ret. cbn [bind tryCatch wp].
  assert (Hexec : forall pm pre,
             In pm ["pnpm"; "npm"; "yarn"] -> omap fileCopied pre = [] ->
             forall r : option (reply (Exec (pm +:+ " install") (Some worktreePath) 300000)),
               wp anyAnswer
                 (fun tr res =>
                    omap fileCopied
                      (pre ++ Event (Exec (pm +:+ " install") (Some worktreePath) 300000) r
                           :: tr) = []
                    /\ match res with
                       | inl _ => False
                       | inr (ok, Some pm') =>
                           ok = true /\ In pm' ["pnpm"; "npm"; "yarn"]
                           /\ In (pm' +:+ " install", Some worktreePath, 300000)
                                 (omap commandSucceeded
                                    (pre ++ Event (Exec (pm +:+ " install")
                                                     (Some worktreePath) 300000) r :: tr))
                       | inr (ok, None) => ok = false
                       end)
                 (tryCatch match r with
                           | Some _ => Ret (true, Some pm)
                           | None => Throw (InstallFailed pm)
                           end (fun _ => Ret (false, None)))).
  { intros pm pre Hpm Hpre [out|]; cbn [tryCatch wp];
      (split; [rewrite omap_app, Hpre; reflexivity|]); [|reflexivity].
    split; [reflexivity|]. split; [exact Hpm|].
    rewrite omap_app. apply in_or_app. right. now left. }
  intros [[]|] _; cbn [bind tryCatch wp Js.truthy].
  { intros r _. apply (Hexec "pnpm" [_]); [now left | reflexivity]. }
  intros [[]|] _; cbn [bind tryCatch wp Js.truthy].
  { intros r _. apply (Hexec "npm" [_; _]); [right; now left | reflexivity]. }
  intros [[]|] _; cbn [bind tryCatch wp Js.truthy].
  { intros r _. apply (Hexec "yarn" [_; _; _]); [right; right; now left | reflexivity]. }
  split; reflexivity.
Qed.

Lemma copyEnvFiles_report (mainRepoPath worktreePath : string) :
  wp anyAnswer
     (fun tr res =>
        match res with
        | inl _ => False
        | inr n => n = N.of_nat (length (omap fileCopied tr)) \/ n = 0
        end)
     (tryCatch (copyEnvFiles mainRepoPath worktreePath) (fun _ => mret 0)).
Proof.
  apply wp_tryCatch. unfold copyEnvFiles. apply wp_bind. cbn [await wp].
  intros [envFiles|] _; cbn [wp mret Prog_ret]; [|now right].
  eapply wp_mono; [|apply copyEnvFiles_loop_wp].
  cbv beta. intros tr [e | count] (n & Hc & _ & Hres); cbn [wp mret Prog_ret];
    [now right|].
  left. destruct Hres as [-> ->]. cbn [app omap list_omap fileCopied].
  change (list_omap event _ fileCopied tr) with (omap fileCopied tr).
  rewrite Hc, firstn_all2 by (rewrite length_map; lia).
  now rewrite length_map.
Qed.

Lemma createWorktreeTool_report (args : CreateWorktreeArgs) :
  wp anyAnswer reportMatchesRun (createWorktreeTool args).
Proof.
  unfold createWorktreeTool.
  destruct (_ || _); [exact I|].
  destruct (_ || _); [exact I|].
  assert (Hstable : forall e tr res,
             lookupCall (eventCall e) -> reportMatchesRun tr res ->
             reportMatchesRun (e :: tr) res).
  { intros e tr res He. apply reportMatchesRun_stable, lookup_not_copy, He. }
  apply (wp_bind_confined lookupCall anyError); [exact Hstable | easy | |].
  { apply (confined_mono _ notFuel); [easy|]. now apply confined_getMainRepoRoot. }
  intros mainRepoRoot.
  apply (wp_bind_confined lookupCall anyError);
    [exact Hstable | easy | apply lookup_detectUsername |].
  intros usernameResult.
  apply (wp_bind_confined lookupCall anyError);
    [exact Hstable | easy | apply lookup_getRepoName |].
  intros repoName.
  unfold createWorktree. cbn [truthyOpt Js.truthy default].
  unfold mbind at 1 2 3, Prog_bind, mret at 1, Prog_ret, await. cbn [bind wp].
  intros [[]|] _; [|exact I]. cbn [bind wp].
  intros [[]|] _; [|exact I]. cbn [bind].
  eapply wp_mono;
    [intros tr res H; apply reportMatchesRun_stable; [reflexivity|];
     apply reportMatchesRun_stable; [reflexivity | exact H]|].
  match goal with
  | |- wp _ _ (bind (tryCatch (installDependencies ?p) _) _) => set (wt := p)
  end.
  apply (wp_bind anyAnswer _ (tryCatch (installDependencies wt) _)).
  eapply wp_mono; [|apply installDependencies_report].
  cbv beta. intros tr1 [e | [ok pm]] [Hnone Hdeps]; [destruct Hdeps|].
  apply (wp_bind anyAnswer _ (tryCatch (copyEnvFiles mainRepoRoot wt) _)).
  eapply wp_mono; [|apply copyEnvFiles_report].
  cbv beta. intros tr2 [e | n] Hn; [destruct Hn|].
  cbn [wp mret Prog_ret reportMatchesRun packageManager dependenciesInstalled
       envFilesCopied worktreePath fst snd].
  rewrite app_nil_r, !omap_app, Hnone. cbn [app]. split; [|exact Hn].
  destruct pm as [pm|]; [|exact Hdeps].
  destruct Hdeps as (Hok & Hpm & Hrun). split; [exact Hok|]. split; [exact Hpm|].
  apply in_or_app. now left.
Qed.


(** ** Lines the parser passes over *)

Lemma listWorktrees_line_passes (st : list WorktreeInfo * WorktreeInfo) (line : string) :
  isParsedLine line = false -> listWorktrees_line st line = st.
Proof.
  unfold isParsedLine. intros H.
  apply orb_false_iff in H as [H H4]. apply orb_false_iff in H as [H H3].
  apply orb_false_iff in H as [H1 H2].
  destruct st as [result current]. unfold listWorktrees_line.
  now rewrite H1, H2, H3, H4.
Qed.

Lemma fold_listWorktrees_parsed (lines : list string)
    (st : list WorktreeInfo * WorktreeInfo) :
  fold_left listWorktrees_line (List.filter isParsedLine lines) st
  = fold_left listWorktrees_line lines st.
Proof.
  revert st. induction lines as [| l lines IH]; intros st; [reflexivity|].
  cbn [List.filter fold_left]. destruct (isParsedLine l) eqn:Hl.
  - cbn [fold_left]. apply IH.
  - rewrite (listWorktrees_line_passes st l Hl). apply IH.
Qed.

(** X18.  [listWorktrees] reads four kinds of line only: [worktree ],
    [HEAD ] and [branch ] attributes, and the empty line.  Every other line
    of the enumeration is passed over: removing all of them from the text
    changes nothing of the result. *)
Theorem other_lines_are_passed_over (lines : list string) :
  Forall (fun l => hasNewline l = false) lines ->
  parseWorktreeList (Js.join LF lines)
  = parseWorktreeList (Js.join LF (List.filter isParsedLine lines)).
Proof.
  intros Hlines.
  assert (Hkept : Forall (fun l => hasNewline l = false)
                    (List.filter isParsedLine lines)).
  { apply List.Forall_forall. intros l Hl. apply List.filter_In in Hl as [Hl _].
    rewrite List.Forall_forall in Hlines. now apply Hlines. }
  assert (Hparse : forall ls,
             Forall (fun l => hasNewline l = false) ls ->
             parseWorktreeList (Js.join LF ls)
             = markMain (fst (fold_left listWorktrees_line ls ([], emptyWorktree)))).
  { intros ls Hls. unfold parseWorktreeList. cbv zeta.
    destruct ls as [| l ls]; [reflexivity|].
    now rewrite split_join_lines. }
  rewrite (Hparse _ Hlines), (Hparse _ Hkept).
  now rewrite fold_listWorktrees_parsed.
Qed.

Lemma other_lines_are_passed_over_witness :
  parseWorktreeList
    (Js.join LF ["worktree /repos/acme"; "HEAD 1111"; "branch refs/heads/master"; "";
                 "worktree /repos/acme-worktrees/alice/CO-100/billing"; "HEAD 2222";
                 "detached"; "locked by alice"; ""])
  = parseWorktreeList
      (Js.join LF ["worktree /repos/acme"; "HEAD 1111"; "branch refs/heads/master"; "";
                   "worktree /repos/acme-worktrees/alice/CO-100/billing"; "HEAD 2222";
                   ""]).
Proof.
  apply (other_lines_are_passed_over
           ["worktree /repos/acme"; "HEAD 1111"; "branch refs/heads/master"; "";
            "worktree /repos/acme-worktrees/alice/CO-100/billing"; "HEAD 2222";
            "detached"; "locked by alice"; ""]).
  repeat constructor.
Defined.
